(** * Quasar configuration file resolution (app-webpack/lib/quasar-config-file.js)

    A shallow embedding of [quasar-config-file.js]: the public-path helpers,
    the asset-list normalisation, the address negotiation with its
    per-session cache, the compile / load / derive cycle of the
    [QuasarConfigFile] class in one-shot and in watch mode, and the
    debounced delivery of rebuilt configurations. *)

From Stdlib Require Import String Ascii List ZArith Bool Lia Arith DecimalString.

#[local] Set Warnings "-register-all".
Import ListNotations.

Local Open Scope list_scope.
Local Open Scope string_scope.

(* ===================================================================== *)
(** ** JavaScript values *)
(* ===================================================================== *)

(** Configuration values are trees: the JSON-like part of JavaScript's
    values, plus opaque leaves for regular expressions, functions and host
    objects (buffers, the compilation context).  An object is the list of
    its own enumerable properties in insertion order.  Object identity is
    not part of the model: where the source compares with [===], two
    primitives are compared by value and anything else is never equal. *)
Inductive JSValue : Type :=
| JUndefined
| JNull
| JBool (b : bool)
| JNum (n : Z)
| JNaN
| JFrac (num den : Z)
| JStr (s : string)
| JArr (items : list JSValue)
| JObj (fields : list (string * JSValue))
| JRegExp (source : string)
| JFun (name : string)
| JHost (name : string).

Definition Fields := list (string * JSValue).

(** ToBoolean. *)
Definition truthy (v : JSValue) : bool :=
  match v with
  | JUndefined | JNull | JNaN => false
  | JBool b => b
  | JNum n => negb (n =? 0)%Z
  | JFrac n _ => negb (n =? 0)%Z
  | JStr s => negb (s =? EmptyString)
  | _ => true
  end.

(** [a === b] on the value domain above. *)
Definition strict_equals (a b : JSValue) : bool :=
  match a, b with
  | JUndefined, JUndefined => true
  | JNull, JNull => true
  | JBool x, JBool y => Bool.eqb x y
  | JNum x, JNum y => (x =? y)%Z
  | JFrac n d, JFrac n' d' => (n * d' =? n' * d)%Z
  | JStr x, JStr y => (x =? y)
  | _, _ => false
  end.

Definition is_undefined (v : JSValue) : bool :=
  match v with JUndefined => true | _ => false end.

Definition is_nullish (v : JSValue) : bool :=
  match v with JUndefined | JNull => true | _ => false end.

(** [typeof v === 'string'], [typeof v === 'function'], [Array.isArray],
    plain objects, and [Object(v) === v]. *)
Definition is_string (v : JSValue) : bool :=
  match v with JStr _ => true | _ => false end.
Definition is_function (v : JSValue) : bool :=
  match v with JFun _ => true | _ => false end.
Definition is_array (v : JSValue) : bool :=
  match v with JArr _ => true | _ => false end.
Definition is_plain_object (v : JSValue) : bool :=
  match v with JObj _ => true | _ => false end.
Definition is_regex (v : JSValue) : bool :=
  match v with JRegExp _ => true | _ => false end.
Definition is_object (v : JSValue) : bool :=
  match v with
  | JArr _ | JObj _ | JRegExp _ | JFun _ | JHost _ => true
  | _ => false
  end.

(** *** Own properties *)

Fixpoint lookup (k : string) (fs : Fields) : option JSValue :=
  match fs with
  | [] => None
  | (k', v) :: r => if k' =? k then Some v else lookup k r
  end.

(** [o[k] = v] on the property list: an existing key keeps its place, a new
    one goes last. *)
Fixpoint assign (k : string) (v : JSValue) (fs : Fields) : Fields :=
  match fs with
  | [] => [(k, v)]
  | (k', v') :: r => if k' =? k then (k, v) :: r else (k', v') :: assign k v r
  end.

(** [delete o[k]]. *)
Fixpoint remove (k : string) (fs : Fields) : Fields :=
  match fs with
  | [] => []
  | (k', v') :: r => if k' =? k then remove k r else (k', v') :: remove k r
  end.

Definition has_key (k : string) (fs : Fields) : bool :=
  match lookup k fs with Some _ => true | None => false end.

(** [Object.assign(target, source)] on property lists. *)
Definition assign_all (target source : Fields) : Fields :=
  fold_left (fun acc kv => assign (fst kv) (snd kv) acc) source target.

(** Property read [v.k].  [None] is the TypeError of reading a property of
    [undefined] or [null]; a missing property reads as [undefined].  The
    only inherited property the source reads is [length]. *)
Definition prop (v : JSValue) (k : string) : option JSValue :=
  match v with
  | JUndefined | JNull => None
  | JObj fs => Some (match lookup k fs with Some x => x | None => JUndefined end)
  | JArr l => Some (if k =? "length" then JNum (Z.of_nat (List.length l)) else JUndefined)
  | JStr s => Some (if k =? "length" then JNum (Z.of_nat (String.length s)) else JUndefined)
  | _ => Some JUndefined
  end.

(** Property write [v.k = x] in strict mode (class bodies are strict):
    writing to [undefined], [null] or a primitive throws.  Named properties
    on arrays, functions and host objects are outside the value domain. *)
Definition put (v : JSValue) (k : string) (x : JSValue) : option JSValue :=
  match v with
  | JObj fs => Some (JObj (assign k x fs))
  | _ => None
  end.

(** [delete v.k]: a no-op on anything that has no such own property. *)
Definition del (v : JSValue) (k : string) : option JSValue :=
  match v with
  | JUndefined | JNull => None
  | JObj fs => Some (JObj (remove k fs))
  | _ => Some v
  end.

(* ===================================================================== *)
(** ** Strings *)
(* ===================================================================== *)

Definition startsWith (s p : string) : bool := String.prefix p s.

Fixpoint string_rev_acc (s acc : string) : string :=
  match s with
  | EmptyString => acc
  | String c r => string_rev_acc r (String c acc)
  end.

Definition string_rev (s : string) : string := string_rev_acc s EmptyString.

Definition endsWith (s p : string) : bool :=
  String.prefix (string_rev p) (string_rev s).

(** [s[0]] and [s.substring(1)]. *)
Definition first_char (s : string) : option ascii :=
  match s with EmptyString => None | String c _ => Some c end.

Definition substring_from_1 (s : string) : string :=
  match s with EmptyString => EmptyString | String _ r => r end.

Fixpoint drop (n : nat) (s : string) : string :=
  match n, s with
  | S n', String _ r => drop n' r
  | _, _ => s
  end.

Fixpoint take (n : nat) (s : string) : string :=
  match n, s with
  | S n', String c r => String c (take n' r)
  | _, _ => EmptyString
  end.

(* ===================================================================== *)
(** ** Regular expressions *)
(* ===================================================================== *)

(** A backtracking matcher for the fragment of JavaScript's regular
    expressions the file uses: character classes, sequence, alternation,
    greedy [?] and [*], bounded repetition [{0,1}], capturing groups, and a
    pattern anchored by [^] at its start (both patterns are, and neither has
    the [m] flag, so a match can only start at index 0).  Characters are
    bytes, which is exact for ASCII input. *)
Inductive Regex : Type :=
| REmpty
| RClass (p : ascii -> bool)
| RSeq (a b : Regex)
| RAlt (a b : Regex)
| ROpt (a : Regex)
| RStar (a : Regex)
| RGroup (n : nat) (a : Regex)
| REnd.

Definition Captures := list (nat * string).

Fixpoint capture (n : nat) (c : Captures) : option string :=
  match c with
  | [] => None
  | (m, s) :: r => if Nat.eqb m n then Some s else capture n r
  end.

Definition consumed (before after : string) : string :=
  take (String.length before - String.length after) before.

Fixpoint rmatch (r : Regex) (s : string) (c : Captures)
         (k : string -> Captures -> option Captures) {struct r} : option Captures :=
  match r with
  | REmpty => k s c
  | RClass p =>
      match s with
      | String ch rest => if p ch then k rest c else None
      | EmptyString => None
      end
  | RSeq a b => rmatch a s c (fun s' c' => rmatch b s' c' k)
  | RAlt a b =>
      match rmatch a s c k with
      | Some res => Some res
      | None => rmatch b s c k
      end
  | ROpt a =>
      match rmatch a s c k with
      | Some res => Some res
      | None => k s c
      end
  | RStar a =>
      (fix star (fuel : nat) (s : string) (c : Captures) {struct fuel} : option Captures :=
         match fuel with
         | O => k s c
         | S fuel' =>
             match rmatch a s c
                     (fun s' c' =>
                        if (String.length s' <? String.length s)%nat
                        then star fuel' s' c' else None) with
             | Some res => Some res
             | None => k s c
             end
         end) (String.length s) s c
  | RGroup n a => rmatch a s c (fun s' c' => k s' ((n, consumed s s') :: c'))
  | REnd => match s with EmptyString => k s c | _ => None end
  end.

(** [re.exec(s)] for a pattern that starts with [^]: the captures, group 0
    being the whole match, or [None] for [null]. *)
Definition regex_exec (r : Regex) (s : string) : option Captures :=
  rmatch (RGroup 0 r) s [] (fun _ c => Some c).

Definition regex_test (r : Regex) (s : string) : bool :=
  match regex_exec r s with Some _ => true | None => false end.

Definition rchar (x : ascii) : Regex := RClass (fun c => Ascii.eqb c x).
Definition rchar_i (lower upper : ascii) : Regex :=
  RClass (fun c => Ascii.eqb c lower || Ascii.eqb c upper).
Definition rnone_of (xs : list ascii) : Regex :=
  RClass (fun c => negb (existsb (Ascii.eqb c) xs)).
Definition rdigit : Regex :=
  RClass (fun c => (48 <=? nat_of_ascii c)%nat && (nat_of_ascii c <=? 57)%nat).
(** [.] without the [s] flag: anything but a line terminator. *)
Definition rdot : Regex :=
  RClass (fun c => negb (Ascii.eqb c "010" || Ascii.eqb c "013")).

Fixpoint rseq (l : list Regex) : Regex :=
  match l with
  | [] => REmpty
  | [r] => r
  | r :: rest => RSeq r (rseq rest)
  end.

(** [const urlRegex = /^http(s)?:\/\//i] *)
Definition urlRegex : Regex :=
  rseq [ rchar_i "h" "H"; rchar_i "t" "T"; rchar_i "t" "T"; rchar_i "p" "P";
         ROpt (RGroup 1 (rchar_i "s" "S"));
         rchar ":"; rchar "/"; rchar "/" ].

(** The pattern of [formatRouterBase], anchored at both ends.  Group 1 is
    the scheme, [http:] or [https:]; after the two slashes group 2 is the
    authority: group 3, a run of characters other than [: / ? #], and
    optionally a colon and group 4, one or more digits.  Group 5 is the
    path: at most one slash, then a run of characters other than [? #].
    Group 6 is a query ([?] and a run of non-[#] characters) or empty, and
    group 7 a fragment ([#] and a run of non-line-terminators) or empty. *)
Definition routerBaseRegex : Regex :=
  rseq [ RGroup 1 (rseq [ rchar "h"; rchar "t"; rchar "t"; rchar "p";
                          ROpt (rchar "s"); rchar ":" ]);
         rchar "/"; rchar "/";
         RGroup 2 (rseq [ RGroup 3 (RStar (rnone_of [":"; "/"; "?"; "#"]%char));
                          ROpt (rseq [ rchar ":";
                                       RGroup 4 (RSeq rdigit (RStar rdigit)) ]) ]);
         RGroup 5 (rseq [ ROpt (rchar "/"); RStar (rnone_of ["?"; "#"]%char) ]);
         RGroup 6 (RAlt (RSeq (rchar "?") (RStar (rnone_of ["#"]%char))) REmpty);
         RGroup 7 (RAlt (RSeq (rchar "#") (RStar rdot)) REmpty);
         REnd ].

(* ===================================================================== *)
(** ** Public path and router base *)
(* ===================================================================== *)

(** [formatPublicPath (publicPath)], on a string argument ([!publicPath]
    is then the test for the empty string). *)
Definition formatPublicPath (publicPath : string) : string :=
  if publicPath =? EmptyString then "/"
  else
    let publicPath :=
      if negb (endsWith publicPath "/") then publicPath ++ "/" else publicPath in
    if regex_test urlRegex publicPath then publicPath
    else if negb (startsWith publicPath "/") then "/" ++ publicPath
    else publicPath.

(** [formatRouterBase (publicPath)].  [None] is the TypeError of indexing
    the [null] that [match] returns when the pattern does not match;
    [match[5] || ''] is the fifth group, or [''] when it did not take part
    or is empty. *)
Definition formatRouterBase (publicPath : string) : option string :=
  if (publicPath =? EmptyString) || negb (startsWith publicPath "http") then Some publicPath
  else
    match regex_exec routerBaseRegex publicPath with
    | None => None
    | Some m =>
        Some (formatPublicPath
                (match capture 5 m with
                 | Some g => g
                 | None => EmptyString
                 end))
    end.

(* ===================================================================== *)
(** ** Asset lists *)
(* ===================================================================== *)

Definition nat_to_string (n : nat) : string :=
  NilEmpty.string_of_uint (Nat.to_uint n).

Fixpoint index_fields (i : nat) (l : list JSValue) : Fields :=
  match l with
  | [] => []
  | x :: r => (nat_to_string i, x) :: index_fields (S i) r
  end.

(** The own enumerable properties an object spread [{ ...v }] copies. *)
Definition spread (v : JSValue) : Fields :=
  match v with
  | JObj fs => fs
  | JArr l => index_fields 0 l
  | _ => []
  end.

(** [p[0] === '~' ? p.substring(1) : prefix + `/${ p }`] *)
Definition resolve_asset_path (prefix p : string) : string :=
  match first_char p with
  | Some "~"%char => substring_from_1 p
  | _ => prefix ++ "/" ++ p
  end.

(** [parseAssetProperty (prefix)] applied to [asset]; [None] is the
    TypeError of reading [asset.path] on [undefined] or [null]. *)
Definition parseAssetProperty (prefix : string) (asset : JSValue) : option JSValue :=
  match asset with
  | JStr s => Some (JObj [("path", JStr (resolve_asset_path prefix s))])
  | _ =>
      match prop asset "path" with
      | None => None
      | Some (JStr p) =>
          Some (JObj (assign "path" (JStr (resolve_asset_path prefix p)) (spread asset)))
      | Some other => Some (JObj (assign "path" other (spread asset)))
      end
  end.

(** [Array.prototype.indexOf]: the first index holding a value strictly
    equal to [v], or -1. *)
Fixpoint indexOf_from (i : Z) (l : list JSValue) (v : JSValue) : Z :=
  match l with
  | [] => (-1)%Z
  | x :: r => if strict_equals x v then i else indexOf_from (i + 1)%Z r v
  end.

Definition indexOf (l : list JSValue) (v : JSValue) : Z := indexOf_from 0 l v.

(** [Array.prototype.includes] on the value domain (no NaN in it). *)
Definition includes (l : list JSValue) (v : JSValue) : bool :=
  existsb (fun x => strict_equals x v) l.

(** [Array.prototype.filter] with the callback's [(value, index)]; the
    third argument, the array itself, is closed over by the caller. *)
Fixpoint filteri_from {A : Type} (f : A -> Z -> bool) (i : Z) (l : list A) : list A :=
  match l with
  | [] => []
  | x :: r =>
      if f x i then x :: filteri_from f (i + 1)%Z r else filteri_from f (i + 1)%Z r
  end.

Definition filteri {A : Type} (f : A -> Z -> list A -> bool) (l : list A) : list A :=
  filteri_from (fun x i => f x i l) 0%Z l.

(** [obj.path] for an element of an asset list (an object by then). *)
Definition path_of (obj : JSValue) : JSValue :=
  match prop obj "path" with Some v => v | None => JUndefined end.

(** [uniquePathFilter (value, index, self)] *)
Definition uniquePathFilter (value : JSValue) (index : Z) (self : list JSValue) : bool :=
  (indexOf (map path_of self) (path_of value) =? index)%Z.

(** [getUniqueArray (original)], that is [Array.from(new Set(original))]:
    the first occurrence of each value, in order. *)
Fixpoint unique_from (seen : list JSValue) (l : list JSValue) : list JSValue :=
  match l with
  | [] => []
  | x :: r =>
      if includes seen x then unique_from seen r
      else x :: unique_from (seen ++ [x])%list r
  end.

Definition getUniqueArray (original : list JSValue) : list JSValue :=
  unique_from [] original.

Fixpoint map_option {A B : Type} (f : A -> option B) (l : list A) : option (list B) :=
  match l with
  | [] => Some []
  | x :: r =>
      match f x, map_option f r with
      | Some y, Some ys => Some (y :: ys)
      | _, _ => None
      end
  end.

(** The chain applied to [cfg.css], [cfg.boot] and [cfg.ssr.middlewares]:
    [list.filter(_ => _).map(parseAssetProperty(prefix))
         .filter(asset => asset.path).filter(uniquePathFilter)] *)
Definition normalize_assets (prefix : string) (l : list JSValue) : option (list JSValue) :=
  match map_option (parseAssetProperty prefix) (filter truthy l) with
  | None => None
  | Some parsed =>
      Some (filteri uniquePathFilter (filter (fun asset => truthy (path_of asset)) parsed))
  end.

(* ===================================================================== *)
(** ** webpack-merge *)
(* ===================================================================== *)

(** The own enumerable string-keyed properties [Object.keys] walks, with
    their values; [None] is the TypeError on [undefined] and [null]. *)
Fixpoint char_fields (i : nat) (s : string) : Fields :=
  match s with
  | EmptyString => []
  | String c r => (nat_to_string i, JStr (String c EmptyString)) :: char_fields (S i) r
  end.

Definition entries (v : JSValue) : option Fields :=
  match v with
  | JUndefined | JNull => None
  | JObj fs => Some fs
  | JArr l => Some (index_fields 0 l)
  | JStr s => Some (char_fields 0 s)
  | _ => Some []
  end.

Definition field (k : string) (fs : Fields) : JSValue :=
  match lookup k fs with Some v => v | None => JUndefined end.

(** The customizer of [merge] ([joinArrays] with no options) together with
    [mergeTo]: two functions compose, two arrays concatenate, a regular
    expression on the right wins, two plain objects merge key by key (the
    keys of the left one first, a key whose merged value is [undefined]
    keeping the left value), and anything else on the right replaces the
    left value (a plain object or an array being copied, which is the
    identity on trees). *)
Fixpoint customize (a b : JSValue) {struct a} : JSValue :=
  match a, b with
  | JFun f, JFun g => JFun (f ++ "+" ++ g)
  | JArr la, JArr lb => JArr (la ++ lb)%list
  | _, JRegExp _ => b
  | JObj fa, JObj fb =>
      JObj (map (fun kv =>
                   (fst kv,
                    let v := customize (snd kv) (field (fst kv) fb) in
                    if is_undefined v then snd kv else v)) fa
            ++ filter (fun kv => negb (has_key (fst kv) fa)) fb)%list
  | _, _ => b
  end.

Definition mergeTo (a b : JSValue) : option JSValue :=
  match entries a, entries b with
  | Some fa, Some fb => Some (customize (JObj fa) (JObj fb))
  | _, _ => None
  end.

Fixpoint mergeWith (acc : JSValue) (rest : list JSValue) : option JSValue :=
  match rest with
  | [] => Some acc
  | b :: r =>
      match mergeTo acc b with
      | Some acc' => mergeWith acc' r
      | None => None
      end
  end.

(** [merge (first, ...rest)] of webpack-merge 5, for the calls the file
    makes (at least one further argument).  [None] is a TypeError: an
    [undefined] argument, a thenable or [null] first argument, a [null]
    further argument. *)
Definition merge (first : JSValue) (rest : list JSValue) : option JSValue :=
  if is_undefined first || existsb is_undefined rest then None
  else
    match prop first "then" with
    | None => None
    | Some t =>
        if truthy t then None
        else if negb (truthy first) then Some (JObj [])
        else mergeWith first rest
    end.

(* ===================================================================== *)
(** ** The session: context, options, collaborators, state *)
(* ===================================================================== *)

(** [ctx], the compilation context, with what [init ()] stores next to it.
    A flag is [true] or absent. *)
Record Ctx : Type := {
  ctx_dev : bool;
  ctx_prod : bool;
  ctx_debug : bool;
  ctx_modeName : string;
  ctx_mode_ssr : bool;
  ctx_mode_bex : bool;
  ctx_mode_cordova : bool;
  ctx_mode_capacitor : bool;
  ctx_mode_electron : bool;
  ctx_targetName : JSValue;
  ctx_archName : JSValue;
  ctx_bundlerName : JSValue;
  ctx_publish : JSValue;
  ctx_vueDevtools : bool;
  appPkg_productName : JSValue;
  appPkg_name : JSValue;
  appPkg_description : JSValue;
  quasarPkg_version : JSValue;
  appPaths_srcDir : string;
  appPaths_appDir : string;
  resolve_app : string -> string;
  resolve_src : string -> string;
  resolve_electron : string -> string;
  resolve_cordova : string -> string;
  tempFile_basename : string;
  versions : Fields;
  cssVariables : Fields;
  storeProvider_pathKey : string;
  storeProvider_name : JSValue;
  transformAssetUrls : JSValue
}.

(** The constructor's [{ host, port, verifyAddress, watch }]:
    [opt_verifyAddress] is [verifyAddress === true], [opt_watch] is
    [watch !== void 0]. *)
Record Opts : Type := {
  opt_host : JSValue;
  opt_port : JSValue;
  opt_verifyAddress : bool;
  opt_watch : bool
}.

(** Library functions and process constants the file imports:
    [node:path], [kolorist], [JSON.stringify], the [RegExp] constructor
    (which rejects some sources), [isMinimalTerminal], [localHostList],
    [process.platform], and the text JavaScript gives to leaves whose text
    is not modelled. *)
Record Host : Type := {
  path_join : string -> string -> string;
  path_isAbsolute : string -> bool;
  path_basename : string -> string;
  path_dirname : string -> string;
  JSON_stringify : JSValue -> JSValue;
  green : string -> string;
  dim : string -> string;
  regexp_valid : string -> bool;
  isMinimalTerminal : bool;
  localHostList : list string;
  process_platform : string;
  render : JSValue -> string
}.

Inductive ProbeResult : Type :=
| OpenPort (port : JSValue)
| ERROR_NETWORK_PORT_NOT_AVAIL
| ERROR_NETWORK_ADDRESS_NOT_AVAIL
| UnknownNetworkError.

(** What the compiled module's [default || module] is and does. *)
Inductive UserResult : Type :=
| FnThrows
| FnReturns (userCfg : JSValue).

Inductive ConfigFn : Type :=
| NotAFunction
| Function (result : UserResult).

Inductive Loaded : Type :=
| ImportThrows
| Imported (quasarConfigFn : ConfigFn).

(** A registered [extendQuasarConf] hook: it mutates the configuration in
    place, or throws ([None]). *)
Record Hook : Type := {
  extId : string;
  hook_fn : Fields -> option Fields
}.

(** What the outside world answers during one compilation cycle. *)
Record World : Type := {
  compile_errors : bool;
  loaded : Loaded;
  extendQuasarConf_hooks : list Hook;
  animations_module : JSValue;
  findClosestOpenPort : JSValue -> JSValue -> ProbeResult;
  getExternalIP : JSValue;
  appFilesValidations : JSValue -> bool;
  resolveExtension : string -> JSValue;
  getCertificate : JSValue;
  readFileSync : string -> option JSValue;
  existsSync : string -> bool;
  readFileEnv : Fields -> JSValue * list string * bool;
  electron_getDefaultName : JSValue
}.

Inductive ErrorKind : Type :=
| CompileError
| LoadError
| ShapeError
| PluginError
| NetworkError
| ValidationError.

Inductive Effect : Type :=
| ELog (msg : string)
| EWarn (msg : string)
| ETip (msg : string)
| EFatal (msg : string)
| EConsole
| ERemoveTemp
| EProcessExit
| EUpdateAppPackageJson
| EProbe (port host : JSValue)
| EExternalIP
| EAddPwaMode
| EEnsureElectronArgv (bundler : JSValue)
| EEnsureInstall (bundler : JSValue)
| EFirstBuildIsDone (quasarConf : JSValue)
| EWatchCallback (quasarConf : JSValue).

(** [this.#address] *)
Record Address : Type := {
  from_host : JSValue;
  from_port : JSValue;
  to_host : JSValue;
  to_port : JSValue
}.

(** Everything a cycle can change: the private fields of the instance, the
    [isFirst] variable of the watcher plugin, [ctx.mode.pwa], the two
    module-level variables of the address negotiation, whether the
    temporary file is on disk, and the effects so far, oldest first. *)
Record Session : Type := {
  isWatching : bool;
  isFirst : bool;
  address : option Address;
  vueDevtools : option (JSValue * JSValue);
  electronInspectPort : option JSValue;
  ctx_mode_pwa : bool;
  cachedExternalHost : JSValue;
  addressRunning : bool;
  tempFile_exists : bool;
  trace : list Effect
}.

Definition set_isWatching (b : bool) (s : Session) : Session :=
  {| isWatching := b; isFirst := isFirst s; address := address s;
     vueDevtools := vueDevtools s; electronInspectPort := electronInspectPort s;
     ctx_mode_pwa := ctx_mode_pwa s; cachedExternalHost := cachedExternalHost s;
     addressRunning := addressRunning s; tempFile_exists := tempFile_exists s;
     trace := trace s |}.

Definition set_isFirst (b : bool) (s : Session) : Session :=
  {| isWatching := isWatching s; isFirst := b; address := address s;
     vueDevtools := vueDevtools s; electronInspectPort := electronInspectPort s;
     ctx_mode_pwa := ctx_mode_pwa s; cachedExternalHost := cachedExternalHost s;
     addressRunning := addressRunning s; tempFile_exists := tempFile_exists s;
     trace := trace s |}.

Definition set_address (a : option Address) (s : Session) : Session :=
  {| isWatching := isWatching s; isFirst := isFirst s; address := a;
     vueDevtools := vueDevtools s; electronInspectPort := electronInspectPort s;
     ctx_mode_pwa := ctx_mode_pwa s; cachedExternalHost := cachedExternalHost s;
     addressRunning := addressRunning s; tempFile_exists := tempFile_exists s;
     trace := trace s |}.

Definition set_vueDevtools (v : option (JSValue * JSValue)) (s : Session) : Session :=
  {| isWatching := isWatching s; isFirst := isFirst s; address := address s;
     vueDevtools := v; electronInspectPort := electronInspectPort s;
     ctx_mode_pwa := ctx_mode_pwa s; cachedExternalHost := cachedExternalHost s;
     addressRunning := addressRunning s; tempFile_exists := tempFile_exists s;
     trace := trace s |}.

Definition set_electronInspectPort (v : option JSValue) (s : Session) : Session :=
  {| isWatching := isWatching s; isFirst := isFirst s; address := address s;
     vueDevtools := vueDevtools s; electronInspectPort := v;
     ctx_mode_pwa := ctx_mode_pwa s; cachedExternalHost := cachedExternalHost s;
     addressRunning := addressRunning s; tempFile_exists := tempFile_exists s;
     trace := trace s |}.

Definition set_ctx_mode_pwa (b : bool) (s : Session) : Session :=
  {| isWatching := isWatching s; isFirst := isFirst s; address := address s;
     vueDevtools := vueDevtools s; electronInspectPort := electronInspectPort s;
     ctx_mode_pwa := b; cachedExternalHost := cachedExternalHost s;
     addressRunning := addressRunning s; tempFile_exists := tempFile_exists s;
     trace := trace s |}.

Definition set_cachedExternalHost (v : JSValue) (s : Session) : Session :=
  {| isWatching := isWatching s; isFirst := isFirst s; address := address s;
     vueDevtools := vueDevtools s; electronInspectPort := electronInspectPort s;
     ctx_mode_pwa := ctx_mode_pwa s; cachedExternalHost := v;
     addressRunning := addressRunning s; tempFile_exists := tempFile_exists s;
     trace := trace s |}.

Definition set_addressRunning (b : bool) (s : Session) : Session :=
  {| isWatching := isWatching s; isFirst := isFirst s; address := address s;
     vueDevtools := vueDevtools s; electronInspectPort := electronInspectPort s;
     ctx_mode_pwa := ctx_mode_pwa s; cachedExternalHost := cachedExternalHost s;
     addressRunning := b; tempFile_exists := tempFile_exists s;
     trace := trace s |}.

Definition set_tempFile_exists (b : bool) (s : Session) : Session :=
  {| isWatching := isWatching s; isFirst := isFirst s; address := address s;
     vueDevtools := vueDevtools s; electronInspectPort := electronInspectPort s;
     ctx_mode_pwa := ctx_mode_pwa s; cachedExternalHost := cachedExternalHost s;
     addressRunning := addressRunning s; tempFile_exists := b;
     trace := trace s |}.

Definition add_effect (e : Effect) (s : Session) : Session :=
  {| isWatching := isWatching s; isFirst := isFirst s; address := address s;
     vueDevtools := vueDevtools s; electronInspectPort := electronInspectPort s;
     ctx_mode_pwa := ctx_mode_pwa s; cachedExternalHost := cachedExternalHost s;
     addressRunning := addressRunning s; tempFile_exists := tempFile_exists s;
     trace := (trace s ++ [e])%list |}.

(** *** The monad of a cycle

    A computation ends by producing a value, by the early [return] of
    [undefined] after a warning ([Bail]), by terminating the process
    ([Exit]), or by an exception nothing catches ([Throw]).  The state at
    that point is kept in every case. *)
Inductive Outcome (A : Type) : Type :=
| Ret (a : A)
| Bail (k : ErrorKind)
| Exit (k : ErrorKind)
| Throw.

Arguments Ret {A} a.
Arguments Bail {A} k.
Arguments Exit {A} k.
Arguments Throw {A}.

Definition M (A : Type) : Type := Session -> Outcome A * Session.

Definition ret {A : Type} (a : A) : M A := fun s => (Ret a, s).

Definition bind {A B : Type} (m : M A) (f : A -> M B) : M B :=
  fun s =>
    match m s with
    | (Ret a, s') => f a s'
    | (Bail k, s') => (Bail k, s')
    | (Exit k, s') => (Exit k, s')
    | (Throw, s') => (Throw, s')
    end.

Declare Scope cycle_scope.
Delimit Scope cycle_scope with cycle.
Notation "x <- m ;; k" := (bind m (fun x => k))
  (at level 61, m at next level, right associativity) : cycle_scope.
Notation "m ;; k" := (bind m (fun _ => k))
  (at level 61, right associativity) : cycle_scope.
Local Open Scope cycle_scope.

Definition throw {A : Type} : M A := fun s => (Throw, s).
Definition bail {A : Type} (k : ErrorKind) : M A := fun s => (Bail k, s).
Definition exit {A : Type} (k : ErrorKind) : M A := fun s => (Exit k, s).

Definition emit (e : Effect) : M unit := fun s => (Ret tt, add_effect e s).
Definition gets {A : Type} (f : Session -> A) : M A := fun s => (Ret (f s), s).
Definition modify (f : Session -> Session) : M unit := fun s => (Ret tt, f s).

(** A step that throws a TypeError when it has no value. *)
Definition try_value {A : Type} (o : option A) : M A :=
  match o with Some a => ret a | None => throw end.

Definition when (b : bool) (m : M unit) : M unit := if b then m else ret tt.

(** Modelled from the spec: [fatal] of utils/logger.js, which is not under
    src/, prints its message and terminates the process (sections 4.2 and
    7: a first-build error is fatal, the process terminates).  The source
    relies on it: nothing after a call of [fatal] is meant to run. *)
Definition fatal {A : Type} (k : ErrorKind) (msg : string) : M A :=
  emit (EFatal msg) ;; exit k.

Definition warn (msg : string) : M unit := emit (EWarn msg).
Definition log (msg : string) : M unit := emit (ELog msg).
Definition tip (msg : string) : M unit := emit (ETip msg).

(** [fse.removeSync(this.#tempFile)] *)
Definition removeTempFile : M unit :=
  emit ERemoveTemp ;; modify (set_tempFile_exists false).

(** The pattern at every failure site of [#computeConfig]:
    [if (failOnError === true) { fatal(msg, 'FAIL') }  warn(msg + more); return] *)
Definition fail {A : Type} (failOnError : bool) (k : ErrorKind) (msg more : string) : M A :=
  if failOnError then fatal k msg
  else warn (msg ++ more) ;; bail k.

(* ===================================================================== *)
(** ** Conversions the source relies on *)
(* ===================================================================== *)

Definition lower_ascii (c : ascii) : ascii :=
  let n := nat_of_ascii c in
  if (65 <=? n)%nat && (n <=? 90)%nat then ascii_of_nat (n + 32) else c.

Fixpoint toLowerCase (s : string) : string :=
  match s with
  | EmptyString => EmptyString
  | String c r => String (lower_ascii c) (toLowerCase r)
  end.

Definition Z_to_string (n : Z) : string :=
  NilEmpty.string_of_int (Z.to_int n).

Fixpoint join_strings (sep : string) (l : list string) : string :=
  match l with
  | [] => EmptyString
  | [x] => x
  | x :: r => x ++ sep ++ join_strings sep r
  end.

Section Text.

Variable host : Host.

(** ToString. *)
Fixpoint to_text (v : JSValue) : string :=
  match v with
  | JUndefined => "undefined"
  | JNull => "null"
  | JBool true => "true"
  | JBool false => "false"
  | JNum n => Z_to_string n
  | JNaN => "NaN"
  | JStr s => s
  | JArr l =>
      join_strings ","
        (map (fun x => if is_nullish x then EmptyString else to_text x) l)
  | JObj _ => "[object Object]"
  | JRegExp src => "/" ++ src ++ "/"
  | JFrac _ _ | JFun _ | JHost _ => render host v
  end.

(** [l.join(sep)] *)
Definition array_join (sep : string) (l : list JSValue) : string :=
  join_strings sep (map (fun x => if is_nullish x then EmptyString else to_text x) l).

(** [new RegExp(source)]; an invalid source is a SyntaxError. *)
Definition new_RegExp (source : string) : option JSValue :=
  if regexp_valid host source then Some (JRegExp source) else None.

End Text.

(** The value [JSON.stringify] keeps of a nested value: [undefined] for
    what it drops.  Host objects have no modelled properties. *)
Fixpoint json_value (v : JSValue) : JSValue :=
  match v with
  | JUndefined | JFun _ => JUndefined
  | JNaN => JNull
  | JRegExp _ | JHost _ => JObj []
  | JArr l =>
      JArr (map (fun x => let y := json_value x in
                          if is_undefined y then JNull else y) l)
  | JObj fs =>
      JObj (filter (fun kv => negb (is_undefined (snd kv)))
              (map (fun kv => (fst kv, json_value (snd kv))) fs))
  | _ => v
  end.

(** [clone (obj)], that is [JSON.parse(JSON.stringify(obj))]; parsing the
    [undefined] that [stringify] returns for [undefined] or a function is
    a SyntaxError. *)
Definition clone (obj : JSValue) : option JSValue :=
  let v := json_value obj in
  if is_undefined v then None else Some v.

Fixpoint remove_chars (p : ascii -> bool) (s : string) : string :=
  match s with
  | EmptyString => EmptyString
  | String c r => if p c then remove_chars p r else String c (remove_chars p r)
  end.

(** [escapeHTMLTagContent (str)] and [escapeHTMLAttribute (str)]; a truthy
    value that is not a string has no [replace]. *)
Definition escapeHTMLTagContent (str : JSValue) : option JSValue :=
  if truthy str then
    match str with
    | JStr x => Some (JStr (remove_chars (fun c => Ascii.eqb c "<" || Ascii.eqb c ">") x))
    | _ => None
    end
  else Some (JStr EmptyString).

Definition escapeHTMLAttribute (str : JSValue) : option JSValue :=
  if truthy str then
    match str with
    | JStr x => Some (JStr (remove_chars (fun c => Ascii.eqb c (ascii_of_nat 34)) x))
    | _ => None
    end
  else Some (JStr EmptyString).

(** [const quasarComponentRE = /^(Q[A-Z]|q-)/] *)
Definition quasarComponentRE : Regex :=
  RGroup 1 (RAlt (RSeq (rchar "Q")
                       (RClass (fun c => (65 <=? nat_of_ascii c)%nat
                                         && (nat_of_ascii c <=? 90)%nat)))
                 (RSeq (rchar "q") (rchar "-"))).

(** [const defaultPortMapping = { spa: 9000, ... }] *)
Definition defaultPortMapping : list (string * Z) :=
  [ ("spa", 9000); ("ssr", 9100); ("pwa", 9200);
    ("electron", 9300); ("cordova", 9400); ("capacitor", 9500) ]%Z.

Fixpoint table_lookup (k : string) (t : list (string * Z)) : option Z :=
  match t with
  | [] => None
  | (k', v) :: r => if k' =? k then Some v else table_lookup k r
  end.

(** [value > 0] on numbers and booleans; other operands are outside the
    cases the source meets ([length] of an array or a string). *)
Definition gt_zero (v : JSValue) : bool :=
  match v with
  | JNum n => (0 <? n)%Z
  | JFrac n d => (0 <? n * d)%Z
  | JBool b => b
  | _ => false
  end.

(** [v.length > 0] *)
Definition length_gt_0 (v : JSValue) : option bool :=
  option_map gt_zero (prop v "length").

Fixpoint chars_of (s : string) : list JSValue :=
  match s with
  | EmptyString => []
  | String c r => JStr (String c EmptyString) :: chars_of r
  end.

(** [getUniqueArray] on an arbitrary value: [new Set(v)] wants an
    iterable, [undefined] or [null]. *)
Definition getUniqueArray_of (v : JSValue) : option JSValue :=
  match v with
  | JArr l => Some (JArr (getUniqueArray l))
  | JStr x => Some (JArr (getUniqueArray (chars_of x)))
  | JUndefined | JNull => Some (JArr [])
  | _ => None
  end.

Definition strs (l : list string) : JSValue := JArr (map JStr l).

Definition dquote : string := String (ascii_of_nat 34) EmptyString.

(* ===================================================================== *)
(** ** Address negotiation *)
(* ===================================================================== *)

Section Derivation.

Variable host : Host.
Variable ctx : Ctx.
Variable opts : Opts.
Variable w : World.

Definition getp (v : JSValue) (k : string) : M JSValue := try_value (prop v k).
Definition putp (v : JSValue) (k : string) (x : JSValue) : M JSValue :=
  try_value (put v k x).

(** Lines 120-132 of [onAddress]: for a build that runs on a separate
    device, a loopback or any-interface host becomes the machine's
    external address, asked for once per process. *)
Definition external_host (h : JSValue) (mode : string) : M JSValue :=
  if (mode =? "cordova") || (mode =? "capacitor") then
    is_local <- (if negb (truthy h) then ret true
                 else match h with
                      | JStr x =>
                          ret (existsb (String.eqb (toLowerCase x))
                                 (localHostList host))
                      | _ => throw
                      end) ;;
    if is_local : bool then
      cached <- gets cachedExternalHost ;;
      if truthy cached then ret cached
      else
        emit EExternalIP ;;
        modify (set_cachedExternalHost (getExternalIP w)) ;;
        ret (getExternalIP w)
    else ret h
  else ret h.

(** [onAddress ({ host, port }, mode)]: [None] is its [null]. *)
Definition onAddress (h p : JSValue) (mode : string)
  : M (option (JSValue * JSValue)) :=
  h <- external_host h mode ;;
  emit (EProbe p h) ;;
  match findClosestOpenPort w p h with
  | OpenPort openPort =>
      when (negb (strict_equals p openPort))
        (warn EmptyString ;;
         warn ("Setting port to closest one available: " ++ to_text host openPort) ;;
         warn EmptyString) ;;
      modify (set_addressRunning true) ;;
      ret (Some (h, openPort))
  | e =>
      warn EmptyString ;;
      match e with
      | ERROR_NETWORK_PORT_NOT_AVAIL =>
          warn "Could not find an open port. Please configure a lower one to start searching with."
      | ERROR_NETWORK_ADDRESS_NOT_AVAIL =>
          warn "Invalid host specified. No network address matches. Please specify another one."
      | _ => warn "Unknown network error occurred" ;; emit EConsole
      end ;;
      warn EmptyString ;;
      running <- gets addressRunning ;;
      if negb running then emit EProcessExit ;; exit NetworkError
      else ret None
  end.

(* =================================================================== *)
(** ** The derivation passes of [#computeConfig] *)
(* =================================================================== *)

(** The first argument of the first [merge]: the default skeleton. *)
Definition skeleton : JSValue :=
  JObj [
    ("ctx", JHost "ctx");
    ("boot", JArr []);
    ("css", JArr []);
    ("extras", JArr []);
    ("animations", JArr []);
    ("framework", JObj [ ("components", JArr []); ("directives", JArr []);
                         ("plugins", JArr []); ("config", JObj []) ]);
    ("vendor", JObj [ ("add", JArr []); ("remove", JArr []) ]);
    ("eslint", JObj [ ("include", JArr []); ("exclude", JArr []);
                      ("rawWebpackEslintPluginOptions", JObj []);
                      ("rawEsbuildEslintOptions", JObj []) ]);
    ("sourceFiles", JObj []);
    ("bin", JObj []);
    ("htmlVariables", JObj []);
    ("devServer", JObj [ ("server", JObj []) ]);
    ("build", JObj [
       ("esbuildTarget", JObj []);
       ("vueLoaderOptions", JObj [ ("transformAssetUrls", JObj []) ]);
       ("sassLoaderOptions", JObj []);
       ("scssLoaderOptions", JObj []);
       ("stylusLoaderOptions", JObj []);
       ("lessLoaderOptions", JObj []);
       ("tsLoaderOptions", JObj []);
       ("env", JObj []);
       ("rawDefine", JObj []);
       ("envFiles", JArr []);
       ("webpackTranspileDependencies", JArr []);
       ("uglifyOptions", JObj [ ("compress", JObj []); ("mangle", JObj []) ]);
       ("htmlMinifyOptions", JObj []) ]);
    ("ssr", JObj [ ("middlewares", JArr []) ]);
    ("pwa", JObj []);
    ("electron", JObj [ ("preloadScripts", JArr []);
                        ("unPackagedInstallParams", JArr []);
                        ("packager", JObj []); ("builder", JObj []) ]);
    ("cordova", JObj []);
    ("capacitor", JObj [ ("capacitorCliPreparationParams", JArr []) ]);
    ("bex", JObj [ ("contentScripts", JArr []) ])
  ].

(** [const metaConf = { ... }] *)
Definition metaConf0 : JSValue :=
  JObj [
    ("debugging", JBool (ctx_dev ctx || ctx_debug ctx));
    ("needsAppMountHook", JBool false);
    ("vueDevtools", JBool false);
    ("versions", JObj (versions ctx));
    ("css", JObj (cssVariables ctx))
  ].

(** [runAppExtensionHook('extendQuasarConf', ...)] inside its [try]: the
    hooks run in registration order on the configuration; the first one
    that throws ends the run ([None]). *)
Fixpoint run_hooks (hooks : list Hook) (raw : Fields) : M (option Fields) :=
  match hooks with
  | [] => ret (Some raw)
  | h :: r =>
      log ("Extension(" ++ extId h ++ "): Extending quasar.config file configuration...") ;;
      match hook_fn h raw with
      | Some raw' => run_hooks r raw'
      | None => ret None
      end
  end.

(** Lines 466-574: merge over the skeleton, [animations === 'all'], the
    extension hooks, and [cfg = { ...rawQuasarConf, metaConf }]. *)
Definition pass_merge (failOnError : bool) (userCfg : JSValue) : M Fields :=
  rawQuasarConf <- try_value (merge skeleton [userCfg]) ;;
  raw <- try_value (entries rawQuasarConf) ;;
  let raw :=
    if strict_equals (field "animations" raw) (JStr "all")
    then assign "animations" (animations_module w) raw else raw in
  r <- run_hooks (extendQuasarConf_hooks w) raw ;;
  match r with
  | None =>
      emit EConsole ;;
      fail failOnError PluginError
        "One of your installed App Extensions failed to run" ".\n"
  | Some raw => ret (assign "metaConf" metaConf0 raw)
  end.

(** Lines 577-585. *)
Definition pass_ssr_defaults (cfg : Fields) : M Fields :=
  if ctx_mode_ssr ctx then
    ssr <- try_value
             (merge (JObj [ ("pwa", JBool false);
                            ("pwaOfflineHtmlFilename", JStr "offline.html");
                            ("manualStoreHydration", JBool false);
                            ("manualPostHydrationTrigger", JBool false);
                            ("prodPort", JNum 3000) ])
                    [field "ssr" cfg]) ;;
    ret (assign "ssr" ssr cfg)
  else ret cfg.

(** [this.#address && this.#address.from.host === host
      && this.#address.from.port === port] *)
Definition cached_address (s : Session) (h p : JSValue) : option Address :=
  match address s with
  | Some a =>
      if strict_equals (from_host a) h && strict_equals (from_port a) p
      then Some a else None
  | None => None
  end.

(** Lines 589-610: the requested host and port, from the command line,
    the configuration, or the defaults. *)
Definition devServer_host_port (cfg : Fields) : M JSValue :=
  let devServer := field "devServer" cfg in
  devServer <-
    (if truthy (opt_host opts) then putp devServer "host" (opt_host opts)
     else
       h <- getp devServer "host" ;;
       if negb (truthy h) then putp devServer "host" (JStr "0.0.0.0")
       else ret devServer) ;;
  if truthy (opt_port opts) then
    d <- putp devServer "port" (opt_port opts) ;;
    tip "You are using the --port parameter. It is recommended to use a different devServer port for each Quasar mode to avoid browser cache issues" ;;
    ret d
  else
    p <- getp devServer "port" ;;
    if negb (truthy p) then
      ssr_pwa <- (if ctx_mode_ssr ctx then
                    x <- getp (field "ssr" cfg) "pwa" ;;
                    ret (strict_equals x (JBool true))
                  else ret false) ;;
      putp devServer "port"
        (match table_lookup (ctx_modeName ctx) defaultPortMapping with
         | Some n => JNum (n + (if ssr_pwa : bool then 50 else 0))
         | None => JNaN
         end)
    else
      tip "You (or an AE) specified an explicit quasar.config file > devServer > port. It is recommended to use a different devServer > port for each Quasar mode to avoid browser cache issues. Example: ctx.mode.ssr ? 9100 : ..." ;;
      ret devServer.

(** Lines 612-649: the cached binding when the same pair is requested
    again, a negotiation otherwise. *)
Definition negotiate_address (failOnError : bool) (cfg : Fields) (devServer : JSValue)
  : M Fields :=
  h <- getp devServer "host" ;;
  p <- getp devServer "port" ;;
  cached <- gets (fun s => cached_address s h p) ;;
  match cached with
  | Some a =>
      devServer <- putp devServer "host" (to_host a) ;;
      devServer <- putp devServer "port" (to_port a) ;;
      ret (assign "devServer" devServer cfg)
  | None =>
      to <- (if opt_verifyAddress opts then onAddress h p (ctx_modeName ctx)
             else ret (Some (h, p))) ;;
      match to with
      | None =>
          fail failOnError NetworkError
            "Network error encountered while following the quasar.config file host/port config."
            " Reconfigure and save the file again.\n"
      | Some (to_h, to_p) =>
          devServer <- try_value
                         (merge (JObj [ ("open", JBool true) ])
                                [ devServer;
                                  JObj [ ("host", to_h); ("port", to_p) ] ]) ;;
          h' <- getp devServer "host" ;;
          p' <- getp devServer "port" ;;
          modify (set_address
                    (Some {| from_host := h; from_port := p;
                             to_host := h'; to_port := p' |})) ;;
          ret (assign "devServer" devServer cfg)
      end
  end.

(** Lines 588-650. *)
Definition pass_devServer_address (failOnError : bool) (cfg : Fields) : M Fields :=
  if ctx_dev ctx && negb (ctx_mode_bex ctx) then
    devServer <- devServer_host_port cfg ;;
    negotiate_address failOnError cfg devServer
  else ret cfg.

(** [list.filter(_ => _).map(...).filter(...).filter(uniquePathFilter)]
    on a value: only an array has [filter]. *)
Definition asset_chain (prefix : string) (v : JSValue) : M JSValue :=
  match v with
  | JArr l => l' <- try_value (normalize_assets prefix l) ;; ret (JArr l')
  | _ => throw
  end.

(** [if (cfg.k.length > 0) { cfg.k = f(cfg.k) }] *)
Definition update_if_nonempty (k : string) (f : JSValue -> M JSValue)
           (cfg : Fields) : M Fields :=
  b <- try_value (length_gt_0 (field k cfg)) ;;
  if b : bool then v <- f (field k cfg) ;; ret (assign k v cfg) else ret cfg.

(** Lines 652-672. *)
Definition pass_asset_lists (cfg : Fields) : M Fields :=
  cfg <- update_if_nonempty "css" (asset_chain "src/css") cfg ;;
  cfg <- update_if_nonempty "boot" (asset_chain "boot") cfg ;;
  cfg <- update_if_nonempty "extras" (fun v => try_value (getUniqueArray_of v)) cfg ;;
  update_if_nonempty "animations" (fun v => try_value (getUniqueArray_of v)) cfg.

(** [if (config.x) { const { spinner } = config.x;
      if (quasarComponentRE.test(spinner)) cfg.framework.components.push(spinner) }] *)
Definition push_spinner (x framework : JSValue) : M JSValue :=
  if truthy x then
    spinner <- getp x "spinner" ;;
    if regex_test quasarComponentRE (to_text host spinner) then
      components <- getp framework "components" ;;
      match components with
      | JArr l => putp framework "components" (JArr (l ++ [spinner])%list)
      | _ => throw
      end
    else ret framework
  else ret framework.

Definition unique_prop (k : string) (o : JSValue) : M JSValue :=
  v <- getp o k ;;
  u <- try_value (getUniqueArray_of v) ;;
  putp o k u.

(** [Object.assign(target, { ... })], of which the source only uses the
    effect on [target]: [undefined] and [null] throw, a primitive is
    wrapped and the wrapper dropped. *)
Definition object_assign (target : JSValue) (source : Fields) : M JSValue :=
  match target with
  | JObj fs => ret (JObj (assign_all fs source))
  | JBool _ | JNum _ | JNaN | JFrac _ _ | JStr _ => ret target
  | _ => throw
  end.

(** [v.includes(x)] for an array [v]. *)
Definition array_includes (v x : JSValue) : M bool :=
  match v with
  | JArr l => ret (includes l x)
  | _ => throw
  end.

(** Lines 674-702. *)
Definition pass_framework (cfg : Fields) : M Fields :=
  let framework := field "framework" cfg in
  c <- getp framework "autoImportComponentCase" ;;
  framework <-
    (if negb (includes [JStr "kebab"; JStr "pascal"; JStr "combined"] c)
     then putp framework "autoImportComponentCase" (JStr "kebab")
     else ret framework) ;;
  config <- getp framework "config" ;;
  loading <- getp config "loading" ;;
  framework <- push_spinner loading framework ;;
  notify <- getp config "notify" ;;
  framework <- push_spinner notify framework ;;
  framework <- unique_prop "components" framework ;;
  framework <- unique_prop "directives" framework ;;
  framework <- unique_prop "plugins" framework ;;
  let cfg := assign "framework" framework cfg in
  plugins <- getp framework "plugins" ;;
  hasLoadingBar <- array_includes plugins (JStr "LoadingBar") ;;
  hasMeta <- array_includes plugins (JStr "Meta") ;;
  metaConf <- object_assign (field "metaConf" cfg)
                [ ("hasLoadingBarPlugin", JBool hasLoadingBar);
                  ("hasMetaPlugin", JBool hasMeta) ] ;;
  ret (assign "metaConf" metaConf cfg).

(** Lines 704-714. *)
Definition pass_eslint (cfg : Fields) : M Fields :=
  eslint <- try_value
              (merge (JObj [ ("warnings", JBool false);
                             ("errors", JBool false);
                             ("fix", JBool false);
                             ("formatter", JStr "stylish");
                             ("cache", JBool true);
                             ("include", JArr []);
                             ("exclude", JArr []);
                             ("rawWebpackEslintPluginOptions", JObj []);
                             ("rawEsbuildEslintOptions", JObj []) ])
                     [field "eslint" cfg]) ;;
  ret (assign "eslint" eslint cfg).

Definition uglify_compress : JSValue :=
  JObj [ ("arrows", JBool false); ("collapse_vars", JBool false);
         ("comparisons", JBool false); ("computed_props", JBool false);
         ("hoist_funs", JBool false); ("hoist_props", JBool false);
         ("hoist_vars", JBool false); ("inline", JBool false);
         ("loops", JBool false); ("negate_iife", JBool false);
         ("properties", JBool false); ("reduce_funcs", JBool false);
         ("reduce_vars", JBool false); ("switches", JBool false);
         ("toplevel", JBool false); ("typeofs", JBool false);
         ("booleans", JBool true); ("if_return", JBool true);
         ("sequences", JBool true); ("unused", JBool true);
         ("conditionals", JBool true); ("dead_code", JBool true);
         ("evaluate", JBool true) ].

(** Lines 716-815. *)
Definition pass_build (cfg : Fields) : M Fields :=
  tau <- try_value (clone (transformAssetUrls ctx)) ;;
  debugging <- getp (field "metaConf" cfg) "debugging" ;;
  minify <-
    (if negb (strict_equals debugging (JBool true)) then
       if negb (ctx_mode_bex ctx) then ret true
       else m <- getp (field "bex" cfg) "minify" ;;
            ret (strict_equals m (JBool true))
     else ret false) ;;
  vueOptionsAPI <- getp (field "build" cfg) "vueOptionsAPI" ;;
  build <- try_value
    (merge
       (JObj [
          ("vueLoaderOptions", JObj [ ("transformAssetUrls", tau) ]);
          ("vueOptionsAPI", JBool true);
          ("vueRouterMode", JStr "hash");
          ("minify", JBool minify);
          ("sourcemap", JBool (strict_equals debugging (JBool true)));
          ("extractCSS", JBool (ctx_prod ctx || ctx_mode_ssr ctx));
          ("distDir", JStr (path_join host "dist" (ctx_modeName ctx)));
          ("webpackTranspile", JBool true);
          ("htmlFilename", JStr "index.html");
          ("webpackShowProgress", JBool true);
          ("webpackDevtool",
           JStr (if ctx_dev ctx then "eval-cheap-module-source-map" else "source-map"));
          ("uglifyOptions", JObj [ ("compress", uglify_compress);
                                   ("mangle", JObj [ ("safari10", JBool true) ]) ]);
          ("htmlMinifyOptions",
           JObj [ ("removeComments", JBool true);
                  ("collapseWhitespace", JBool true);
                  ("removeAttributeQuotes", JBool true);
                  ("collapseBooleanAttributes", JBool true);
                  ("removeScriptTypeAttributes", JBool true) ]);
          ("rawDefine",
           JObj [ ("__QUASAR_VERSION__", JSON_stringify host (quasarPkg_version ctx));
                  ("__QUASAR_SSR__", JBool (ctx_mode_ssr ctx));
                  ("__QUASAR_SSR_SERVER__", JBool false);
                  ("__QUASAR_SSR_CLIENT__", JBool false);
                  ("__QUASAR_SSR_PWA__", JBool false);
                  ("__VUE_OPTIONS_API__",
                   JBool (negb (strict_equals vueOptionsAPI (JBool false))));
                  ("__VUE_PROD_DEVTOOLS__", debugging);
                  ("__VUE_I18N_FULL_INSTALL__", JBool true);
                  ("__VUE_I18N_LEGACY_API__", JBool true);
                  ("__VUE_I18N_PROD_DEVTOOLS__", debugging);
                  ("__INTLIFY_PROD_DEVTOOLS__", debugging) ]);
          ("alias",
           JObj [ ("src", JStr (appPaths_srcDir ctx));
                  ("app", JStr (appPaths_appDir ctx));
                  ("components", JStr (resolve_src ctx "components"));
                  ("layouts", JStr (resolve_src ctx "layouts"));
                  ("pages", JStr (resolve_src ctx "pages"));
                  ("assets", JStr (resolve_src ctx "assets"));
                  ("boot", JStr (resolve_src ctx "boot"));
                  ("stores", JStr (resolve_src ctx "stores")) ]) ])
       [field "build" cfg]) ;;
  ret (assign "build" build cfg).

(** [list.length > 0 ? new RegExp(list.filter(v => v).join('|')) : void 0] *)
Definition vendor_regexp (v : JSValue) : M JSValue :=
  b <- try_value (length_gt_0 v) ;;
  if b : bool then
    match v with
    | JArr l => try_value (new_RegExp host (array_join host "|" (filter truthy l)))
    | _ => throw
    end
  else ret JUndefined.

(** Lines 817-825. *)
Definition pass_vendor (cfg : Fields) : M Fields :=
  let vendor := field "vendor" cfg in
  disable <- getp vendor "disable" ;;
  if negb (strict_equals disable (JBool true)) then
    add <- getp vendor "add" ;;
    add <- vendor_regexp add ;;
    vendor <- putp vendor "add" add ;;
    remove <- getp vendor "remove" ;;
    remove <- vendor_regexp remove ;;
    vendor <- putp vendor "remove" remove ;;
    ret (assign "vendor" vendor cfg)
  else ret cfg.

(** Lines 827-841.  When [webpackTranspileDependencies === true] the
    source calls [filter] on that [true], which is a TypeError. *)
Definition pass_transpile_targets (cfg : Fields) : M Fields :=
  let build := field "build" cfg in
  deps <- getp build "webpackTranspileDependencies" ;;
  metaConf <-
    (if strict_equals deps (JBool true) then throw
     else putp (field "metaConf" cfg) "webpackTranspileBanner" (JStr (dim host "no"))) ;;
  let cfg := assign "metaConf" metaConf cfg in
  esbuildTarget <- getp build "esbuildTarget" ;;
  browser <- getp esbuildTarget "browser" ;;
  esbuildTarget <-
    (if negb (truthy browser) then
       putp esbuildTarget "browser"
         (strs ["es2019"; "edge88"; "firefox78"; "chrome87"; "safari13.1"])
     else ret esbuildTarget) ;;
  node <- getp esbuildTarget "node" ;;
  esbuildTarget <-
    (if negb (truthy node) then putp esbuildTarget "node" (JStr "node16")
     else ret esbuildTarget) ;;
  build <- putp build "esbuildTarget" esbuildTarget ;;
  ret (assign "build" build cfg).

(** An argument of [node:path] functions must be a string. *)
Definition as_path (v : JSValue) : M string :=
  match v with
  | JStr x => ret x
  | _ => throw
  end.

(** Lines 843-870. *)
Definition pass_router_mode_distDir (cfg : Fields) : M Fields :=
  let build := field "build" cfg in
  build <-
    (if ctx_mode_ssr ctx then putp build "vueRouterMode" (JStr "history")
     else if ctx_mode_cordova ctx || ctx_mode_capacitor ctx
             || ctx_mode_electron ctx || ctx_mode_bex ctx then
       object_assign build [ ("htmlFilename", JStr "index.html");
                             ("vueRouterMode", JStr "hash");
                             ("gzip", JBool false) ]
     else ret build) ;;
  build <-
    (if ctx_dev ctx && ctx_mode_bex ctx then
       distDir <- getp build "distDir" ;;
       distDir <- as_path distDir ;;
       let name := path_basename host distDir in
       putp build "distDir"
         (JStr (path_join host (path_dirname host distDir)
                  (if name =? "bex" then "bex--dev" else "bex-dev--" ++ name)))
     else ret build) ;;
  distDir <- getp build "distDir" ;;
  distDir <- as_path distDir ;;
  build <-
    (if negb (path_isAbsolute host distDir)
     then putp build "distDir" (JStr (resolve_app ctx distDir))
     else ret build) ;;
  ret (assign "build" build cfg).

(** [formatPublicPath] on a truthy value: only a string has [endsWith]. *)
Definition formatPublicPath_of (v : JSValue) : M JSValue :=
  match v with
  | JStr x => ret (JStr (formatPublicPath x))
  | _ => throw
  end.

(** Lines 872-880. *)
Definition pass_publicPath (cfg : Fields) : M Fields :=
  let build := field "build" cfg in
  publicPath <- getp build "publicPath" ;;
  publicPath <-
    (if truthy publicPath
        && existsb (String.eqb (ctx_modeName ctx)) ["spa"; "pwa"; "ssr"]
     then
       match publicPath with
       | JStr x => ret (formatPublicPath x)
       | _ => throw
       end
     else if existsb (String.eqb (ctx_modeName ctx))
               ["capacitor"; "cordova"; "electron"; "bex"]
     then ret EmptyString
     else ret "/") ;;
  build <- putp build "publicPath" (JStr publicPath) ;;
  vueRouterBase <- getp build "vueRouterBase" ;;
  vueRouterBase <-
    (if negb (is_undefined vueRouterBase) then ret vueRouterBase
     else b <- try_value (formatRouterBase publicPath) ;; ret (JStr b)) ;;
  build <- putp build "vueRouterBase" vueRouterBase ;;
  ret (assign "build" build cfg).

(** Lines 884-917. *)
Definition pass_sourceFiles (failOnError : bool) (cfg : Fields) : M Fields :=
  sourceFiles <- try_value
    (merge
       (JObj [ ("rootComponent", JStr "src/App.vue");
               ("router", JStr "src/router/index");
               ("store", JStr ("src/" ++ storeProvider_pathKey ctx ++ "/index"));
               ("indexHtmlTemplate", JStr "index.html");
               ("pwaRegisterServiceWorker", JStr "src-pwa/register-service-worker");
               ("pwaServiceWorker", JStr "src-pwa/custom-service-worker");
               ("pwaManifestFile", JStr "src-pwa/manifest.json");
               ("electronMain", JStr "src-electron/electron-main");
               ("bexManifestFile", JStr "src-bex/manifest.json") ])
       [field "sourceFiles" cfg]) ;;
  let cfg := assign "sourceFiles" sourceFiles cfg in
  if negb (appFilesValidations w sourceFiles) then
    fail failOnError ValidationError
      "Files validation not passed successfully" ". Please fix the issues.\n"
  else
    store <- getp sourceFiles "store" ;;
    store <- as_path store ;;
    let storePath := resolve_app ctx store in
    metaConf <- object_assign (field "metaConf" cfg)
                  [ ("hasStore",
                     JBool (negb (is_undefined (resolveExtension w storePath))));
                    ("storePackage", storeProvider_name ctx) ] ;;
    let cfg := assign "metaConf" metaConf cfg in
    let preFetch := field "preFetch" cfg in
    let cfg := assign "preFetch"
                 (if truthy preFetch then preFetch else JBool false) cfg in
    let capacitor := field "capacitor" cfg in
    params <- getp capacitor "capacitorCliPreparationParams" ;;
    len <- getp params "length" ;;
    if ctx_mode_capacitor ctx && strict_equals len (JNum 0) then
      capacitor <- putp capacitor "capacitorCliPreparationParams"
                     (JArr [ JStr "sync"; ctx_targetName ctx ]) ;;
      ret (assign "capacitor" capacitor cfg)
    else ret cfg.

(** [[ 'ca', 'pfx', 'key', 'cert' ].forEach(prop => ...)] of lines 959-971:
    a string option names a file, read in place; one that cannot be read
    is removed with a warning. *)
Fixpoint read_certificates (props : list string) (options : JSValue) : M JSValue :=
  match props with
  | [] => ret options
  | k :: r =>
      v <- getp options k ;;
      options <-
        match v with
        | JStr file =>
            match readFileSync w file with
            | Some content => putp options k content
            | None =>
                emit EConsole ;;
                options <- try_value (del options k) ;;
                warn ("The devServer.server.options." ++ k
                      ++ " file could not be read. Removed the config.") ;;
                ret options
            end
        | _ => ret options
        end ;;
      read_certificates r options
  end.

(** Lines 923-973. *)
Definition pass_devServer_server (cfg : Fields) : M Fields :=
  let devServer := field "devServer" cfg in
  server <- getp devServer "server" ;;
  devServer <-
    (if is_string server then
       putp devServer "server" (JObj [ ("type", server) ])
     else
       https <- getp devServer "https" ;;
       if negb (is_undefined https) then
         devServer <- try_value (del devServer "https") ;;
         if negb (strict_equals https (JBool false)) then
           putp devServer "server"
             (JObj ([ ("type", JStr "https") ]
                    ++ (if is_object https then [ ("options", https) ] else []))%list)
         else ret devServer
       else ret devServer) ;;
  devServer <-
    (if ctx_dev ctx then
       server <- getp devServer "server" ;;
       type <- getp server "type" ;;
       if strict_equals type (JStr "https") then
         options <- getp server "options" ;;
         server <-
           (if is_undefined options then
              putp server "options"
                (JObj [ ("key", getCertificate w); ("cert", getCertificate w) ])
            else
              options <- read_certificates ["ca"; "pfx"; "key"; "cert"] options ;;
              putp server "options" options) ;;
         putp devServer "server" server
       else ret devServer
     else ret devServer) ;;
  ret (assign "devServer" devServer cfg).

Definition is_ctx (v : JSValue) : bool :=
  match v with
  | JHost n => n =? "ctx"
  | _ => false
  end.

(** Lines 975-995. *)
Definition pass_ssr (cfg : Fields) : M Fields :=
  if ctx_mode_ssr ctx then
    let ssr := field "ssr" cfg in
    trigger <- getp ssr "manualPostHydrationTrigger" ;;
    metaConf <-
      (if negb (strict_equals trigger (JBool true))
       then putp (field "metaConf" cfg) "needsAppMountHook" (JBool true)
       else ret (field "metaConf" cfg)) ;;
    let cfg := assign "metaConf" metaConf cfg in
    middlewares <- getp ssr "middlewares" ;;
    nonempty <- try_value (length_gt_0 middlewares) ;;
    ssr <-
      (if nonempty : bool then
         m <- asset_chain "app/src-ssr/middlewares" middlewares ;;
         putp ssr "middlewares" m
       else ret ssr) ;;
    let cfg := assign "ssr" ssr cfg in
    pwa <- getp ssr "pwa" ;;
    cfg <-
      (if strict_equals pwa (JBool true) then
         emit EAddPwaMode ;;
         let build := field "build" cfg in
         rawDefine <- getp build "rawDefine" ;;
         rawDefine <- putp rawDefine "__QUASAR_SSR_PWA__" (JBool true) ;;
         build <- putp build "rawDefine" rawDefine ;;
         ret (assign "build" build cfg)
       else ret cfg) ;;
    let cfg_ctx := field "ctx" cfg in
    cfg <-
      (if is_ctx cfg_ctx then ret cfg
       else
         mode <- getp cfg_ctx "mode" ;;
         mode <- putp mode "pwa" (JBool (strict_equals pwa (JBool true))) ;;
         cfg_ctx <- putp cfg_ctx "mode" mode ;;
         ret (assign "ctx" cfg_ctx cfg)) ;;
    modify (set_ctx_mode_pwa (strict_equals pwa (JBool true))) ;;
    ret cfg
  else ret cfg.

(** [a || b] *)
Definition js_or (a b : JSValue) : JSValue := if truthy a then a else b.

(** Lines 998-1068: the development server's options, over the defaults
    of the mode. *)
Definition dev_devServer (cfg : Fields) : M JSValue :=
  let devServer := field "devServer" cfg in
  let build := field "build" cfg in
  originalSetup <- getp devServer "setupMiddlewares" ;;
  devServer <-
    (if ctx_mode_bex ctx then
       devMiddleware <- getp devServer "devMiddleware" ;;
       devMiddleware <- putp (js_or devMiddleware (JObj [])) "writeToDisk" (JBool true) ;;
       putp devServer "devMiddleware" devMiddleware
     else ret devServer) ;;
  publicPath <- getp build "publicPath" ;;
  htmlFilename <- getp build "htmlFilename" ;;
  vueRouterMode <- getp build "vueRouterMode" ;;
  try_value
    (merge
       (JObj [ ("hot", JBool true);
               ("allowedHosts", JStr "all");
               ("compress", JBool true);
               ("open", JBool true);
               ("client", JObj [ ("overlay", JObj [ ("warnings", JBool false) ]) ]);
               ("server", JObj [ ("type", JStr "http") ]);
               ("devMiddleware", JObj [ ("publicPath", publicPath);
                                        ("stats", JBool false) ]) ])
       [ (if ctx_mode_ssr ctx then
            JObj [ ("devMiddleware", JObj [ ("index", JBool false) ]);
                   ("static", JObj [ ("serveIndex", JBool false) ]) ]
          else
            JObj [ ("historyApiFallback",
                    if strict_equals vueRouterMode (JStr "history")
                    then JObj [ ("index",
                                 JStr (to_text host (js_or publicPath (JStr "/"))
                                       ++ to_text host htmlFilename)) ]
                    else JBool false);
                   ("devMiddleware", JObj [ ("index", htmlFilename) ]) ]);
         devServer;
         JObj [ ("setupMiddlewares", JFun "setupMiddlewares") ] ]).

(** Lines 1070-1082. *)
Definition dev_vueDevtools (devServer : JSValue) (cfg : Fields) : M Fields :=
  devtools <- getp devServer "vueDevtools" ;;
  if ctx_vueDevtools ctx || strict_equals devtools (JBool true) then
    known <- gets vueDevtools ;;
    cached <-
      match known with
      | Some c => ret c
      | None =>
          h <- getp devServer "host" ;;
          h <- match h with
               | JStr x =>
                   ret (if existsb (String.eqb (toLowerCase x)) (localHostList host)
                        then JStr "localhost" else h)
               | _ => throw
               end ;;
          emit (EProbe (JNum 11111) (JStr "0.0.0.0")) ;;
          match findClosestOpenPort w (JNum 11111) (JStr "0.0.0.0") with
          | OpenPort port =>
              modify (set_vueDevtools (Some (h, port))) ;;
              ret (h, port)
          | _ => throw
          end
      end ;;
    metaConf <- putp (field "metaConf" cfg) "vueDevtools"
                  (JObj [ ("host", fst cached); ("port", snd cached) ]) ;;
    ret (assign "metaConf" metaConf cfg)
  else ret cfg.

(** [ctx.mode.cordova || ctx.mode.capacitor || ctx.mode.electron] *)
Definition native_mode : bool :=
  ctx_mode_cordova ctx || ctx_mode_capacitor ctx || ctx_mode_electron ctx.

(** Lines 1084-1094: the development server and the configuration
    after them. *)
Definition dev_open (devServer : JSValue) (cfg : Fields) : M (JSValue * Fields) :=
  if native_mode then
    if ctx_mode_electron ctx then
      server <- getp devServer "server" ;;
      server <- putp server "type" (JStr "http") ;;
      devServer <- putp devServer "server" server ;;
      ret (devServer, cfg)
    else ret (devServer, cfg)
  else
    open <- getp devServer "open" ;;
    if truthy open then
      metaConf <- putp (field "metaConf" cfg) "openBrowser"
                    (if negb (isMinimalTerminal host) then open else JBool false) ;;
      ret (devServer, assign "metaConf" metaConf cfg)
    else ret (devServer, cfg).

(** Lines 997-1096. *)
Definition pass_dev (cfg : Fields) : M Fields :=
  if ctx_dev ctx then
    devServer <- dev_devServer cfg ;;
    cfg <- dev_vueDevtools devServer cfg ;;
    r <- dev_open devServer cfg ;;
    devServer <- try_value (del (fst r) "open") ;;
    ret (assign "devServer" devServer (snd r))
  else ret cfg.

(** Lines 1098-1115. *)
Definition pass_gzip (cfg : Fields) : M Fields :=
  let build := field "build" cfg in
  gzip <- getp build "gzip" ;;
  if truthy gzip then
    let gzip := if strict_equals gzip (JBool true) then JObj [] else gzip in
    extensions <- getp gzip "extensions" ;;
    let ext := if truthy extensions then extensions
               else strs ["js"; "css"] in
    gzip <- (if truthy extensions then try_value (del gzip "extensions") else ret gzip) ;;
    joined <- match ext with
              | JArr l => ret (array_join host "|" l)
              | _ => throw
              end ;;
    test <- try_value (new_RegExp host ("\.(" ++ joined ++ ")$")) ;;
    gzip <- try_value
              (merge (JObj [ ("algorithm", JStr "gzip");
                             ("test", test);
                             ("threshold", JNum 10240);
                             ("minRatio", JFrac 8 10) ])
                     [gzip]) ;;
    build <- putp build "gzip" gzip ;;
    ret (assign "build" build cfg)
  else ret cfg.

(** Lines 1117-1147. *)
Definition pass_pwa_bex (failOnError : bool) (cfg : Fields) : M Fields :=
  pwa_mode <- gets ctx_mode_pwa ;;
  if pwa_mode : bool then
    pwa <- try_value
             (merge (JObj [ ("workboxMode", JStr "GenerateSW");
                            ("injectPwaMetaTags", JBool true);
                            ("swFilename", JStr "sw.js");
                            ("manifestFilename", JStr "manifest.json");
                            ("useCredentialsForManifestTag", JBool false) ])
                    [field "pwa" cfg]) ;;
    let cfg := assign "pwa" pwa cfg in
    workboxMode <- getp pwa "workboxMode" ;;
    if negb (includes [JStr "GenerateSW"; JStr "InjectManifest"] workboxMode) then
      fail failOnError ValidationError
        ("Workbox strategy " ++ dquote ++ to_text host workboxMode ++ dquote
         ++ " is invalid. Valid quasar.config file > pwa > workboxMode options are: GenerateSW or InjectManifest.")
        " Please fix it.\n"
    else
      let build := field "build" cfg in
      publicPath <- getp build "publicPath" ;;
      swFilename <- getp pwa "swFilename" ;;
      env <- getp build "env" ;;
      env <- putp env "SERVICE_WORKER_FILE"
               (JStr (to_text host publicPath ++ to_text host swFilename)) ;;
      build <- putp build "env" env ;;
      let cfg := assign "build" build cfg in
      let sourceFiles := field "sourceFiles" cfg in
      manifest <- getp sourceFiles "pwaManifestFile" ;;
      manifest <- as_path manifest ;;
      metaConf <- putp (field "metaConf" cfg) "pwaManifestFile"
                    (JStr (resolve_app ctx manifest)) ;;
      let cfg := assign "metaConf" metaConf cfg in
      sw <- getp sourceFiles "pwaServiceWorker" ;;
      swPath <- as_path sw ;;
      sourceFiles <- putp sourceFiles "pwaServiceWorker"
                       (js_or (resolveExtension w (resolve_app ctx swPath)) sw) ;;
      ret (assign "sourceFiles" sourceFiles cfg)
  else if ctx_mode_bex ctx then
    manifest <- getp (field "sourceFiles" cfg) "bexManifestFile" ;;
    manifest <- as_path manifest ;;
    metaConf <- putp (field "metaConf" cfg) "bexManifestFile"
                  (JStr (resolve_app ctx manifest)) ;;
    ret (assign "metaConf" metaConf cfg)
  else ret cfg.

(** Lines 1149-1160. *)
Definition pass_app_url (cfg : Fields) : M Fields :=
  let metaConf := field "metaConf" cfg in
  if ctx_dev ctx then
    let devServer := field "devServer" cfg in
    h <- getp devServer "host" ;;
    let hostname := if strict_equals h (JStr "0.0.0.0") then JStr "localhost" else h in
    server <- getp devServer "server" ;;
    type <- getp server "type" ;;
    port <- getp devServer "port" ;;
    publicPath <- getp (field "build" cfg) "publicPath" ;;
    metaConf <- putp metaConf "APP_URL"
                  (JStr ("http" ++ (if strict_equals type (JStr "https") then "s"
                                    else EmptyString)
                         ++ "://" ++ to_text host hostname ++ ":" ++ to_text host port
                         ++ to_text host publicPath)) ;;
    metaConf <- putp metaConf "getUrl" (JFun "getUrl") ;;
    ret (assign "metaConf" metaConf cfg)
  else if ctx_mode_cordova ctx || ctx_mode_capacitor ctx || ctx_mode_bex ctx then
    metaConf <- putp metaConf "APP_URL" (JStr "index.html") ;;
    ret (assign "metaConf" metaConf cfg)
  else ret cfg.

(** Lines 1162-1188. *)
Definition pass_env (cfg : Fields) : M Fields :=
  let build := field "build" cfg in
  env <- getp build "env" ;;
  debugging <- getp (field "metaConf" cfg) "debugging" ;;
  vueRouterMode <- getp build "vueRouterMode" ;;
  vueRouterBase <- getp build "vueRouterBase" ;;
  env <- object_assign env
           [ ("NODE_ENV", JStr (if ctx_prod ctx then "production" else "development"));
             ("CLIENT", JBool true);
             ("SERVER", JBool false);
             ("DEV", JBool (ctx_dev ctx));
             ("PROD", JBool (ctx_prod ctx));
             ("DEBUGGING", JBool (strict_equals debugging (JBool true)));
             ("MODE", JStr (ctx_modeName ctx));
             ("VUE_ROUTER_MODE", vueRouterMode);
             ("VUE_ROUTER_BASE", vueRouterBase) ] ;;
  APP_URL <- getp (field "metaConf" cfg) "APP_URL" ;;
  env <- (if truthy APP_URL then putp env "APP_URL" APP_URL else ret env) ;;
  build <- putp build "env" env ;;
  let cfg := assign "build" build cfg in
  let '(fileEnv, usedEnvFiles, envFromCache) := readFileEnv w cfg in
  metaConf <- putp (field "metaConf" cfg) "fileEnv" fileEnv ;;
  let cfg := assign "metaConf" metaConf cfg in
  when (negb envFromCache && negb (Nat.eqb (List.length usedEnvFiles) 0))
    (log ("Using .env files: " ++ join_strings ", " usedEnvFiles)) ;;
  ret cfg.

(** [cfg.ctx.k]: [cfg.ctx] is the context itself unless the user's
    configuration replaced it. *)
Definition cfg_ctx_prop (cfg : Fields) (k : string) (of_ctx : JSValue) : M JSValue :=
  if is_ctx (field "ctx" cfg) then ret of_ctx else getp (field "ctx" cfg) k.

(** [userCfg.electron?.k] *)
Definition userCfg_electron (userCfg : JSValue) (k : string) : M JSValue :=
  electron <- getp userCfg "electron" ;;
  if is_nullish electron then ret JUndefined else getp electron k.

(** Lines 1190-1285. *)
Definition pass_electron (userCfg : JSValue) (cfg : Fields) : M Fields :=
  if ctx_mode_electron ctx then
    let electron := field "electron" cfg in
    preloadScripts <- userCfg_electron userCfg "preloadScripts" ;;
    electron <-
      (if negb (truthy preloadScripts)
       then putp electron "preloadScripts" (strs ["electron-preload"])
       else ret electron) ;;
    if ctx_dev ctx then
      known <- gets electronInspectPort ;;
      port <-
        match known with
        | Some port => ret port
        | None =>
            inspectPort <- userCfg_electron userCfg "inspectPort" ;;
            let wanted := js_or inspectPort (JNum 5858) in
            emit (EProbe wanted (JStr "127.0.0.1")) ;;
            match findClosestOpenPort w wanted (JStr "127.0.0.1") with
            | OpenPort port =>
                modify (set_electronInspectPort (Some port)) ;;
                emit EConsole ;;
                ret port
            | _ => throw
            end
        end ;;
      emit EConsole ;;
      electron <- putp electron "inspectPort" port ;;
      ret (assign "electron" electron cfg)
    else
      let icon := resolve_electron ctx "icons/icon.png" in
      let builderIcon :=
        if process_platform host =? "linux"
        then (if existsSync w icon then icon
              else resolve_electron ctx "icons/linux-512x512.png")
        else resolve_electron ctx "icons/icon" in
      distDir <- getp (field "build" cfg) "distDir" ;;
      distDir <- as_path distDir ;;
      electron <- try_value
        (merge
           (JObj [ ("packager",
                    JObj [ ("asar", JBool true);
                           ("icon", JStr (resolve_electron ctx "icons/icon"));
                           ("overwrite", JBool true) ]);
                   ("builder",
                    JObj [ ("appId", JStr "quasar-app");
                           ("icon", JStr builderIcon);
                           ("productName",
                            js_or (appPkg_productName ctx)
                              (js_or (appPkg_name ctx) (JStr "Quasar App")));
                           ("directories",
                            JObj [ ("buildResources",
                                    JStr (resolve_electron ctx EmptyString)) ]) ]) ])
           [ electron;
             JObj [ ("packager",
                     JObj [ ("dir", JStr (path_join host distDir "UnPackaged"));
                            ("out", JStr (path_join host distDir "Packaged")) ]);
                    ("builder",
                     JObj [ ("directories",
                             JObj [ ("app", JStr (path_join host distDir "UnPackaged"));
                                    ("output", JStr (path_join host distDir "Packaged")) ]) ]) ] ]) ;;
      bundlerName <- cfg_ctx_prop cfg "bundlerName" (ctx_bundlerName ctx) ;;
      electron <-
        (if truthy bundlerName then putp electron "bundler" bundlerName
         else
           bundler <- getp electron "bundler" ;;
           if negb (truthy bundler)
           then putp electron "bundler" (electron_getDefaultName w)
           else ret electron) ;;
      bundler <- getp electron "bundler" ;;
      emit (EEnsureElectronArgv bundler) ;;
      targetName <- cfg_ctx_prop cfg "targetName" (ctx_targetName ctx) ;;
      archName <- cfg_ctx_prop cfg "archName" (ctx_archName ctx) ;;
      electron <-
        (if strict_equals bundler (JStr "packager") then
           packager <- getp electron "packager" ;;
           packager <- (if truthy targetName then putp packager "platform" targetName
                        else ret packager) ;;
           packager <- (if truthy archName then putp packager "arch" archName
                        else ret packager) ;;
           putp electron "packager" packager
         else
           builder <- getp electron "builder" ;;
           let builder := JObj [ ("config", builder) ] in
           let is_one_of names := existsb (fun n => strict_equals targetName (JStr n)) names in
           builder <- (if is_one_of ["mac"; "darwin"; "all"]
                       then putp builder "mac" (JArr []) else ret builder) ;;
           builder <- (if is_one_of ["linux"; "all"]
                       then putp builder "linux" (JArr []) else ret builder) ;;
           builder <- (if is_one_of ["win"; "win32"; "all"]
                       then putp builder "win" (JArr []) else ret builder) ;;
           builder <- (if truthy archName
                       then putp builder (to_text host archName) (JBool true)
                       else ret builder) ;;
           publish <- cfg_ctx_prop cfg "publish" (ctx_publish ctx) ;;
           builder <- (if truthy publish then putp builder "publish" publish
                       else ret builder) ;;
           putp electron "builder" builder) ;;
      emit (EEnsureInstall bundler) ;;
      ret (assign "electron" electron cfg)
  else ret cfg.

(** Lines 1287-1298. *)
Definition pass_htmlVariables (cfg : Fields) : M Fields :=
  env <- getp (field "build" cfg) "env" ;;
  productName <- try_value (escapeHTMLTagContent (appPkg_productName ctx)) ;;
  productDescription <- try_value (escapeHTMLAttribute (appPkg_description ctx)) ;;
  htmlVariables <- try_value
    (merge (JObj [ ("ctx", field "ctx" cfg);
                   ("process", JObj [ ("env", env) ]);
                   ("productName", productName);
                   ("productDescription", productDescription) ])
           [field "htmlVariables" cfg]) ;;
  let cfg := assign "htmlVariables" htmlVariables cfg in
  if ctx_mode_capacitor ctx then
    metaVersions <- getp (field "metaConf" cfg) "versions" ;;
    splash <- getp metaVersions "capacitorPluginSplashscreen" ;;
    if truthy splash then
      hide <- getp (field "capacitor" cfg) "hideSplashscreen" ;;
      if negb (strict_equals hide (JBool false)) then
        metaConf <- putp (field "metaConf" cfg) "needsAppMountHook" (JBool true) ;;
        ret (assign "metaConf" metaConf cfg)
      else ret cfg
    else ret cfg
  else ret cfg.

(** Lines 466-1298: the derivation proper, once the user's
    configuration object is at hand. *)
Definition derive (userCfg : JSValue) (failOnError : bool) : M Fields :=
  cfg <- pass_merge failOnError userCfg ;;
  cfg <- pass_ssr_defaults cfg ;;
  cfg <- pass_devServer_address failOnError cfg ;;
  cfg <- pass_asset_lists cfg ;;
  cfg <- pass_framework cfg ;;
  cfg <- pass_eslint cfg ;;
  cfg <- pass_build cfg ;;
  cfg <- pass_vendor cfg ;;
  cfg <- pass_transpile_targets cfg ;;
  cfg <- pass_router_mode_distDir cfg ;;
  cfg <- pass_publicPath cfg ;;
  cfg <- pass_sourceFiles failOnError cfg ;;
  cfg <- pass_devServer_server cfg ;;
  cfg <- pass_ssr cfg ;;
  cfg <- pass_dev cfg ;;
  cfg <- pass_gzip cfg ;;
  cfg <- pass_pwa_bex failOnError cfg ;;
  cfg <- pass_app_url cfg ;;
  cfg <- pass_env cfg ;;
  cfg <- pass_electron userCfg cfg ;;
  pass_htmlVariables cfg.

Definition runtime_errors_msg : string :=
  "The quasar.config file has runtime errors. Please check the Node.js stack above against the temporarily created "
  ++ tempFile_basename ctx ++ " file then DELETE it ("
  ++ dquote ++ "quasar clean --qconf" ++ dquote ++ " can be used).".

(** [async #computeConfig (quasarConfigFn, failOnError)] *)
Definition computeConfig (quasarConfigFn : ConfigFn) (failOnError : bool) : M Fields :=
  match quasarConfigFn with
  | NotAFunction =>
      removeTempFile ;;
      fail failOnError LoadError
        "The default export value of the quasar.config file is not a function."
        " Please fix it.\n"
  | Function FnThrows =>
      emit EConsole ;;
      fail failOnError LoadError runtime_errors_msg
        " Please fix the errors in the original file.\n"
  | Function (FnReturns userCfg) =>
      if negb (is_object userCfg) then
        removeTempFile ;;
        fail failOnError ShapeError
          "The quasar.config file does not default exports an Object."
          " Please fix it.\n"
      else
        removeTempFile ;;
        derive userCfg failOnError
  end.

(* =================================================================== *)
(** ** One-shot and watch mode *)
(* =================================================================== *)

Definition compile_msg : string :=
  "Could not compile the quasar.config file because it has errors.".

(** esbuild writes [outfile] when, and only when, the build has no
    errors. *)
Definition esbuild_output : M unit :=
  when (negb (compile_errors w)) (modify (set_tempFile_exists true)).

(** [async #build (esbuildConfig)] *)
Definition build : M Fields :=
  esbuild_output ;;
  when (compile_errors w)
    (removeTempFile ;; emit EConsole ;; fatal CompileError compile_msg) ;;
  quasarConfigFn <-
    match loaded w with
    | Imported fn => ret fn
    | ImportThrows =>
        emit EConsole ;;
        fatal LoadError
          ("The quasar.config file has runtime errors. Please check the Node.js stack above against the temporarily created "
           ++ tempFile_basename ctx
           ++ " file, fix the original file then DELETE the temporary one ("
           ++ dquote ++ "quasar clean --qconf" ++ dquote ++ " can be used).")
    end ;;
  computeConfig quasarConfigFn true.

(** The [build.onStart] callback of the watcher plugin. *)
Definition onStart : M unit :=
  first <- gets isFirst ;;
  when (negb first)
    (log EmptyString ;;
     log "The quasar.config file (or its dependencies) changed. Reading it again..." ;;
     emit EUpdateAppPackageJson).

Definition import_msg : string :=
  "Importing quasar.config file results in error. Please check the Node.js stack above against the temporarily created "
  ++ tempFile_basename ctx
  ++ " file and fix the original file then DELETE the temporary one ("
  ++ dquote ++ "quasar clean --qconf" ++ dquote ++ " can be used).".

(** The [build.onEnd] callback of the watcher plugin, past its first
    guard; [first] is [isFirst] at that point.  [Bail] is a [return]
    after a warning. *)
Definition onEnd_ready (first : bool) : M unit :=
  if compile_errors w then
    removeTempFile ;;
    when first (fatal CompileError compile_msg) ;;
    warn (compile_msg ++ " Please fix them.\n") ;;
    bail CompileError
  else
    quasarConfigFn <-
      match loaded w with
      | Imported fn => ret fn
      | ImportThrows =>
          emit EConsole ;;
          when first (fatal LoadError import_msg) ;;
          warn (import_msg ++ "\n") ;;
          bail LoadError
      end ;;
    quasarConf <- computeConfig quasarConfigFn first ;;
    if first : bool then
      modify (set_isFirst false) ;;
      emit (EFirstBuildIsDone (JObj quasarConf))
    else
      log "Scheduled to apply quasar.config changes in 550ms" ;;
      emit (EWatchCallback (JObj quasarConf)).

(** The whole callback: nothing happens while the first build is done
    and [watch ()] has not been called. *)
Definition onEnd : M unit :=
  first <- gets isFirst ;;
  watching <- gets isWatching ;;
  if negb first && negb watching then ret tt
  else onEnd_ready first.

(** One build of the esbuild context in watch mode. *)
Definition rebuild : M unit :=
  onStart ;; esbuild_output ;; onEnd.

(** [read ()] in one-shot mode and [watch ()]. *)
Definition watch : M unit := modify (set_isWatching true).

End Derivation.

(** What happens to a session in watch mode: esbuild builds (first when
    the context is created, then on every change), and the caller calls
    [watch ()]. *)
Inductive Event : Type :=
| Build (w : World)
| CallWatch.

Definition step (host : Host) (ctx : Ctx) (opts : Opts) (e : Event) : M unit :=
  match e with
  | Build w => rebuild host ctx opts w
  | CallWatch => watch
  end.

(** A run of events.  The process ends at [Exit]; after [Throw] (a
    rejected [onEnd]) or [Bail] the session goes on. *)
Fixpoint run (host : Host) (ctx : Ctx) (opts : Opts) (es : list Event) (s : Session)
  : bool * Session :=
  match es with
  | [] => (true, s)
  | e :: r =>
      match step host ctx opts e s with
      | (Exit _, s') => (false, s')
      | (_, s') => run host ctx opts r s'
      end
  end.

(** The session [new QuasarConfigFile(...)] starts in, given what the
    module-level variables and [ctx.mode.pwa] hold at that time. *)
Definition initial_session (pwa : bool) (cachedHost : JSValue) (running : bool) : Session :=
  {| isWatching := false; isFirst := true; address := None;
     vueDevtools := None; electronInspectPort := None;
     ctx_mode_pwa := pwa; cachedExternalHost := cachedHost;
     addressRunning := running; tempFile_exists := false; trace := [] |}.

(* ===================================================================== *)
(** ** Debounced delivery *)
(* ===================================================================== *)

(** Modelled from the spec: [debounce] of
    [this.#opts.watch = debounce(watch, 550)] is [lodash/debounce.js],
    which is not among the sources; only the call and its wait of 550 are.
    The specification gives it as a fixed quiet period: a burst of rapid
    triggers collapses into one delivered action, a new event supersedes
    the delivery that is pending for the same window, and what is
    delivered comes from the most recent event.  It is written here as a
    machine over a clock in milliseconds, trailing edge only and with no
    maximal wait.  A timer is the time it is due at, and it runs at that
    time; [invocations] records the calls of the wrapped callback.
    [EWatchCallback] in a session's trace is a call of [debounced]. *)
Module Debounce.

Definition wait : Z := 550.

Record State : Type := {
  lastArgs : option JSValue;
  lastCallTime : option Z;
  lastInvokeTime : Z;
  timerId : option Z;
  invocations : list (Z * JSValue)
}.

Definition initial : State :=
  {| lastArgs := None; lastCallTime := None; lastInvokeTime := 0;
     timerId := None; invocations := [] |}.

Definition shouldInvoke (st : State) (time : Z) : bool :=
  match lastCallTime st with
  | None => true
  | Some t => (wait <=? time - t)%Z || (time - t <? 0)%Z
  end.

Definition remainingWait (st : State) (time : Z) : Z :=
  match lastCallTime st with
  | Some t => (wait - (time - t))%Z
  | None => wait
  end.

Definition invokeFunc (st : State) (time : Z) (args : JSValue) : State :=
  {| lastArgs := None; lastCallTime := lastCallTime st; lastInvokeTime := time;
     timerId := timerId st;
     invocations := (invocations st ++ [(time, args)])%list |}.

Definition trailingEdge (st : State) (time : Z) : State :=
  let st := {| lastArgs := lastArgs st; lastCallTime := lastCallTime st;
               lastInvokeTime := lastInvokeTime st; timerId := None;
               invocations := invocations st |} in
  match lastArgs st with
  | Some args => invokeFunc st time args
  | None => st
  end.

Definition timerExpired (st : State) (time : Z) : State :=
  if shouldInvoke st time then trailingEdge st time
  else {| lastArgs := lastArgs st; lastCallTime := lastCallTime st;
          lastInvokeTime := lastInvokeTime st;
          timerId := Some (time + remainingWait st time)%Z;
          invocations := invocations st |}.

Definition leadingEdge (st : State) (time : Z) : State :=
  {| lastArgs := lastArgs st; lastCallTime := lastCallTime st;
     lastInvokeTime := time; timerId := Some (time + wait)%Z;
     invocations := invocations st |}.

(** A call of the debounced function at [time]. *)
Definition debounced (st : State) (time : Z) (arg : JSValue) : State :=
  let isInvoking := shouldInvoke st time in
  let st := {| lastArgs := Some arg; lastCallTime := Some time;
               lastInvokeTime := lastInvokeTime st; timerId := timerId st;
               invocations := invocations st |} in
  match timerId st with
  | None => if isInvoking then leadingEdge st time
            else {| lastArgs := lastArgs st; lastCallTime := lastCallTime st;
                    lastInvokeTime := lastInvokeTime st;
                    timerId := Some (time + wait)%Z;
                    invocations := invocations st |}
  | Some _ => st
  end.

(** The timers due by [now] run, each at the time it is due. *)
Fixpoint fire_timers (fuel : nat) (st : State) (now : Z) : State :=
  match fuel with
  | O => st
  | S fuel' =>
      match timerId st with
      | Some due =>
          if (due <=? now)%Z then fire_timers fuel' (timerExpired st due) now
          else st
      | None => st
      end
  end.

(** A timer re-arms at most once between two calls, so two rounds
    empty the queue (lemma [fire_timers_settles]). *)
Definition call (st : State) (time : Z) (arg : JSValue) : State :=
  debounced (fire_timers 2 st time) time arg.

Fixpoint run_calls (calls : list (Z * JSValue)) (st : State) : State :=
  match calls with
  | [] => st
  | (time, arg) :: r => run_calls r (call st time arg)
  end.

(** Let the clock run until no timer is pending. *)
Definition quiesce (st : State) : State :=
  match lastCallTime st with
  | Some t => fire_timers 2 st (t + wait)%Z
  | None => st
  end.

(** A burst: calls in time order, each less than [wait] after the one
    before. *)
Fixpoint burst (previous : Z) (calls : list (Z * JSValue)) : Prop :=
  match calls with
  | [] => True
  | (time, _) :: r => (previous <= time < previous + wait)%Z /\ burst time r
  end.

Definition idle (st : State) : Prop :=
  timerId st = None /\ lastArgs st = None.

End Debounce.

(* ===================================================================== *)
(** ** A concrete project *)
(* ===================================================================== *)

(** A project in SPA mode under [quasar dev], on which the statements
    below are run. *)
Module Sample.

Definition host : Host :=
  {| path_join := fun a b => a ++ "/" ++ b;
     path_isAbsolute := fun p => startsWith p "/";
     path_basename := fun p => p;
     path_dirname := fun p => p;
     JSON_stringify := fun v => v;
     green := fun x => x;
     dim := fun x => x;
     regexp_valid := fun _ => true;
     isMinimalTerminal := false;
     localHostList := ["0.0.0.0"; "localhost"; "127.0.0.1"; "::1"];
     process_platform := "linux";
     render := fun _ => "[value]" |}.

Definition ctx : Ctx :=
  {| ctx_dev := true; ctx_prod := false; ctx_debug := false;
     ctx_modeName := "spa";
     ctx_mode_ssr := false; ctx_mode_bex := false; ctx_mode_cordova := false;
     ctx_mode_capacitor := false; ctx_mode_electron := false;
     ctx_targetName := JUndefined; ctx_archName := JUndefined;
     ctx_bundlerName := JUndefined; ctx_publish := JUndefined;
     ctx_vueDevtools := false;
     appPkg_productName := JStr "Sample App";
     appPkg_name := JStr "sample-app";
     appPkg_description := JStr "A sample";
     quasarPkg_version := JStr "2.16.0";
     appPaths_srcDir := "/app/src";
     appPaths_appDir := "/app";
     resolve_app := fun p => "/app/" ++ p;
     resolve_src := fun p => "/app/src/" ++ p;
     resolve_electron := fun p => "/app/src-electron/" ++ p;
     resolve_cordova := fun p => "/app/src-cordova/" ++ p;
     tempFile_basename := "quasar.config.js.temporary.compiled.1.mjs";
     versions := [];
     cssVariables := [];
     storeProvider_pathKey := "stores";
     storeProvider_name := JStr "pinia";
     transformAssetUrls := JObj [] |}.

Definition opts : Opts :=
  {| opt_host := JUndefined; opt_port := JUndefined;
     opt_verifyAddress := true; opt_watch := true |}.

(** A world in which everything works and the configuration function
    answers [userCfg]. *)
Definition world (userCfg : JSValue) : World :=
  {| compile_errors := false;
     loaded := Imported (Function (FnReturns userCfg));
     extendQuasarConf_hooks := [];
     animations_module := JArr [];
     findClosestOpenPort := fun p _ => OpenPort p;
     getExternalIP := JStr "192.168.0.2";
     appFilesValidations := fun _ => true;
     resolveExtension := fun _ => JUndefined;
     getCertificate := JHost "certificate";
     readFileSync := fun _ => None;
     existsSync := fun _ => false;
     readFileEnv := fun _ => (JObj [], [], true);
     electron_getDefaultName := JStr "packager" |}.

(** The same world with another module on disk. *)
Definition world_loading (l : Loaded) : World :=
  {| compile_errors := false;
     loaded := l;
     extendQuasarConf_hooks := [];
     animations_module := JArr [];
     findClosestOpenPort := fun p _ => OpenPort p;
     getExternalIP := JStr "192.168.0.2";
     appFilesValidations := fun _ => true;
     resolveExtension := fun _ => JUndefined;
     getCertificate := JHost "certificate";
     readFileSync := fun _ => None;
     existsSync := fun _ => false;
     readFileEnv := fun _ => (JObj [], [], true);
     electron_getDefaultName := JStr "packager" |}.

Definition start : Session := initial_session false JUndefined false.

End Sample.

(* ===================================================================== *)
(** * Properties *)
(* ===================================================================== *)

(** ** Public path and router base *)

Lemma append_assoc (a b c : string) : (a ++ b) ++ c = a ++ (b ++ c).
Proof.
  induction a as [| x a IH]; simpl; [reflexivity | now rewrite IH].
Qed.

Lemma string_rev_acc_app (s acc : string) :
  string_rev_acc s acc = string_rev s ++ acc.
Proof.
  unfold string_rev. revert acc.
  induction s as [| c s IH]; intros acc; simpl.
  - reflexivity.
  - rewrite IH. rewrite (IH (String c EmptyString)).
    rewrite append_assoc. reflexivity.
Qed.

Lemma string_rev_acc_snoc (s : string) (c : ascii) (acc : string) :
  string_rev_acc (s ++ String c EmptyString) acc = String c (string_rev_acc s acc).
Proof.
  revert acc. induction s as [| d s IH]; intros acc; simpl.
  - reflexivity.
  - apply IH.
Qed.

Lemma string_rev_snoc (s : string) (c : ascii) :
  string_rev (s ++ String c EmptyString) = String c (string_rev s).
Proof.
  apply string_rev_acc_snoc.
Qed.

Lemma endsWith_snoc (s : string) (c : ascii) :
  endsWith (s ++ String c EmptyString) (String c EmptyString) = true.
Proof.
  unfold endsWith. rewrite string_rev_snoc. simpl.
  destruct (ascii_dec c c) as [_ | n]; [| contradiction].
  destruct (string_rev s); reflexivity.
Qed.

Lemma endsWith_cons (s : string) (c d : ascii) :
  s <> EmptyString ->
  endsWith (String c s) (String d EmptyString) = endsWith s (String d EmptyString).
Proof.
  intros Hs. unfold endsWith, string_rev. simpl.
  rewrite (string_rev_acc_app s (String c EmptyString)).
  rewrite (string_rev_acc_app s EmptyString).
  destruct s as [| e s']; [contradiction |].
  assert (H : exists x r, string_rev (String e s') = String x r).
  { unfold string_rev. simpl. rewrite string_rev_acc_app.
    destruct (string_rev s'); simpl; eauto. }
  destruct H as (x & r & ->). simpl.
  destruct (ascii_dec d x); [| reflexivity].
  destruct r; simpl; reflexivity.
Qed.

(** Whatever it is given, [formatPublicPath] answers with a path that ends
    in a slash. *)
Lemma formatPublicPath_trailing_slash (p : string) :
  endsWith (formatPublicPath p) "/" = true.
Proof.
  unfold formatPublicPath.
  destruct (p =? EmptyString) eqn:Hp; [reflexivity |].
  assert (Hend : endsWith (if negb (endsWith p "/") then p ++ "/" else p) "/" = true).
  { destruct (endsWith p "/") eqn:He; simpl; [exact He | apply endsWith_snoc]. }
  set (q := if negb (endsWith p "/") then p ++ "/" else p) in *.
  destruct (regex_test urlRegex q); [exact Hend |].
  destruct (startsWith q "/"); simpl; [exact Hend |].
  rewrite endsWith_cons; [exact Hend |].
  intros ->. discriminate Hend.
Qed.

(** A path that is not a URL comes back with a leading slash. *)
Lemma formatPublicPath_leading_slash (p : string) :
  regex_test urlRegex (formatPublicPath p) = false ->
  startsWith (formatPublicPath p) "/" = true.
Proof.
  unfold formatPublicPath.
  destruct (p =? EmptyString); [reflexivity |].
  set (q := if negb (endsWith p "/") then p ++ "/" else p).
  destruct (regex_test urlRegex q) eqn:Hq; [congruence |].
  destruct (startsWith q "/") eqn:Hs; simpl; intros _; [exact Hs |].
  unfold startsWith. simpl. destruct q; reflexivity.
Qed.

(** C8.  The four worked cases of public-path and router-base formatting:
    the empty public path gives the root; [foo] gains a leading and a
    trailing slash; a full URL keeps scheme and host and gains only the
    trailing slash; the router base of a URL is its path component with a
    trailing slash, query and fragment dropped. *)
Theorem C8_public_path_and_router_base :
  formatPublicPath EmptyString = "/"
  /\ formatPublicPath "foo" = "/foo/"
  /\ formatPublicPath "http://x.com/a" = "http://x.com/a/"
  /\ formatRouterBase "http://host:1234/app/sub?x=1#h" = Some "/app/sub/".
Proof.
  repeat split; vm_compute; reflexivity.
Qed.

(** ** Asset lists *)

(** The claim's words, for a list of string entries: drop the empty
    entries, resolve each one ([~] marks a verbatim path, anything else
    goes under the prefix), drop the empty paths, and keep the first
    occurrence of each path. *)
Fixpoint first_occurrences (seen paths : list string) : list string :=
  match paths with
  | [] => []
  | p :: r =>
      if existsb (String.eqb p) seen then first_occurrences seen r
      else p :: first_occurrences (p :: seen) r
  end.

Definition nonempty (s : string) : bool := negb (s =? EmptyString).

Definition path_entry (p : string) : JSValue := JObj [("path", JStr p)].

(** The claim's words for one entry: an entry that starts with the marker
    [~] stands for the rest of it, verbatim; any other entry goes under
    the prefix. *)
Definition claimed_path (prefix entry : string) : string :=
  match entry with
  | String "~"%char rest => rest
  | _ => prefix ++ "/" ++ entry
  end.

Definition normalized_paths (prefix : string) (entries : list string) : list string :=
  first_occurrences []
    (filter nonempty (map (claimed_path prefix) (filter nonempty entries))).

(** The same rule for a list of objects with string paths, by position. *)
Fixpoint keep_first_paths (seen : list string) (objs : list JSValue) : list JSValue :=
  match objs with
  | [] => []
  | o :: r =>
      match path_of o with
      | JStr p =>
          if existsb (String.eqb p) seen then keep_first_paths seen r
          else o :: keep_first_paths (p :: seen) r
      | _ => o :: keep_first_paths seen r
      end
  end.

Definition has_string_path (o : JSValue) : Prop := exists p, path_of o = JStr p.

Lemma indexOf_from_lower (l : list JSValue) (v : JSValue) (i : Z) :
  indexOf_from i l v = (-1)%Z \/ (i <= indexOf_from i l v < i + Z.of_nat (List.length l))%Z.
Proof.
  revert i. induction l as [| x l IH]; intros i; simpl.
  - now left.
  - destruct (strict_equals x v).
    + right. lia.
    + destruct (IH (i + 1)%Z) as [H | H]; [now left | right; lia].
Qed.

Lemma indexOf_from_absent (l : list JSValue) (v : JSValue) (i : Z) :
  existsb (fun x => strict_equals x v) l = false -> indexOf_from i l v = (-1)%Z.
Proof.
  revert i. induction l as [| x l IH]; intros i; simpl; [reflexivity |].
  destruct (strict_equals x v); simpl; [discriminate | apply IH].
Qed.

Lemma indexOf_from_present (l : list JSValue) (v : JSValue) (i : Z) :
  existsb (fun x => strict_equals x v) l = true ->
  (i <= indexOf_from i l v < i + Z.of_nat (List.length l))%Z.
Proof.
  revert i. induction l as [| x l IH]; intros i; simpl; [discriminate |].
  destruct (strict_equals x v); simpl; intros H.
  - lia.
  - specialize (IH (i + 1)%Z H). lia.
Qed.

Lemma indexOf_from_app (l r : list JSValue) (v : JSValue) (i : Z) :
  indexOf_from i (l ++ r) v =
  if existsb (fun x => strict_equals x v) l then indexOf_from i l v
  else indexOf_from (i + Z.of_nat (List.length l)) r v.
Proof.
  revert i. induction l as [| x l IH]; intros i; simpl.
  - f_equal. lia.
  - destruct (strict_equals x v); simpl; [reflexivity |].
    rewrite IH. destruct (existsb _ l); [reflexivity |]. f_equal. lia.
Qed.

Lemma existsb_paths (pre : list JSValue) (seen : list string) (p : string) :
  (forall q, existsb (fun x => strict_equals x (JStr q)) (map path_of pre)
             = existsb (String.eqb q) seen) ->
  existsb (fun x => strict_equals x (JStr p)) (map path_of pre)
  = existsb (String.eqb p) seen.
Proof. intros H. apply H. Qed.

Lemma str_strict_equals (p q : string) :
  strict_equals (JStr p) (JStr q) = (q =? p).
Proof. simpl. apply String.eqb_sym. Qed.

(** [uniquePathFilter] keeps exactly the first entry of each path. *)
Lemma filteri_unique_paths (pre objs : list JSValue) (seen : list string) :
  Forall has_string_path objs ->
  (forall q, existsb (fun x => strict_equals x (JStr q)) (map path_of pre)
             = existsb (String.eqb q) seen) ->
  filteri_from (fun x i => uniquePathFilter x i (pre ++ objs))
    (Z.of_nat (List.length pre)) objs
  = keep_first_paths seen objs.
Proof.
  revert pre seen. induction objs as [| o objs IH]; intros pre seen Hall Hseen.
  - reflexivity.
  - inversion Hall as [| ? ? [p Hp] Hall']; subst.
    assert (Hstep : forall seen',
      (forall q, existsb (fun x => strict_equals x (JStr q)) (map path_of (pre ++ [o]))
                 = existsb (String.eqb q) seen') ->
      filteri_from (fun x i => uniquePathFilter x i (pre ++ o :: objs))
        (Z.of_nat (List.length pre) + 1) objs = keep_first_paths seen' objs).
    { intros seen' Hs.
      specialize (IH (pre ++ [o])%list seen' Hall' Hs).
      rewrite <- app_assoc in IH. simpl in IH.
      rewrite length_app in IH. simpl in IH.
      replace (Z.of_nat (List.length pre + 1)) with (Z.of_nat (List.length pre) + 1)%Z in IH
        by lia.
      exact IH. }
    simpl. rewrite Hp.
    unfold uniquePathFilter at 1. unfold indexOf.
    rewrite map_app, indexOf_from_app, Hp, Hseen, length_map. simpl.
    destruct (existsb (String.eqb p) seen) eqn:Hin.
    + pose proof (indexOf_from_present (map path_of pre) (JStr p) 0) as Hlt.
      rewrite Hseen, Hin, length_map in Hlt. specialize (Hlt eq_refl).
      destruct (Z.eqb_spec (indexOf_from 0 (map path_of pre) (JStr p))
                  (Z.of_nat (List.length pre))) as [E | _]; [lia |].
      apply Hstep. intros q.
      rewrite map_app, existsb_app, Hseen. simpl. rewrite Hp, str_strict_equals.
      rewrite orb_false_r.
      destruct (String.eqb_spec q p) as [-> | _];
        [rewrite Hin; reflexivity | apply orb_false_r].
    + rewrite Hp. simpl. rewrite String.eqb_refl, Z.eqb_refl.
      f_equal. apply Hstep. intros q.
      rewrite map_app, existsb_app, Hseen. simpl. rewrite Hp, str_strict_equals.
      rewrite orb_false_r, orb_comm. reflexivity.
Qed.

Lemma uniquePathFilter_keeps_first (objs : list JSValue) :
  Forall has_string_path objs ->
  filteri uniquePathFilter objs = keep_first_paths [] objs.
Proof.
  intros H. unfold filteri.
  apply (filteri_unique_paths [] objs [] H). reflexivity.
Qed.

Lemma keep_first_path_entries (seen paths : list string) :
  keep_first_paths seen (map path_entry paths)
  = map path_entry (first_occurrences seen paths).
Proof.
  revert seen. induction paths as [| p r IH]; intros seen; simpl; [reflexivity |].
  destruct (existsb (String.eqb p) seen); simpl; now rewrite IH.
Qed.

Lemma filter_truthy_strings (l : list string) :
  filter truthy (map JStr l) = map JStr (filter nonempty l).
Proof.
  induction l as [| x l IH]; simpl; [reflexivity |].
  unfold nonempty at 1. destruct (x =? EmptyString); simpl; now rewrite IH.
Qed.

Lemma parse_strings (prefix : string) (l : list string) :
  map_option (parseAssetProperty prefix) (map JStr l)
  = Some (map path_entry (map (resolve_asset_path prefix) l)).
Proof.
  induction l as [| x l IH]; simpl; [reflexivity | now rewrite IH].
Qed.

Lemma filter_truthy_paths (l : list string) :
  filter (fun asset => truthy (path_of asset)) (map path_entry l)
  = map path_entry (filter nonempty l).
Proof.
  induction l as [| x l IH]; [reflexivity |].
  cbn [filter map].
  change (truthy (path_of (path_entry x))) with (nonempty x).
  rewrite IH. destruct (nonempty x); reflexivity.
Qed.

Lemma path_entries_have_string_paths (l : list string) :
  Forall has_string_path (map path_entry l).
Proof.
  induction l; constructor; [eexists; reflexivity | assumption].
Qed.

(** The resolver of the source does what the claim says, on every
    entry. *)
Lemma resolve_asset_path_claimed (prefix p : string) :
  resolve_asset_path prefix p = claimed_path prefix p.
Proof.
  destruct p as [| c r]; [reflexivity |].
  unfold resolve_asset_path, claimed_path. cbn [first_char substring_from_1].
  destruct c as [[] [] [] [] [] [] [] []]; reflexivity.
Qed.

Lemma normalize_assets_strings (prefix : string) (entries : list string) :
  normalize_assets prefix (map JStr entries)
  = Some (map path_entry (normalized_paths prefix entries)).
Proof.
  unfold normalize_assets, normalized_paths.
  rewrite filter_truthy_strings, parse_strings. cbv beta iota.
  rewrite filter_truthy_paths.
  rewrite uniquePathFilter_keeps_first by apply path_entries_have_string_paths.
  rewrite keep_first_path_entries.
  rewrite (map_ext _ _ (resolve_asset_path_claimed prefix)). reflexivity.
Qed.

Lemma resolve_override (prefix p : string) :
  resolve_asset_path prefix (String "~" p) = p.
Proof. reflexivity. Qed.

Lemma resolve_plain (prefix p : string) :
  first_char p <> Some "~"%char ->
  resolve_asset_path prefix p = prefix ++ "/" ++ p.
Proof.
  unfold resolve_asset_path. destruct (first_char p) as [c |] eqn:E; [| reflexivity].
  intros H. destruct (Ascii.eqb_spec c "~") as [-> | n]; [congruence |].
  destruct c as [[] [] [] [] [] [] [] []]; try reflexivity. congruence.
Qed.

Lemma append_nonempty (a b : string) : b <> EmptyString -> nonempty (a ++ b) = true.
Proof.
  intros H. unfold nonempty. destruct a; simpl; [| reflexivity].
  destruct b; [contradiction | reflexivity].
Qed.

(** C9.  Asset-list normalisation on string entries.  The resolver maps
    an entry that starts with [~] to the rest of it, whatever that is, and
    any other entry to the prefix, a slash and the entry.  The normalised
    list is what the claim describes, computed without the resolver of the
    source: one object per resolved path, the first occurrence of each,
    in order.  Hence an override-prefixed entry and a plain entry that
    resolve to the same path collapse to one entry, the first, in either
    order. *)
Theorem C9_asset_normalization (prefix : string) :
  (forall p : string, resolve_asset_path prefix (String "~" p) = p)
  /\ (forall p : string,
         first_char p <> Some "~"%char ->
         resolve_asset_path prefix p = prefix ++ "/" ++ p)
  /\ (forall entries : list string,
         normalize_assets prefix (map JStr entries)
         = Some (map path_entry (normalized_paths prefix entries)))
  /\ (forall name : string,
         name <> EmptyString ->
         first_char name <> Some "~"%char ->
         let resolved := prefix ++ "/" ++ name in
         resolve_asset_path prefix ("~" ++ resolved) = resolved
         /\ resolve_asset_path prefix name = resolved
         /\ normalize_assets prefix [JStr ("~" ++ resolved); JStr name]
            = Some [path_entry resolved]
         /\ normalize_assets prefix [JStr name; JStr ("~" ++ resolved)]
            = Some [path_entry resolved]).
Proof.
  split; [apply resolve_override |].
  split; [apply resolve_plain |].
  split; [apply normalize_assets_strings |].
  intros name Hne Htilde resolved.
  assert (Hres : resolve_asset_path prefix name = resolved)
    by (apply resolve_plain; assumption).
  assert (Hcl : claimed_path prefix name = resolved)
    by (rewrite <- resolve_asset_path_claimed; exact Hres).
  assert (Hnon : nonempty resolved = true).
  { unfold resolved. apply append_nonempty. discriminate. }
  assert (Hname : nonempty name = true).
  { unfold nonempty. destruct name; [contradiction | reflexivity]. }
  split; [reflexivity |]. split; [exact Hres |].
  split.
  - change [JStr ("~" ++ resolved); JStr name]
      with (map JStr ["~" ++ resolved; name]).
    rewrite (normalize_assets_strings prefix ["~" ++ resolved; name]).
    unfold normalized_paths. cbn [filter]. rewrite Hname.
    change (nonempty ("~" ++ resolved)) with true. cbn [map].
    rewrite Hcl. change (claimed_path prefix ("~" ++ resolved)) with resolved.
    cbn [filter]. rewrite Hnon.
    cbn [first_occurrences existsb orb]. rewrite String.eqb_refl. reflexivity.
  - change [JStr name; JStr ("~" ++ resolved)]
      with (map JStr [name; "~" ++ resolved]).
    rewrite (normalize_assets_strings prefix [name; "~" ++ resolved]).
    unfold normalized_paths. cbn [filter]. rewrite Hname.
    change (nonempty ("~" ++ resolved)) with true. cbn [map].
    rewrite Hcl. change (claimed_path prefix ("~" ++ resolved)) with resolved.
    cbn [filter]. rewrite Hnon.
    cbn [first_occurrences existsb orb]. rewrite String.eqb_refl. reflexivity.
Qed.

(** An override of a path outside the prefix is taken verbatim; an
    override and a plain entry of the same file collapse to the first. *)
Lemma C9_asset_normalization_witness :
  normalize_assets "src/css"
    [JStr "~node_modules/pkg/x.css"; JStr "~src/css/app.scss"; JStr "app.scss"]
  = Some [path_entry "node_modules/pkg/x.css"; path_entry "src/css/app.scss"]
  /\ normalize_assets "src/css" [JStr "~src/css/app.scss"; JStr "app.scss"]
     = Some [path_entry "src/css/app.scss"].
Proof.
  split.
  - exact (proj1 (proj2 (proj2 (C9_asset_normalization "src/css")))
             ["~node_modules/pkg/x.css"; "~src/css/app.scss"; "app.scss"]).
  - refine (proj1 (proj2 (proj2
              (proj2 (proj2 (proj2 (C9_asset_normalization "src/css")))
                 "app.scss" _ _)))).
    + discriminate.
    + discriminate.
Defined.

(** An object entry keeps its other properties, and is the one kept when
    it comes first. *)
Example object_entry_kept_first :
  normalize_assets "boot"
    [ JObj [("path", JStr "~boot/axios"); ("server", JBool false)]; JStr "axios" ]
  = Some [ JObj [("path", JStr "boot/axios"); ("server", JBool false)] ].
Proof. reflexivity. Qed.

(** ** Debounced delivery *)

Module DebounceFacts.
Import Debounce.

Lemma trailingEdge_timer (st : State) (time : Z) :
  timerId (trailingEdge st time) = None.
Proof. unfold trailingEdge. simpl. destruct (lastArgs st); reflexivity. Qed.

Lemma trailingEdge_args (st : State) (time : Z) :
  lastArgs (trailingEdge st time) = None.
Proof. unfold trailingEdge. simpl. destruct (lastArgs st) eqn:E; simpl; auto. Qed.

Lemma trailingEdge_invocations (st : State) (time : Z) (a : JSValue) :
  lastArgs st = Some a ->
  invocations (trailingEdge st time) = (invocations st ++ [(time, a)])%list.
Proof. intros H. unfold trailingEdge. simpl. rewrite H. reflexivity. Qed.

Lemma shouldInvoke_at (st : State) (t time : Z) :
  lastCallTime st = Some t ->
  shouldInvoke st time = ((wait <=? time - t)%Z || (time - t <? 0)%Z).
Proof. intros H. unfold shouldInvoke. now rewrite H. Qed.

(** A timer that runs too early re-arms for the end of the window. *)
Lemma timerExpired_rearms (st : State) (t time : Z) :
  lastCallTime st = Some t -> (0 <= time - t < wait)%Z ->
  timerExpired st time =
  {| lastArgs := lastArgs st; lastCallTime := lastCallTime st;
     lastInvokeTime := lastInvokeTime st; timerId := Some (t + wait)%Z;
     invocations := invocations st |}.
Proof.
  intros Ht Hr. unfold timerExpired. rewrite (shouldInvoke_at st t time Ht).
  destruct (Z.leb_spec wait (time - t)); [lia |].
  destruct (Z.ltb_spec (time - t) 0); [lia |]. simpl.
  unfold remainingWait. rewrite Ht. do 2 f_equal. lia.
Qed.

Lemma timerExpired_invokes (st : State) (t time : Z) :
  lastCallTime st = Some t -> (wait <= time - t)%Z ->
  timerExpired st time = trailingEdge st time.
Proof.
  intros Ht Hr. unfold timerExpired. rewrite (shouldInvoke_at st t time Ht).
  destruct (Z.leb_spec wait (time - t)); [reflexivity | lia].
Qed.

Lemma fire_timers_step (n : nat) (st : State) (now : Z) :
  fire_timers (S n) st now =
  match timerId st with
  | Some due =>
      if (due <=? now)%Z then fire_timers n (timerExpired st due) now else st
  | None => st
  end.
Proof. reflexivity. Qed.

Lemma fire_timers_none (n : nat) (st : State) (now : Z) :
  timerId st = None -> fire_timers n st now = st.
Proof. intros H. destruct n; simpl; [reflexivity | now rewrite H]. Qed.

Lemma fire_timers_later (n : nat) (st : State) (now due : Z) :
  timerId st = Some due -> (now < due)%Z -> fire_timers n st now = st.
Proof.
  intros H Hlt. destruct n; simpl; [reflexivity |]. rewrite H.
  destruct (Z.leb_spec due now); [lia | reflexivity].
Qed.

(** Two rounds of timers are enough: none is left due. *)
Lemma fire_timers_settles (st : State) (now : Z) :
  match timerId (fire_timers 2 st now) with
  | Some due => (now < due)%Z
  | None => True
  end.
Proof.
  rewrite fire_timers_step.
  destruct (timerId st) as [d |] eqn:Hd; [| now rewrite Hd].
  destruct (Z.leb_spec d now) as [Hle | Hgt]; [| rewrite Hd; exact Hgt].
  assert (Hdone : forall st' time,
             timerId (fire_timers 1 (trailingEdge st' time) now) = None).
  { intros. rewrite fire_timers_none; apply trailingEdge_timer. }
  destruct (shouldInvoke st d) eqn:Hs.
  { unfold timerExpired. rewrite Hs. now rewrite Hdone. }
  unfold shouldInvoke in Hs. destruct (lastCallTime st) as [t |] eqn:Ht; [| discriminate].
  apply orb_false_iff in Hs. destruct Hs as [H1 H2].
  apply Z.leb_gt in H1. apply Z.ltb_ge in H2.
  rewrite (timerExpired_rearms st t d) by (assumption || lia).
  rewrite fire_timers_step. simpl timerId.
  destruct (Z.leb_spec (t + wait) now) as [H3 | H3]; [| simpl; exact H3].
  rewrite (timerExpired_invokes _ t) by (exact Ht || lia).
  simpl fire_timers. now rewrite trailingEdge_timer.
Qed.

(** In the middle of a burst: the last call's argument is pending and a
    timer is due within [wait] of it. *)
Definition pending (st : State) (t : Z) (a : JSValue) (done : list (Z * JSValue)) : Prop :=
  lastArgs st = Some a /\ lastCallTime st = Some t
  /\ (exists d, timerId st = Some d /\ (t < d <= t + wait)%Z)
  /\ invocations st = done.

Lemma first_call_pending (st : State) (t : Z) (a : JSValue) :
  idle st -> pending (call st t a) t a (invocations st).
Proof.
  intros [Htimer Hargs]. unfold call. rewrite fire_timers_none by assumption.
  unfold debounced. simpl. rewrite Htimer.
  unfold pending.
  destruct (shouldInvoke st t); simpl;
    (repeat split; try reflexivity; eexists; split;
     [reflexivity | unfold wait; lia]).
Qed.

Lemma next_call_pending (st : State) (t t' : Z) (a a' : JSValue)
      (done : list (Z * JSValue)) :
  pending st t a done -> (t <= t' < t + wait)%Z ->
  pending (call st t' a') t' a' done.
Proof.
  intros (Hargs & Htime & (d & Hd & Hrange) & Hdone) Ht'.
  unfold call.
  destruct (Z.leb_spec d t') as [Hle | Hgt].
  - rewrite fire_timers_step, Hd.
    destruct (Z.leb_spec d t'); [| lia].
    rewrite (timerExpired_rearms st t d) by (assumption || lia).
    rewrite (fire_timers_later _ _ _ (t + wait)%Z) by (reflexivity || lia).
    unfold debounced, pending. simpl.
    repeat split; try assumption.
    eexists; split; [reflexivity | lia].
  - rewrite (fire_timers_later _ _ _ d) by assumption.
    unfold debounced. rewrite Hd. unfold pending. simpl.
    repeat split; try assumption.
    eexists; split; [reflexivity | lia].
Qed.

Lemma last_cons_default {A : Type} (l : list A) (x d : A) :
  last (x :: l) d = last l x.
Proof.
  revert x d. induction l as [| y l IH]; intros x d; [reflexivity |].
  transitivity (last (y :: l) d); [reflexivity |].
  rewrite IH. symmetry. apply IH.
Qed.

Lemma burst_pending (calls : list (Z * JSValue)) (st : State) (t : Z) (a : JSValue)
      (done : list (Z * JSValue)) :
  pending st t a done -> burst t calls ->
  pending (run_calls calls st) (fst (last calls (t, a))) (snd (last calls (t, a))) done.
Proof.
  revert st t a. induction calls as [| [t' a'] calls IH]; intros st t a Hp Hb.
  - exact Hp.
  - destruct Hb as [Hrange Hb]. cbn [run_calls].
    pose proof (next_call_pending st t t' a a' done Hp Hrange) as Hp'.
    specialize (IH _ _ _ Hp' Hb).
    rewrite last_cons_default. exact IH.
Qed.

Lemma quiesce_pending (st : State) (t : Z) (a : JSValue) (done : list (Z * JSValue)) :
  pending st t a done ->
  invocations (quiesce st) = (done ++ [((t + wait)%Z, a)])%list /\ idle (quiesce st).
Proof.
  intros (Hargs & Htime & (d & Hd & Hrange) & Hdone).
  unfold quiesce. rewrite Htime, fire_timers_step, Hd.
  destruct (Z.leb_spec d (t + wait)) as [_ | Hgt]; [| lia].
  assert (Hend : forall st', lastArgs st' = Some a -> lastCallTime st' = Some t ->
                             invocations st' = done ->
            let final := fire_timers 1 (trailingEdge st' (t + wait)) (t + wait) in
            invocations final = (done ++ [((t + wait)%Z, a)])%list /\ idle final).
  { intros st' Ha Ht Hi final. unfold final.
    rewrite fire_timers_none by apply trailingEdge_timer.
    rewrite (trailingEdge_invocations _ _ a Ha), Hi.
    split; [reflexivity |]. split; [apply trailingEdge_timer | apply trailingEdge_args]. }
  destruct (Z.eq_dec d (t + wait)) as [-> | Hne].
  - rewrite (timerExpired_invokes st t) by (assumption || lia).
    apply Hend; assumption.
  - rewrite (timerExpired_rearms st t d) by (assumption || lia).
    rewrite fire_timers_step. cbn [timerId]. rewrite Z.leb_refl.
    rewrite (timerExpired_invokes _ t) by (exact Htime || lia).
    cbn [fire_timers].
    rewrite (trailingEdge_invocations _ _ a) by exact Hargs. simpl invocations.
    rewrite Hdone. split; [reflexivity |].
    split; [apply trailingEdge_timer | apply trailingEdge_args].
Qed.

End DebounceFacts.

(** ** The cycle monad *)

Lemma bind_Ret_inv {A B : Type} (m : M A) (f : A -> M B) (s s' : Session) (b : B) :
  bind m f s = (Ret b, s') ->
  exists a s1, m s = (Ret a, s1) /\ f a s1 = (Ret b, s').
Proof.
  unfold bind. destruct (m s) as [[a | k | k |] s1]; intros H; try discriminate.
  exists a, s1. split; [reflexivity | exact H].
Qed.

Lemma bind_Ret {A B : Type} (m : M A) (f : A -> M B) (s s1 : Session) (a : A) :
  m s = (Ret a, s1) -> bind m f s = f a s1.
Proof. intros H. unfold bind. now rewrite H. Qed.

(** ** First cycle against later cycle: a simulation

    The same computation is run twice on the same answers of the outside
    world: once as in a session's first cycle (errors are fatal), from
    [s1], and once as in a later cycle (errors only warn), from [s2].  The
    two states agree on everything the derivation reads, except that the
    later one has already bound an address whenever the session negotiates
    addresses at all. *)
Section Simulation.

Variable host : Host.
Variable ctx : Ctx.
Variable opts : Opts.

(** The session probes the network: [onAddress] can be reached. *)
Definition negotiates : bool :=
  ctx_dev ctx && negb (ctx_mode_bex ctx) && opt_verifyAddress opts.

Record agree (s1 s2 : Session) : Prop := {
  agree_address : address s1 = address s2;
  agree_vueDevtools : vueDevtools s1 = vueDevtools s2;
  agree_electronInspectPort : electronInspectPort s1 = electronInspectPort s2;
  agree_ctx_mode_pwa : ctx_mode_pwa s1 = ctx_mode_pwa s2;
  agree_cachedExternalHost : cachedExternalHost s1 = cachedExternalHost s2;
  agree_tempFile_exists : tempFile_exists s1 = tempFile_exists s2;
  agree_trace : trace s1 = trace s2;
  agree_running : negotiates = true -> addressRunning s2 = true
}.

Definition fatal_effect (e : Effect) : Prop :=
  e = EProcessExit \/ exists msg, e = EFatal msg.

(** How the two runs may end: with the same value, with the same
    exception, or the first by terminating the process where the second
    warns and gives up, on the same kind of error, after the same
    effects. *)
Definition outcomes_match {A : Type}
           (r1 r2 : Outcome A * Session) : Prop :=
  match fst r1, fst r2 with
  | Ret a, Ret b => a = b /\ agree (snd r1) (snd r2)
  | Throw, Throw => agree (snd r1) (snd r2)
  | Exit k1, Bail k2 =>
      k1 = k2
      /\ tempFile_exists (snd r1) = tempFile_exists (snd r2)
      /\ exists before e msg,
          trace (snd r1) = (before ++ [e])%list
          /\ trace (snd r2) = (before ++ [EWarn msg])%list
          /\ fatal_effect e
  | _, _ => False
  end.

Definition Sim {A : Type} (m1 m2 : M A) : Prop :=
  forall s1 s2, agree s1 s2 -> outcomes_match (m1 s1) (m2 s2).

(** A computation with no failure site of its own. *)
Definition Same {A : Type} (m : M A) : Prop := Sim m m.

Lemma Sim_bind {A B : Type} (m1 m2 : M A) (f1 f2 : A -> M B) :
  Sim m1 m2 -> (forall a, Sim (f1 a) (f2 a)) -> Sim (bind m1 f1) (bind m2 f2).
Proof.
  intros Hm Hf s1 s2 Hs. specialize (Hm s1 s2 Hs).
  unfold bind, outcomes_match in *.
  destruct (m1 s1) as [[a1 | k1 | k1 |] t1], (m2 s2) as [[a2 | k2 | k2 |] t2];
    simpl in *; try contradiction; try exact Hm.
  destruct Hm as [<- Ht]. apply (Hf a1 t1 t2 Ht).
Qed.

Lemma Same_ret {A : Type} (a : A) : Same (ret a).
Proof. intros s1 s2 Hs. split; [reflexivity | exact Hs]. Qed.

Lemma Same_throw {A : Type} : Same (@throw A).
Proof. intros s1 s2 Hs. exact Hs. Qed.

Lemma Same_try_value {A : Type} (o : option A) : Same (try_value o).
Proof. destruct o; [apply Same_ret | apply Same_throw]. Qed.

Lemma Same_getp (v : JSValue) (k : string) : Same (getp v k).
Proof. apply Same_try_value. Qed.

Lemma Same_putp (v : JSValue) (k : string) (x : JSValue) : Same (putp v k x).
Proof. apply Same_try_value. Qed.

Lemma Same_when (b : bool) (m : M unit) : Same m -> Same (when b m).
Proof. intros H. unfold when. destruct b; [exact H | apply Same_ret]. Qed.

Lemma Same_emit (e : Effect) : Same (emit e).
Proof.
  intros s1 s2 [H1 H2 H3 H4 H5 H6 H7 H8]. split; [reflexivity |].
  split; simpl; try assumption. now rewrite H7.
Qed.

Lemma Same_gets {A : Type} (f : Session -> A) :
  (forall s1 s2, agree s1 s2 -> f s1 = f s2) -> Same (gets f).
Proof. intros H s1 s2 Hs. split; [apply H; exact Hs | exact Hs]. Qed.

Lemma Same_modify (f : Session -> Session) :
  (forall s1 s2, agree s1 s2 -> agree (f s1) (f s2)) -> Same (modify f).
Proof. intros H s1 s2 Hs. split; [reflexivity | apply H; exact Hs]. Qed.

Lemma Sim_fail {A : Type} (k : ErrorKind) (msg more : string) :
  Sim (@fail A true k msg more) (@fail A false k msg more).
Proof.
  intros s1 s2 [H1 H2 H3 H4 H5 H6 H7 H8]. unfold outcomes_match. simpl.
  split; [reflexivity |]. split; [exact H6 |].
  exists (trace s2), (EFatal msg), (msg ++ more).
  rewrite H7. repeat split. right. now exists msg.
Qed.

Lemma agree_set_address (a : option Address) (s1 s2 : Session) :
  agree s1 s2 -> agree (set_address a s1) (set_address a s2).
Proof. intros []; split; simpl; auto. Qed.

Lemma agree_set_vueDevtools (v : option (JSValue * JSValue)) (s1 s2 : Session) :
  agree s1 s2 -> agree (set_vueDevtools v s1) (set_vueDevtools v s2).
Proof. intros []; split; simpl; auto. Qed.

Lemma agree_set_electronInspectPort (v : option JSValue) (s1 s2 : Session) :
  agree s1 s2 -> agree (set_electronInspectPort v s1) (set_electronInspectPort v s2).
Proof. intros []; split; simpl; auto. Qed.

Lemma agree_set_ctx_mode_pwa (b : bool) (s1 s2 : Session) :
  agree s1 s2 -> agree (set_ctx_mode_pwa b s1) (set_ctx_mode_pwa b s2).
Proof. intros []; split; simpl; auto. Qed.

Lemma agree_set_cachedExternalHost (v : JSValue) (s1 s2 : Session) :
  agree s1 s2 -> agree (set_cachedExternalHost v s1) (set_cachedExternalHost v s2).
Proof. intros []; split; simpl; auto. Qed.

Lemma agree_set_addressRunning (s1 s2 : Session) :
  agree s1 s2 -> agree (set_addressRunning true s1) (set_addressRunning true s2).
Proof. intros []; split; simpl; auto. Qed.

Lemma agree_set_tempFile_exists (b : bool) (s1 s2 : Session) :
  agree s1 s2 -> agree (set_tempFile_exists b s1) (set_tempFile_exists b s2).
Proof. intros []; split; simpl; auto. Qed.

Lemma agree_set_phase (b1 b2 c1 c2 : bool) (s1 s2 : Session) :
  agree s1 s2 ->
  agree (set_isFirst b1 (set_isWatching c1 s1)) (set_isFirst b2 (set_isWatching c2 s2)).
Proof. intros []; split; simpl; auto. Qed.

End Simulation.

Create HintDb same discriminated.

#[export] Hint Resolve Same_ret Same_throw Same_try_value Same_getp Same_putp
  Same_emit Sim_fail : same.
#[export] Hint Resolve agree_set_address agree_set_vueDevtools
  agree_set_electronInspectPort agree_set_ctx_mode_pwa agree_set_cachedExternalHost
  agree_set_addressRunning agree_set_tempFile_exists : same.

(** One step of a proof that follows the text of a computation. *)
Ltac same_step :=
  cbv beta zeta;
  lazymatch goal with
  | |- Sim _ _ (bind _ _) (bind _ _) => apply Sim_bind; [| intros ?]
  | |- Same _ _ (bind _ _) => apply Sim_bind; [| intros ?]
  | |- Sim _ _ (if ?b then _ else _) _ => destruct b
  | |- Same _ _ (if ?b then _ else _) => destruct b
  | |- Sim _ _ (match ?x with _ => _ end) _ => destruct x
  | |- Same _ _ (match ?x with _ => _ end) => destruct x
  | |- Same _ _ (when _ _) => apply Same_when
  | |- Sim _ _ (when ?b ?m) (when ?b ?m) => apply Same_when
  | |- Same _ _ (modify _) => apply Same_modify; intros; auto with same
  | |- Same _ _ (gets _) =>
      apply Same_gets; let H := fresh in intros ? ? H; destruct H;
      first [ congruence
            | unfold cached_address; cbv beta;
              match goal with E : address _ = address _ |- _ => rewrite E end;
              reflexivity ]
  | |- Sim _ _ (modify _) (modify _) => apply Same_modify; intros; auto with same
  | |- Sim _ _ (gets _) (gets _) =>
      apply Same_gets; let H := fresh in intros ? ? H; destruct H;
      first [ congruence
            | unfold cached_address; cbv beta;
              match goal with E : address _ = address _ |- _ => rewrite E end;
              reflexivity ]
  | |- Sim ?c ?o ?m ?m => change (Same c o m)
  | |- _ => solve [auto with same]
  end.

Ltac same := repeat same_step.

Lemma bind_assoc {A B C : Type} (m : M A) (f : A -> M B) (g : B -> M C) (s : Session) :
  bind (bind m f) g s = bind m (fun x => bind (f x) g) s.
Proof. unfold bind. destruct (m s) as [[a | k | k |] s1]; reflexivity. Qed.

Lemma bind_ret_l {A B : Type} (a : A) (f : A -> M B) (s : Session) :
  bind (ret a) f s = f a s.
Proof. reflexivity. Qed.

Lemma Sim_ext (ctx : Ctx) (opts : Opts) {A : Type} (m1 m1' m2 m2' : M A) :
  (forall s, m1 s = m1' s) -> (forall s, m2 s = m2' s) ->
  Sim ctx opts m1' m2' -> Sim ctx opts m1 m2.
Proof. intros H1 H2 H s1 s2 Hs. rewrite H1, H2. apply H, Hs. Qed.

Ltac reassociate :=
  eapply Sim_ext; [intros; apply bind_assoc | intros; apply bind_assoc |].

Section SimulationOfPasses.

Variable host : Host.
Variable ctx : Ctx.
Variable opts : Opts.
Variable w : World.

#[local] Abbreviation Same := (Same ctx opts).
#[local] Abbreviation Sim := (Sim ctx opts).

Lemma Same_warn msg : Same (warn msg).
Proof. apply Same_emit. Qed.

Lemma Same_log msg : Same (log msg).
Proof. apply Same_emit. Qed.

Lemma Same_tip msg : Same (tip msg).
Proof. apply Same_emit. Qed.

#[local] Hint Resolve Same_warn Same_log Same_tip : same.

Lemma Same_removeTempFile : Same removeTempFile.
Proof. unfold removeTempFile. same. Qed.

Lemma Same_asset_chain prefix v : Same (asset_chain prefix v).
Proof. unfold asset_chain. same. Qed.

Lemma Same_update_if_nonempty k f cfg :
  (forall v, Same (f v)) -> Same (update_if_nonempty k f cfg).
Proof. intros H. unfold update_if_nonempty. same. Qed.

Lemma Same_object_assign target source : Same (object_assign target source).
Proof. unfold object_assign. same. Qed.

Lemma Same_array_includes v x : Same (array_includes v x).
Proof. unfold array_includes. same. Qed.

Lemma Same_as_path v : Same (as_path v).
Proof. unfold as_path. same. Qed.

Lemma Same_unique_prop k o : Same (unique_prop k o).
Proof. unfold unique_prop. same. Qed.

Lemma Same_push_spinner x framework : Same (push_spinner host x framework).
Proof. unfold push_spinner. same. Qed.

Lemma Same_vendor_regexp v : Same (vendor_regexp host v).
Proof. unfold vendor_regexp. same. Qed.

Lemma Same_cfg_ctx_prop cfg k v : Same (cfg_ctx_prop cfg k v).
Proof. unfold cfg_ctx_prop. same. Qed.

Lemma Same_userCfg_electron userCfg k : Same (userCfg_electron userCfg k).
Proof. unfold userCfg_electron. same. Qed.

#[local] Hint Resolve Same_update_if_nonempty : same.
#[local] Hint Resolve Same_removeTempFile Same_asset_chain Same_object_assign
  Same_array_includes Same_as_path Same_unique_prop Same_push_spinner
  Same_vendor_regexp Same_cfg_ctx_prop Same_userCfg_electron : same.

Lemma Same_run_hooks hooks raw : Same (run_hooks hooks raw).
Proof.
  revert raw. induction hooks as [| h hooks IH]; intros raw; simpl.
  - apply Same_ret.
  - same.
Qed.

Lemma Same_read_certificates props options : Same (read_certificates w props options).
Proof.
  revert options. induction props as [| k props IH]; intros options; simpl.
  - apply Same_ret.
  - same.
Qed.

#[local] Hint Resolve Same_run_hooks Same_read_certificates : same.

Lemma Sim_pass_merge userCfg :
  Sim (pass_merge ctx w true userCfg) (pass_merge ctx w false userCfg).
Proof. unfold pass_merge. same. Qed.

Lemma Same_pass_ssr_defaults cfg : Same (pass_ssr_defaults ctx cfg).
Proof. unfold pass_ssr_defaults. same. Qed.

Lemma Same_pass_asset_lists cfg : Same (pass_asset_lists cfg).
Proof. unfold pass_asset_lists. same. Qed.

Lemma Same_pass_framework cfg : Same (pass_framework host cfg).
Proof. unfold pass_framework. same. Qed.

Lemma Same_pass_eslint cfg : Same (pass_eslint cfg).
Proof. unfold pass_eslint. same. Qed.

Lemma Same_pass_build cfg : Same (pass_build host ctx cfg).
Proof. unfold pass_build. same. Qed.

Lemma Same_pass_vendor cfg : Same (pass_vendor host cfg).
Proof. unfold pass_vendor. same. Qed.

Lemma Same_pass_transpile_targets cfg : Same (pass_transpile_targets host cfg).
Proof. unfold pass_transpile_targets. same. Qed.

Lemma Same_pass_router_mode_distDir cfg : Same (pass_router_mode_distDir host ctx cfg).
Proof. unfold pass_router_mode_distDir. same. Qed.

Lemma Same_pass_publicPath cfg : Same (pass_publicPath ctx cfg).
Proof. unfold pass_publicPath. same. Qed.

Lemma Sim_pass_sourceFiles cfg :
  Sim (pass_sourceFiles ctx w true cfg) (pass_sourceFiles ctx w false cfg).
Proof. unfold pass_sourceFiles. same. Qed.

Lemma Same_pass_devServer_server cfg : Same (pass_devServer_server ctx w cfg).
Proof. unfold pass_devServer_server. same. Qed.

Lemma Same_pass_ssr cfg : Same (pass_ssr ctx cfg).
Proof. unfold pass_ssr. same. Qed.

Lemma Same_pass_dev cfg : Same (pass_dev host ctx w cfg).
Proof. unfold pass_dev, dev_devServer, dev_vueDevtools, dev_open. same. Qed.

Lemma Same_pass_gzip cfg : Same (pass_gzip host cfg).
Proof. unfold pass_gzip. same. Qed.

Lemma Sim_pass_pwa_bex cfg :
  Sim (pass_pwa_bex host ctx w true cfg) (pass_pwa_bex host ctx w false cfg).
Proof. unfold pass_pwa_bex. same. Qed.

Lemma Same_pass_app_url cfg : Same (pass_app_url host ctx cfg).
Proof. unfold pass_app_url. same. Qed.

Lemma Same_pass_env cfg : Same (pass_env ctx w cfg).
Proof. unfold pass_env. same. Qed.

Lemma Same_pass_electron userCfg cfg : Same (pass_electron host ctx w userCfg cfg).
Proof. unfold pass_electron. same. Qed.

Lemma Same_pass_htmlVariables cfg : Same (pass_htmlVariables ctx cfg).
Proof. unfold pass_htmlVariables. same. Qed.


Lemma Same_devServer_host_port cfg : Same (devServer_host_port ctx opts cfg).
Proof. unfold devServer_host_port. same. Qed.

(** Where the two runs part: [onAddress] ends the process when no
    address was ever bound, and answers [null] otherwise, which the
    caller turns into a failure. *)
Lemma Sim_not_running {B : Type} (k1 k2 : option (JSValue * JSValue) -> M B)
      (msg more : string) :
  negotiates ctx opts = true ->
  k1 None = fail true NetworkError msg more ->
  k2 None = fail false NetworkError msg more ->
  Sim (bind (running <- gets addressRunning ;;
             if negb running then emit EProcessExit ;; exit NetworkError
             else ret None) k1)
      (bind (running <- gets addressRunning ;;
             if negb running then emit EProcessExit ;; exit NetworkError
             else ret None) k2).
Proof.
  intros Hn H1 H2 s1 s2 Hs.
  unfold bind at 1 2 4 5. unfold gets.
  rewrite (agree_running _ _ _ _ Hs Hn).
  destruct (addressRunning s1); cbn [negb].
  - rewrite !bind_ret_l || cbn [ret]. rewrite H1, H2. apply Sim_fail, Hs.
  - cbn [ret]. rewrite H2. destruct Hs as [? ? ? ? ? Ht Htr ?].
    unfold outcomes_match. simpl.
    split; [reflexivity |]. split; [exact Ht |].
    exists (trace s2), EProcessExit, (msg ++ more).
    rewrite Htr. repeat split. now left.
Qed.

Lemma Sim_after_onAddress {B : Type} (h p : JSValue) (mode : string)
      (k1 k2 : option (JSValue * JSValue) -> M B) (msg more : string) :
  negotiates ctx opts = true ->
  k1 None = fail true NetworkError msg more ->
  k2 None = fail false NetworkError msg more ->
  (forall x, Sim (k1 (Some x)) (k2 (Some x))) ->
  Sim (bind (onAddress host w h p mode) k1) (bind (onAddress host w h p mode) k2).
Proof.
  intros Hn H1 H2 Hk. unfold onAddress.
  reassociate. apply Sim_bind; [unfold external_host; same | intros h'].
  reassociate. apply Sim_bind; [same | intros _].
  destruct (findClosestOpenPort w p h') as [openPort | | |].
  - reassociate. apply Sim_bind; [same | intros _].
    reassociate. apply Sim_bind; [same | intros _].
    eapply Sim_ext; [intros; apply bind_ret_l | intros; apply bind_ret_l |].
    apply Hk.
  - reassociate. apply Sim_bind; [same | intros _].
    reassociate. apply Sim_bind; [same | intros _].
    reassociate. apply Sim_bind; [same | intros _].
    apply (Sim_not_running k1 k2 msg more Hn H1 H2).
  - reassociate. apply Sim_bind; [same | intros _].
    reassociate. apply Sim_bind; [same | intros _].
    reassociate. apply Sim_bind; [same | intros _].
    apply (Sim_not_running k1 k2 msg more Hn H1 H2).
  - reassociate. apply Sim_bind; [same | intros _].
    reassociate. apply Sim_bind; [same | intros _].
    reassociate. apply Sim_bind; [same | intros _].
    apply (Sim_not_running k1 k2 msg more Hn H1 H2).
Qed.

Lemma Sim_negotiate_address cfg devServer :
  ctx_dev ctx && negb (ctx_mode_bex ctx) = true ->
  Sim (negotiate_address host ctx opts w true cfg devServer)
      (negotiate_address host ctx opts w false cfg devServer).
Proof.
  intros Hdev. unfold negotiate_address.
  apply Sim_bind; [same | intros h].
  apply Sim_bind; [same | intros p].
  apply Sim_bind; [same | intros cached].
  destruct cached as [a |]; [same |].
  destruct (opt_verifyAddress opts) eqn:Hv.
  - eapply Sim_after_onAddress; [| reflexivity | reflexivity | intros [to_h to_p]; same].
    unfold negotiates. now rewrite Hdev, Hv.
  - same.
Qed.

Lemma Sim_pass_devServer_address cfg :
  Sim (pass_devServer_address host ctx opts w true cfg)
      (pass_devServer_address host ctx opts w false cfg).
Proof.
  unfold pass_devServer_address.
  destruct (ctx_dev ctx && negb (ctx_mode_bex ctx)) eqn:Hdev; [| same].
  apply Sim_bind; [apply Same_devServer_host_port | intros devServer].
  apply Sim_negotiate_address, Hdev.
Qed.

(** The derivation of a first cycle and of a later cycle, side by side. *)
Lemma Sim_derive userCfg :
  Sim (derive host ctx opts w userCfg true) (derive host ctx opts w userCfg false).
Proof.
  unfold derive.
  apply Sim_bind; [apply Sim_pass_merge | intros ?].
  apply Sim_bind; [apply Same_pass_ssr_defaults | intros ?].
  apply Sim_bind; [apply Sim_pass_devServer_address | intros ?].
  apply Sim_bind; [apply Same_pass_asset_lists | intros ?].
  apply Sim_bind; [apply Same_pass_framework | intros ?].
  apply Sim_bind; [apply Same_pass_eslint | intros ?].
  apply Sim_bind; [apply Same_pass_build | intros ?].
  apply Sim_bind; [apply Same_pass_vendor | intros ?].
  apply Sim_bind; [apply Same_pass_transpile_targets | intros ?].
  apply Sim_bind; [apply Same_pass_router_mode_distDir | intros ?].
  apply Sim_bind; [apply Same_pass_publicPath | intros ?].
  apply Sim_bind; [apply Sim_pass_sourceFiles | intros ?].
  apply Sim_bind; [apply Same_pass_devServer_server | intros ?].
  apply Sim_bind; [apply Same_pass_ssr | intros ?].
  apply Sim_bind; [apply Same_pass_dev | intros ?].
  apply Sim_bind; [apply Same_pass_gzip | intros ?].
  apply Sim_bind; [apply Sim_pass_pwa_bex | intros ?].
  apply Sim_bind; [apply Same_pass_app_url | intros ?].
  apply Sim_bind; [apply Same_pass_env | intros ?].
  apply Sim_bind; [apply Same_pass_electron | intros ?].
  apply Same_pass_htmlVariables.
Qed.

Lemma Sim_computeConfig quasarConfigFn :
  Sim (computeConfig host ctx opts w quasarConfigFn true)
      (computeConfig host ctx opts w quasarConfigFn false).
Proof.
  unfold computeConfig.
  destruct quasarConfigFn as [| [| userCfg]].
  - same.
  - same.
  - destruct (negb (is_object userCfg)); [same |].
    apply Sim_bind; [same | intros _]. apply Sim_derive.
Qed.

End SimulationOfPasses.

(** ** What a derivation leaves alone *)

(** An effect that delivers nothing to the caller. *)
Definition internal (e : Effect) : bool :=
  match e with
  | EFirstBuildIsDone _ | EWatchCallback _ => false
  | _ => true
  end.

Definition extends (t t' : list Effect) : Prop :=
  exists new, t' = (t ++ new)%list /\ forallb internal new = true.

Lemma extends_refl t : extends t t.
Proof. exists []. split; [now rewrite app_nil_r | reflexivity]. Qed.

Lemma extends_trans t1 t2 t3 : extends t1 t2 -> extends t2 t3 -> extends t1 t3.
Proof.
  intros (n1 & -> & H1) (n2 & -> & H2). exists (n1 ++ n2)%list.
  split; [now rewrite app_assoc | rewrite forallb_app, H1, H2; reflexivity].
Qed.

Lemma extends_one t e : internal e = true -> extends t (t ++ [e])%list.
Proof. intros H. exists [e]. split; [reflexivity | simpl; now rewrite H]. Qed.

(** [quiet s s']: from [s] to [s'] the phase, the temporary file, the
    address cache and [addressRunning] stayed as they were, and nothing
    was delivered. *)
Record quiet (s s' : Session) : Prop := {
  quiet_isFirst : isFirst s' = isFirst s;
  quiet_isWatching : isWatching s' = isWatching s;
  quiet_tempFile : tempFile_exists s' = tempFile_exists s;
  quiet_address : address s' = address s;
  quiet_running : addressRunning s' = addressRunning s;
  quiet_trace : extends (trace s) (trace s')
}.

(** [steady s s']: as [quiet], but an address may have been bound. *)
Record steady (s s' : Session) : Prop := {
  steady_isFirst : isFirst s' = isFirst s;
  steady_isWatching : isWatching s' = isWatching s;
  steady_tempFile : tempFile_exists s' = tempFile_exists s;
  steady_address : address s <> None -> address s' <> None;
  steady_running : addressRunning s = true -> addressRunning s' = true;
  steady_trace : extends (trace s) (trace s')
}.

Lemma quiet_refl s : quiet s s.
Proof. split; auto using extends_refl. Qed.

Lemma quiet_trans a b c : quiet a b -> quiet b c -> quiet a c.
Proof.
  intros [] []; split; try congruence. eapply extends_trans; eassumption.
Qed.

Lemma steady_refl s : steady s s.
Proof. split; auto using extends_refl. Qed.

Lemma steady_trans a b c : steady a b -> steady b c -> steady a c.
Proof.
  intros [] []; split; try congruence; auto. eapply extends_trans; eassumption.
Qed.

Lemma quiet_steady s s' : quiet s s' -> steady s s'.
Proof. intros []; split; auto; congruence. Qed.

Section Preserved.

Variable T : Session -> Session -> Prop.
Hypothesis T_refl : forall s, T s s.
Hypothesis T_trans : forall a b c, T a b -> T b c -> T a c.

(** Whatever its outcome, [m] takes a state to a [T]-related one. *)
Definition Preserves {A : Type} (m : M A) : Prop :=
  forall s, T s (snd (m s)).

Lemma Preserves_ret {A : Type} (a : A) : Preserves (ret a).
Proof. intros s. apply T_refl. Qed.

Lemma Preserves_throw {A : Type} : Preserves (@throw A).
Proof. intros s. apply T_refl. Qed.

Lemma Preserves_bail {A : Type} (k : ErrorKind) : Preserves (@bail A k).
Proof. intros s. apply T_refl. Qed.

Lemma Preserves_exit {A : Type} (k : ErrorKind) : Preserves (@exit A k).
Proof. intros s. apply T_refl. Qed.

Lemma Preserves_try_value {A : Type} (o : option A) : Preserves (try_value o).
Proof. destruct o; [apply Preserves_ret | apply Preserves_throw]. Qed.

Lemma Preserves_gets {A : Type} (f : Session -> A) : Preserves (gets f).
Proof. intros s. apply T_refl. Qed.

Lemma Preserves_bind {A B : Type} (m : M A) (f : A -> M B) :
  Preserves m -> (forall a, Preserves (f a)) -> Preserves (bind m f).
Proof.
  intros Hm Hf s. specialize (Hm s). unfold bind.
  destruct (m s) as [[a | k | k |] s1]; simpl in *; try exact Hm.
  eapply T_trans; [exact Hm | apply Hf].
Qed.

Lemma Preserves_modify (f : Session -> Session) :
  (forall s, T s (f s)) -> Preserves (modify f).
Proof. intros H s. apply H. Qed.

Lemma Preserves_emit (e : Effect) :
  (forall s, T s (add_effect e s)) -> Preserves (emit e).
Proof. intros H s. apply H. Qed.

Lemma Preserves_when (b : bool) (m : M unit) : Preserves m -> Preserves (when b m).
Proof. intros H. destruct b; [exact H | apply Preserves_ret]. Qed.

End Preserved.

Lemma quiet_add_effect e s : internal e = true -> quiet s (add_effect e s).
Proof. intros H. split; try reflexivity. simpl. now apply extends_one. Qed.

Lemma quiet_set_vueDevtools v s : quiet s (set_vueDevtools v s).
Proof. split; try reflexivity. apply extends_refl. Qed.

Lemma quiet_set_electronInspectPort v s : quiet s (set_electronInspectPort v s).
Proof. split; try reflexivity. apply extends_refl. Qed.

Lemma quiet_set_ctx_mode_pwa b s : quiet s (set_ctx_mode_pwa b s).
Proof. split; try reflexivity. apply extends_refl. Qed.

Lemma quiet_set_cachedExternalHost v s : quiet s (set_cachedExternalHost v s).
Proof. split; try reflexivity. apply extends_refl. Qed.

Lemma steady_add_effect e s : internal e = true -> steady s (add_effect e s).
Proof. intros H. apply quiet_steady, quiet_add_effect, H. Qed.

Lemma steady_set_address a s : steady s (set_address (Some a) s).
Proof. split; try reflexivity; auto using extends_refl. simpl. discriminate. Qed.

Lemma steady_set_addressRunning s : steady s (set_addressRunning true s).
Proof. split; try reflexivity; auto using extends_refl. Qed.

Create HintDb keep discriminated.

#[export] Hint Resolve quiet_refl quiet_trans steady_refl steady_trans : keep.
#[export] Hint Resolve quiet_add_effect quiet_set_vueDevtools
  quiet_set_electronInspectPort quiet_set_ctx_mode_pwa quiet_set_cachedExternalHost
  steady_add_effect steady_set_address steady_set_addressRunning : keep.
#[export] Hint Resolve quiet_steady : keep.

Lemma Quiet_Steady {A : Type} (m : M A) : Preserves quiet m -> Preserves steady m.
Proof. intros H s. apply quiet_steady, H. Qed.

(** One step of a proof that follows the text of a computation. *)
Ltac keep_step :=
  cbv beta zeta;
  lazymatch goal with
  | |- Preserves _ (bind _ _) =>
      apply Preserves_bind; [solve [eauto with keep] | | intros ?]
  | |- Preserves _ (if ?b then _ else _) => destruct b
  | |- Preserves _ (match ?x with _ => _ end) => destruct x
  | |- Preserves _ (ret _) => apply Preserves_ret; solve [eauto with keep]
  | |- Preserves _ throw => apply Preserves_throw; solve [eauto with keep]
  | |- Preserves _ (bail _) => apply Preserves_bail; solve [eauto with keep]
  | |- Preserves _ (exit _) => apply Preserves_exit; solve [eauto with keep]
  | |- Preserves _ (try_value _) => apply Preserves_try_value; solve [eauto with keep]
  | |- Preserves _ (getp _ _) => apply Preserves_try_value; solve [eauto with keep]
  | |- Preserves _ (putp _ _ _) => apply Preserves_try_value; solve [eauto with keep]
  | |- Preserves _ (gets _) => apply Preserves_gets; solve [eauto with keep]
  | |- Preserves _ (when _ _) => apply Preserves_when; [solve [eauto with keep] |]
  | |- Preserves _ (modify _) => apply Preserves_modify; intros; solve [eauto with keep]
  | |- Preserves _ (emit _) =>
      apply Preserves_emit; intros; solve [eauto with keep]
  | |- Preserves _ (warn _) => apply Preserves_emit; intros; solve [eauto with keep]
  | |- Preserves _ (log _) => apply Preserves_emit; intros; solve [eauto with keep]
  | |- Preserves _ (tip _) => apply Preserves_emit; intros; solve [eauto with keep]
  | |- Preserves _ (fatal _ _) => unfold fatal
  | |- Preserves _ (fail _ _ _ _) => unfold fail
  | |- _ => solve [eauto with keep]
  end.

Ltac keep := repeat keep_step.

Section QuietPasses.

Variable host : Host.
Variable ctx : Ctx.
Variable opts : Opts.
Variable w : World.

Lemma Quiet_try_value {A : Type} (o : option A) : Preserves quiet (try_value o).
Proof. keep. Qed.

#[local] Hint Resolve Quiet_try_value : keep.

Lemma Quiet_removeTempFile_free {A : Type} (failOnError : bool) (k : ErrorKind)
      (msg more : string) :
  Preserves quiet (@fail A failOnError k msg more).
Proof. keep. Qed.

Lemma Quiet_asset_chain prefix v : Preserves quiet (asset_chain prefix v).
Proof. unfold asset_chain. keep. Qed.

Lemma Quiet_object_assign target source : Preserves quiet (object_assign target source).
Proof. unfold object_assign. keep. Qed.

Lemma Quiet_array_includes v x : Preserves quiet (array_includes v x).
Proof. unfold array_includes. keep. Qed.

Lemma Quiet_as_path v : Preserves quiet (as_path v).
Proof. unfold as_path. keep. Qed.

Lemma Quiet_unique_prop k o : Preserves quiet (unique_prop k o).
Proof. unfold unique_prop. keep. Qed.

Lemma Quiet_push_spinner x framework : Preserves quiet (push_spinner host x framework).
Proof. unfold push_spinner. keep. Qed.

Lemma Quiet_vendor_regexp v : Preserves quiet (vendor_regexp host v).
Proof. unfold vendor_regexp. keep. Qed.

Lemma Quiet_cfg_ctx_prop cfg k v : Preserves quiet (cfg_ctx_prop cfg k v).
Proof. unfold cfg_ctx_prop. keep. Qed.

Lemma Quiet_userCfg_electron userCfg k : Preserves quiet (userCfg_electron userCfg k).
Proof. unfold userCfg_electron. keep. Qed.

Lemma Quiet_update_if_nonempty k f cfg :
  (forall v, Preserves quiet (f v)) -> Preserves quiet (update_if_nonempty k f cfg).
Proof. intros H. unfold update_if_nonempty. keep. Qed.

#[local] Hint Resolve Quiet_asset_chain Quiet_object_assign Quiet_array_includes Quiet_as_path Quiet_unique_prop Quiet_push_spinner Quiet_vendor_regexp Quiet_cfg_ctx_prop Quiet_userCfg_electron Quiet_update_if_nonempty
  Quiet_removeTempFile_free : keep.

Lemma Quiet_run_hooks hooks raw : Preserves quiet (run_hooks hooks raw).
Proof.
  revert raw. induction hooks as [| h hooks IH]; intros raw; simpl; keep.
Qed.

Lemma Quiet_read_certificates props options :
  Preserves quiet (read_certificates w props options).
Proof.
  revert options. induction props as [| k props IH]; intros options; simpl; keep.
Qed.

#[local] Hint Resolve Quiet_run_hooks Quiet_read_certificates : keep.

Lemma Quiet_pass_merge failOnError userCfg :
  Preserves quiet (pass_merge ctx w failOnError userCfg).
Proof. unfold pass_merge. keep. Qed.

Lemma Quiet_pass_ssr_defaults cfg : Preserves quiet (pass_ssr_defaults ctx cfg).
Proof. unfold pass_ssr_defaults. keep. Qed.

Lemma Quiet_pass_asset_lists cfg : Preserves quiet (pass_asset_lists cfg).
Proof. unfold pass_asset_lists. keep. Qed.

Lemma Quiet_pass_framework cfg : Preserves quiet (pass_framework host cfg).
Proof. unfold pass_framework. keep. Qed.

Lemma Quiet_pass_eslint cfg : Preserves quiet (pass_eslint cfg).
Proof. unfold pass_eslint. keep. Qed.

Lemma Quiet_pass_build cfg : Preserves quiet (pass_build host ctx cfg).
Proof. unfold pass_build. keep. Qed.

Lemma Quiet_pass_vendor cfg : Preserves quiet (pass_vendor host cfg).
Proof. unfold pass_vendor. keep. Qed.

Lemma Quiet_pass_transpile_targets cfg : Preserves quiet (pass_transpile_targets host cfg).
Proof. unfold pass_transpile_targets. keep. Qed.

Lemma Quiet_pass_router_mode_distDir cfg : Preserves quiet (pass_router_mode_distDir host ctx cfg).
Proof. unfold pass_router_mode_distDir. keep. Qed.

Lemma Quiet_pass_publicPath cfg : Preserves quiet (pass_publicPath ctx cfg).
Proof. unfold pass_publicPath. keep. Qed.

Lemma Quiet_pass_sourceFiles failOnError cfg : Preserves quiet (pass_sourceFiles ctx w failOnError cfg).
Proof. unfold pass_sourceFiles. keep. Qed.

Lemma Quiet_pass_devServer_server cfg : Preserves quiet (pass_devServer_server ctx w cfg).
Proof. unfold pass_devServer_server. keep. Qed.

Lemma Quiet_pass_ssr cfg : Preserves quiet (pass_ssr ctx cfg).
Proof. unfold pass_ssr. keep. Qed.

Lemma Quiet_pass_dev cfg : Preserves quiet (pass_dev host ctx w cfg).
Proof. unfold pass_dev, dev_devServer, dev_vueDevtools, dev_open. keep. Qed.

Lemma Quiet_pass_gzip cfg : Preserves quiet (pass_gzip host cfg).
Proof. unfold pass_gzip. keep. Qed.

Lemma Quiet_pass_pwa_bex failOnError cfg : Preserves quiet (pass_pwa_bex host ctx w failOnError cfg).
Proof. unfold pass_pwa_bex. keep. Qed.

Lemma Quiet_pass_app_url cfg : Preserves quiet (pass_app_url host ctx cfg).
Proof. unfold pass_app_url. keep. Qed.

Lemma Quiet_pass_env cfg : Preserves quiet (pass_env ctx w cfg).
Proof. unfold pass_env. keep. Qed.

Lemma Quiet_pass_electron userCfg cfg : Preserves quiet (pass_electron host ctx w userCfg cfg).
Proof. unfold pass_electron. keep. Qed.

Lemma Quiet_pass_htmlVariables cfg : Preserves quiet (pass_htmlVariables ctx cfg).
Proof. unfold pass_htmlVariables. keep. Qed.

Lemma Quiet_devServer_host_port cfg : Preserves quiet (devServer_host_port ctx opts cfg).
Proof. unfold devServer_host_port. keep. Qed.

Lemma Quiet_external_host h mode : Preserves quiet (external_host host w h mode).
Proof. unfold external_host. keep. Qed.

Lemma Steady_onAddress h p mode : Preserves steady (onAddress host w h p mode).
Proof.
  unfold onAddress.
  apply Preserves_bind; [exact steady_trans | | intros ?].
  - apply Quiet_Steady, Quiet_external_host.
  - keep.
Qed.

#[local] Hint Resolve Steady_onAddress : keep.

Lemma Steady_negotiate_address failOnError cfg devServer :
  Preserves steady (negotiate_address host ctx opts w failOnError cfg devServer).
Proof. unfold negotiate_address. keep. Qed.

Lemma Steady_pass_devServer_address failOnError cfg :
  Preserves steady (pass_devServer_address host ctx opts w failOnError cfg).
Proof.
  unfold pass_devServer_address.
  destruct (ctx_dev ctx && negb (ctx_mode_bex ctx)); [| keep].
  apply Preserves_bind; [exact steady_trans | | intros ?].
  - apply Quiet_Steady, Quiet_devServer_host_port.
  - apply Steady_negotiate_address.
Qed.

End QuietPasses.

Lemma bind_try_Some {A B : Type} (a : A) (f : A -> M B) (s : Session) :
  bind (try_value (Some a)) f s = f a s.
Proof. reflexivity. Qed.

Lemma bind_gets {A B : Type} (g : Session -> A) (f : A -> M B) (s : Session) :
  bind (gets g) f s = f (g s) s.
Proof. reflexivity. Qed.

Lemma bind_run {A B : Type} (m : M A) (f : A -> M B) (s s1 : Session) (o : Outcome A) :
  m s = (o, s1) ->
  bind m f s = match o with
               | Ret a => f a s1
               | Bail k => (Bail k, s1)
               | Exit k => (Exit k, s1)
               | Throw => (Throw, s1)
               end.
Proof. intros H. unfold bind. rewrite H. reflexivity. Qed.

(** ** Address negotiation *)

Section AddressFacts.

Variable host : Host.
Variable ctx : Ctx.
Variable opts : Opts.
Variable w : World.

(** [onAddress] leaves the cache alone and never clears
    [addressRunning]; when it answers with a pair, an address is bound. *)
Lemma onAddress_result (h p : JSValue) (mode : string) (s s1 : Session)
      (o : Outcome (option (JSValue * JSValue))) :
  onAddress host w h p mode s = (o, s1) ->
  address s1 = address s
  /\ (addressRunning s = true -> addressRunning s1 = true)
  /\ (forall x, o = Ret (Some x) -> addressRunning s1 = true).
Proof.
  unfold onAddress, bind.
  pose proof (Quiet_external_host host w h mode s) as Hq.
  destruct (external_host host w h mode s) as [[h' | k | k |] s0]; simpl in Hq;
    destruct Hq as [_ _ _ Ha Hr _];
    try (intros H; injection H as <- <-;
         repeat split; [assumption | congruence | discriminate]).
  unfold emit, when, warn, modify, gets, ret, exit, bind.
  destruct (findClosestOpenPort w p h') as [openPort | | |]; cbn.
  - destruct (strict_equals p openPort); cbn; intros H; injection H as <- <-;
      repeat split; auto.
  - destruct (addressRunning s0) eqn:E; cbn; intros H; injection H as <- <-; cbn;
      (repeat split; [assumption | congruence | discriminate]).
  - destruct (addressRunning s0) eqn:E; cbn; intros H; injection H as <- <-; cbn;
      (repeat split; [assumption | congruence | discriminate]).
  - destruct (addressRunning s0) eqn:E; cbn; intros H; injection H as <- <-; cbn;
      (repeat split; [assumption | congruence | discriminate]).
Qed.

(** Whenever the session probes, a cached binding was bound by a probe
    that succeeded. *)
Definition bound_runs (s : Session) : Prop :=
  opt_verifyAddress opts = true -> address s <> None -> addressRunning s = true.

Definition keeps_bound (s s' : Session) : Prop := bound_runs s -> bound_runs s'.

Lemma keeps_bound_refl s : keeps_bound s s.
Proof. intros H. exact H. Qed.

Lemma keeps_bound_trans a b c : keeps_bound a b -> keeps_bound b c -> keeps_bound a c.
Proof. unfold keeps_bound. auto. Qed.

Lemma quiet_keeps_bound s s' : quiet s s' -> keeps_bound s s'.
Proof.
  intros [_ _ _ Ha Hr _] H Hv Hsome. rewrite Hr. apply H; [exact Hv | congruence].
Qed.

Lemma negotiate_address_result failOnError cfg devServer (s : Session) :
  let r := negotiate_address host ctx opts w failOnError cfg devServer s in
  keeps_bound s (snd r) /\ (forall c, fst r = Ret c -> address (snd r) <> None).
Proof.
  cbv zeta. unfold negotiate_address, getp, putp.
  destruct (prop devServer "host") as [h |];
    [rewrite !bind_try_Some | split; [apply keeps_bound_refl | discriminate]].
  destruct (prop devServer "port") as [p |];
    [rewrite !bind_try_Some | split; [apply keeps_bound_refl | discriminate]].
  rewrite !bind_gets.
  destruct (cached_address s h p) as [a |] eqn:Hc.
  - assert (Hsome : address s <> None).
    { unfold cached_address in Hc. destruct (address s); discriminate. }
    destruct (put devServer "host" (to_host a)) as [d1 |];
      [rewrite !bind_try_Some | split; [apply keeps_bound_refl | discriminate]].
    destruct (put d1 "port" (to_port a)) as [d2 |];
      [rewrite !bind_try_Some | split; [apply keeps_bound_refl | discriminate]].
    split; [apply keeps_bound_refl | intros; assumption].
  - destruct (opt_verifyAddress opts) eqn:Hv.
    + destruct (onAddress host w h p (ctx_modeName ctx) s)
        as [[[[to_h to_p] |] | k | k |] s1] eqn:Eon;
        destruct (onAddress_result _ _ _ _ _ _ Eon) as (Ha & Hmono & Hsome);
        rewrite !(bind_run _ _ _ _ _ Eon).
      * specialize (Hsome _ eq_refl).
        assert (Hk : forall s', addressRunning s' = true -> keeps_bound s s')
          by (intros s' H _ _ _; exact H).
        destruct (merge (JObj [("open", JBool true)])
                    [devServer; JObj [("host", to_h); ("port", to_p)]]) as [d |];
          [rewrite !bind_try_Some | split; [apply Hk, Hsome | discriminate]].
        destruct (prop d "host") as [h' |];
          [rewrite !bind_try_Some | split; [apply Hk, Hsome | discriminate]].
        destruct (prop d "port") as [p' |];
          [rewrite !bind_try_Some | split; [apply Hk, Hsome | discriminate]].
        split; [apply Hk, Hsome | intros; discriminate].
      * assert (Hk : keeps_bound s s1).
        { intros H Hv' Hn. apply Hmono, H; [exact Hv' | congruence]. }
        destruct failOnError; cbn; (split; [exact Hk | discriminate]).
      * split; [| discriminate]. intros H Hv' Hn. cbn [snd] in Hn |- *.
        apply Hmono, H; [exact Hv' | congruence].
      * split; [| discriminate]. intros H Hv' Hn. cbn [snd] in Hn |- *.
        apply Hmono, H; [exact Hv' | congruence].
      * split; [| discriminate]. intros H Hv' Hn. cbn [snd] in Hn |- *.
        apply Hmono, H; [exact Hv' | congruence].
    + assert (Hany : forall s', keeps_bound s s').
      { intros s' _ Hv'. congruence. }
      rewrite !bind_ret_l.
      destruct (merge (JObj [("open", JBool true)])
                  [devServer; JObj [("host", h); ("port", p)]]) as [d |];
        [rewrite !bind_try_Some | split; [apply Hany | discriminate]].
      destruct (prop d "host") as [h' |];
        [rewrite !bind_try_Some | split; [apply Hany | discriminate]].
      destruct (prop d "port") as [p' |];
        [rewrite !bind_try_Some | split; [apply Hany | discriminate]].
      split; [apply Hany | intros; discriminate].
Qed.

End AddressFacts.

#[export] Hint Resolve Quiet_Steady Quiet_try_value Quiet_pass_merge
  Quiet_pass_ssr_defaults Quiet_pass_asset_lists Quiet_pass_framework Quiet_pass_eslint
  Quiet_pass_build Quiet_pass_vendor Quiet_pass_transpile_targets
  Quiet_pass_router_mode_distDir Quiet_pass_publicPath Quiet_pass_sourceFiles
  Quiet_pass_devServer_server Quiet_pass_ssr Quiet_pass_dev Quiet_pass_gzip
  Quiet_pass_pwa_bex Quiet_pass_app_url Quiet_pass_env Quiet_pass_electron
  Quiet_pass_htmlVariables Quiet_devServer_host_port Steady_pass_devServer_address
  : keep.

Ltac bind_inv H :=
  let a := fresh "a" in
  let s := fresh "s" in
  let E := fresh "E" in
  apply bind_Ret_inv in H; destruct H as (a & s & E & H).

(** ** A whole derivation *)

Section DeriveFacts.

Variable host : Host.
Variable ctx : Ctx.
Variable opts : Opts.
Variable w : World.

(** A derivation delivers nothing, keeps the phase and the temporary
    file, and never forgets a binding. *)
Lemma Steady_derive userCfg failOnError :
  Preserves steady (derive host ctx opts w userCfg failOnError).
Proof. unfold derive. keep. Qed.

Lemma Quiet_keeps_bound {A : Type} (m : M A) :
  Preserves quiet m -> Preserves (keeps_bound opts) m.
Proof. intros H s. apply quiet_keeps_bound, H. Qed.

Lemma keeps_bound_pass_devServer_address failOnError cfg :
  Preserves (keeps_bound opts) (pass_devServer_address host ctx opts w failOnError cfg).
Proof.
  unfold pass_devServer_address.
  destruct (ctx_dev ctx && negb (ctx_mode_bex ctx)).
  - apply Preserves_bind; [apply keeps_bound_trans | | intros devServer].
    + apply Quiet_keeps_bound, Quiet_devServer_host_port.
    + intros s. apply (negotiate_address_result host ctx opts w).
  - intros s. apply keeps_bound_refl.
Qed.

Lemma keeps_bound_derive userCfg failOnError :
  Preserves (keeps_bound opts) (derive host ctx opts w userCfg failOnError).
Proof.
  unfold derive.
  repeat lazymatch goal with
    | |- Preserves _ (bind _ _) =>
        apply Preserves_bind; [apply keeps_bound_trans | | intros ?]
    | |- Preserves _ (pass_devServer_address _ _ _ _ _ _) =>
        apply keeps_bound_pass_devServer_address
    | |- Preserves _ _ => apply Quiet_keeps_bound; solve [auto with keep]
    end.
Qed.

(** A derivation that returns, in a mode with a dev server, leaves an
    address bound. *)
Lemma derive_binds_address userCfg failOnError (s s' : Session) (cfg : Fields) :
  ctx_dev ctx && negb (ctx_mode_bex ctx) = true ->
  derive host ctx opts w userCfg failOnError s = (Ret cfg, s') ->
  address s' <> None.
Proof.
  intros Hdev H. unfold derive in H.
  bind_inv H. bind_inv H. bind_inv H.
  assert (Hbound : address s2 <> None).
  { unfold pass_devServer_address in E1. rewrite Hdev in E1.
    bind_inv E1.
    pose proof (negotiate_address_result host ctx opts w failOnError a0 a2 s3) as [_ Hr].
    rewrite E1 in Hr. apply (Hr _ eq_refl). }
  match type of H with
  | ?m s2 = _ =>
      assert (Hs : Preserves steady m) by keep;
      specialize (Hs s2); rewrite H in Hs
  end.
  apply (steady_address _ _ Hs Hbound).
Qed.

Lemma steady_after (s s0 s' : Session) :
  isFirst s0 = isFirst s -> isWatching s0 = isWatching s ->
  address s0 = address s -> addressRunning s0 = addressRunning s ->
  extends (trace s) (trace s0) ->
  steady s0 s' -> keeps_bound opts s0 s' ->
  isFirst s' = isFirst s
  /\ isWatching s' = isWatching s
  /\ (address s <> None -> address s' <> None)
  /\ (addressRunning s = true -> addressRunning s' = true)
  /\ keeps_bound opts s s'
  /\ extends (trace s) (trace s')
  /\ tempFile_exists s' = tempFile_exists s0.
Proof.
  intros H1 H2 H3 H4 H5 [S1 S2 S3 S4 S5 S6] Hk.
  split; [congruence |]. split; [congruence |].
  split; [intros Hn; apply S4; congruence |].
  split; [intros Hr; apply S5; congruence |].
  split.
  { intros Hb. apply Hk. intros Hv Hn. rewrite H4. apply Hb; [exact Hv | congruence]. }
  split; [eapply extends_trans; eassumption | exact S3].
Qed.

(** [#computeConfig]: the same, except that the temporary file goes
    unless the configuration function threw. *)
Lemma computeConfig_result quasarConfigFn failOnError (s : Session) :
  let s' := snd (computeConfig host ctx opts w quasarConfigFn failOnError s) in
  isFirst s' = isFirst s
  /\ isWatching s' = isWatching s
  /\ (address s <> None -> address s' <> None)
  /\ (addressRunning s = true -> addressRunning s' = true)
  /\ keeps_bound opts s s'
  /\ extends (trace s) (trace s')
  /\ tempFile_exists s' = match quasarConfigFn with
                          | Function FnThrows => tempFile_exists s
                          | _ => false
                          end.
Proof.
  cbv zeta. unfold computeConfig.
  assert (Hfail : forall k msg more s0,
             quiet s0 (snd (@fail Fields failOnError k msg more s0))).
  { intros. apply (Quiet_removeTempFile_free failOnError k msg more). }
  assert (Hremoved : extends (trace s)
                       (trace (set_tempFile_exists false (add_effect ERemoveTemp s)))).
  { apply extends_one. reflexivity. }
  set (s0 := set_tempFile_exists false (add_effect ERemoveTemp s)) in *.
  destruct quasarConfigFn as [| [| userCfg]].
  - exact (steady_after s s0 _ eq_refl eq_refl eq_refl eq_refl Hremoved
             (quiet_steady _ _ (Hfail _ _ _ s0))
             (quiet_keeps_bound _ _ _ (Hfail _ _ _ s0))).
  - exact (steady_after s (add_effect EConsole s) _ eq_refl eq_refl eq_refl eq_refl
             (extends_one _ EConsole eq_refl)
             (quiet_steady _ _ (Hfail _ _ _ _))
             (quiet_keeps_bound _ _ _ (Hfail _ _ _ _))).
  - destruct (negb (is_object userCfg)).
    + exact (steady_after s s0 _ eq_refl eq_refl eq_refl eq_refl Hremoved
               (quiet_steady _ _ (Hfail _ _ _ s0))
               (quiet_keeps_bound _ _ _ (Hfail _ _ _ s0))).
    + exact (steady_after s s0 _ eq_refl eq_refl eq_refl eq_refl Hremoved
               (Steady_derive userCfg failOnError s0)
               (keeps_bound_derive userCfg failOnError s0)).
Qed.

Lemma computeConfig_binds_address quasarConfigFn failOnError (s s' : Session) cfg :
  ctx_dev ctx && negb (ctx_mode_bex ctx) = true ->
  computeConfig host ctx opts w quasarConfigFn failOnError s = (Ret cfg, s') ->
  address s' <> None.
Proof.
  intros Hdev. unfold computeConfig.
  destruct quasarConfigFn as [| [| userCfg]].
  - intros H. bind_inv H. destruct failOnError; discriminate.
  - intros H. bind_inv H. destruct failOnError; discriminate.
  - destruct (negb (is_object userCfg)); intros H; bind_inv H.
    + destruct failOnError; discriminate.
    + apply (derive_binds_address _ _ _ _ _ Hdev H).
Qed.

End DeriveFacts.

Lemma bind_modify {B : Type} (f : Session -> Session) (k : unit -> M B) (s : Session) :
  bind (modify f) k s = k tt (f s).
Proof. reflexivity. Qed.

Lemma bind_emit {B : Type} (e : Effect) (k : unit -> M B) (s : Session) :
  bind (emit e) k s = k tt (add_effect e s).
Proof. reflexivity. Qed.

(** ** The temporary file *)

Section TemporaryFile.

Variable host : Host.
Variable ctx : Ctx.
Variable opts : Opts.
Variable w : World.

(** The compiled module could be written and loading or running it
    threw: the only case in which the file is left on disk. *)
Definition left_for_inspection : bool :=
  negb (compile_errors w)
  && match loaded w with
     | ImportThrows => true
     | Imported (Function FnThrows) => true
     | Imported _ => false
     end.

Lemma tempFile_after_computeConfig fn failOnError (s : Session) :
  tempFile_exists (snd (computeConfig host ctx opts w fn failOnError s))
  = match fn with
    | Function FnThrows => tempFile_exists s
    | _ => false
    end.
Proof. apply (computeConfig_result host ctx opts w fn failOnError s). Qed.

Lemma tempFile_after_bind_computeConfig {B : Type} fn failOnError
      (k : Fields -> M B) (s : Session) :
  (forall c s0, tempFile_exists (snd (k c s0)) = tempFile_exists s0) ->
  tempFile_exists (snd (bind (computeConfig host ctx opts w fn failOnError) k s))
  = match fn with
    | Function FnThrows => tempFile_exists s
    | _ => false
    end.
Proof.
  intros Hk. pose proof (tempFile_after_computeConfig fn failOnError s) as H.
  unfold bind. destruct (computeConfig host ctx opts w fn failOnError s) as [[c | e | e |] s1];
    cbn [snd] in *; try exact H.
  rewrite Hk. exact H.
Qed.

End TemporaryFile.

(** C3, as the code has it.  In one-shot mode the temporary file is
    removed when the module does not compile, when its default export is
    not a function, when the function's result is not an object, and,
    before the derivation starts, when the result is an object; it is left
    on disk exactly when the compiled module throws while it is loaded or
    while its function runs. *)
Theorem C3_one_shot_temp_file (host : Host) (ctx : Ctx) (opts : Opts) (w : World)
        (s : Session) :
  tempFile_exists (snd (build host ctx opts w s)) = left_for_inspection w.
Proof.
  unfold build, esbuild_output, left_for_inspection.
  destruct (compile_errors w); cbn [negb andb when].
  - reflexivity.
  - rewrite bind_modify, bind_ret_l.
    destruct (loaded w) as [| fn].
    + reflexivity.
    + rewrite bind_ret_l, tempFile_after_computeConfig.
      destruct fn as [| []]; reflexivity.
Qed.

(** C3 as stated fails: the module compiles, importing it throws, and the
    file is still there when the process ends. *)
Lemma C3_counterexample :
  let r := build Sample.host Sample.ctx Sample.opts
             (Sample.world_loading ImportThrows) Sample.start in
  fst r = Exit LoadError /\ tempFile_exists (snd r) = true.
Proof. split; reflexivity. Qed.

(** C4, as the code has it.  In watch mode every cycle that is not
    skipped ends with the temporary file removed, after a successful
    rebuild as well as on a compile error, a default export that is not a
    function or a result that is not an object, fatal or only warned;
    the file stays on disk exactly when the compiled module throws while
    it is loaded or while its function runs. *)
Theorem C4_watch_temp_file (host : Host) (ctx : Ctx) (opts : Opts) (w : World)
        (s : Session) :
  isFirst s || isWatching s = true ->
  tempFile_exists (snd (rebuild host ctx opts w s)) = left_for_inspection w
  /\ (forall u, fst (rebuild host ctx opts w s) = Ret u ->
                tempFile_exists (snd (rebuild host ctx opts w s)) = false).
Proof.
  intros Hphase.
  assert (Hready : exists s0,
             rebuild host ctx opts w s = onEnd_ready host ctx opts w (isFirst s) s0
             /\ tempFile_exists s0 = negb (compile_errors w) || tempFile_exists s0
             /\ (compile_errors w = false -> tempFile_exists s0 = true)).
  { unfold rebuild, onStart, esbuild_output, onEnd, log.
    rewrite bind_assoc, bind_gets.
    destruct (isFirst s) eqn:Hf; cbn [negb when].
    - rewrite bind_ret_l.
      destruct (compile_errors w) eqn:Hc; cbn [negb when].
      + rewrite bind_ret_l, !bind_gets, Hf. cbn [negb andb].
        exists s. repeat split. discriminate.
      + rewrite bind_modify, !bind_gets. cbn [isFirst set_tempFile_exists negb andb].
        rewrite Hf. cbn [negb andb].
        exists (set_tempFile_exists true s). repeat split.
    - cbn [orb] in Hphase.
      rewrite bind_assoc, bind_emit, bind_assoc, bind_emit, bind_emit.
      destruct (compile_errors w) eqn:Hc; cbn [negb when].
      + rewrite bind_ret_l, !bind_gets. cbn [isFirst isWatching add_effect].
        rewrite Hf, Hphase. cbn [negb andb].
        eexists. repeat split. discriminate.
      + rewrite bind_modify, !bind_gets.
        cbn [isFirst isWatching set_tempFile_exists add_effect].
        rewrite Hf, Hphase. cbn [negb andb].
        eexists. split; [reflexivity |]. split; reflexivity. }
  destruct Hready as (s0 & Heq & _ & Hs0).
  assert (Hfile : tempFile_exists (snd (rebuild host ctx opts w s)) = left_for_inspection w).
  { rewrite Heq. unfold onEnd_ready, left_for_inspection.
    destruct (compile_errors w); cbn [negb andb].
    - destruct (isFirst s); reflexivity.
    - specialize (Hs0 eq_refl).
      destruct (loaded w) as [| fn].
      + destruct (isFirst s); cbn; exact Hs0.
      + rewrite bind_ret_l, tempFile_after_bind_computeConfig.
        * destruct fn as [| []]; try reflexivity. exact Hs0.
        * intros c s1. destruct (isFirst s); reflexivity. }
  split; [exact Hfile |].
  intros u Hret. rewrite Hfile. unfold left_for_inspection.
  destruct (compile_errors w) eqn:Hc; [reflexivity |].
  destruct (loaded w) as [| [| []]] eqn:Hl; cbn [negb andb]; try reflexivity;
    exfalso; rewrite Heq in Hret; unfold onEnd_ready in Hret;
    rewrite Hc, Hl in Hret; destruct (isFirst s); discriminate Hret.
Qed.

Lemma C4_watch_temp_file_witness :
  tempFile_exists
    (snd (rebuild Sample.host Sample.ctx Sample.opts (Sample.world (JObj [])) Sample.start))
  = false.
Proof.
  exact (proj1 (C4_watch_temp_file Sample.host Sample.ctx Sample.opts
                  (Sample.world (JObj [])) Sample.start eq_refl)).
Defined.

(** C4 as stated fails: the first build of a watch session succeeds, the
    process goes on, and the file is gone. *)
Lemma C4_counterexample :
  let r := rebuild Sample.host Sample.ctx Sample.opts (Sample.world (JObj []))
             Sample.start in
  fst r = Ret tt /\ tempFile_exists (snd r) = false.
Proof. split; vm_compute; reflexivity. Qed.

Ltac run_binds :=
  repeat (rewrite bind_assoc || rewrite bind_emit || rewrite bind_ret_l
          || rewrite bind_gets || rewrite bind_modify).

(** ** Rebuilds before [watch ()] *)

Definition warns (e : Effect) : bool :=
  match e with
  | EWarn _ => true
  | _ => false
  end.

Definition delivers (e : Effect) : bool := negb (internal e).

(** The effects of a build that starts after the first one. *)
Definition changed_effects : list Effect :=
  [ ELog EmptyString;
    ELog "The quasar.config file (or its dependencies) changed. Reading it again...";
    EUpdateAppPackageJson ].

(** C5, as the code has it.  A rebuild that completes after the first
    build and before [watch ()] is discarded in silence: the callback is
    not invoked, nothing is loaded or derived, and no warning is emitted;
    the only effects are the two log lines and the package refresh of the
    build's start. *)
Theorem C5_rebuild_before_watch (host : Host) (ctx : Ctx) (opts : Opts) (w : World)
        (s : Session) :
  isFirst s = false -> isWatching s = false ->
  let r := rebuild host ctx opts w s in
  fst r = Ret tt
  /\ trace (snd r) = (trace s ++ changed_effects)%list
  /\ existsb delivers changed_effects = false
  /\ existsb warns changed_effects = false
  /\ isFirst (snd r) = false /\ isWatching (snd r) = false
  /\ address (snd r) = address s.
Proof.
  intros Hf Hw. cbv zeta.
  unfold rebuild, onStart, esbuild_output, onEnd, log.
  run_binds. rewrite Hf. cbn [negb when].
  destruct (compile_errors w); cbn [negb when]; run_binds;
    cbn [isFirst isWatching add_effect set_tempFile_exists];
    rewrite Hf, Hw; cbn; rewrite <- !app_assoc; repeat split; assumption.
Qed.

(** A session whose first build is done and whose [watch ()] is still to
    come. *)
Definition first_build_done : Session :=
  snd (rebuild Sample.host Sample.ctx Sample.opts (Sample.world (JObj [])) Sample.start).

Lemma C5_rebuild_before_watch_witness :
  fst (rebuild Sample.host Sample.ctx Sample.opts (Sample.world (JObj []))
         first_build_done) = Ret tt.
Proof.
  refine (proj1 (C5_rebuild_before_watch Sample.host Sample.ctx Sample.opts
                   (Sample.world (JObj [])) first_build_done _ _));
    vm_compute; reflexivity.
Defined.

(** C5 as stated fails: the discarded rebuild emits no warning. *)
Lemma C5_counterexample :
  let r := rebuild Sample.host Sample.ctx Sample.opts (Sample.world (JObj []))
             first_build_done in
  isFirst first_build_done = false /\ isWatching first_build_done = false
  /\ ~ (exists msg, In (EWarn msg) (skipn (List.length (trace first_build_done))
                                       (trace (snd r)))).
Proof.
  cbv zeta. split; [reflexivity |]. split; [reflexivity |].
  intros [msg H]. vm_compute in H.
  repeat (destruct H as [H | H]; [discriminate H |]). exact H.
Qed.

(** ** Property lists *)

Lemma lookup_assign_same (k : string) (v : JSValue) (fs : Fields) :
  lookup k (assign k v fs) = Some v.
Proof.
  induction fs as [| [k' v'] fs IH]; simpl.
  - now rewrite String.eqb_refl.
  - destruct (k' =? k) eqn:E; simpl.
    + now rewrite String.eqb_refl.
    + now rewrite E.
Qed.

Lemma lookup_assign_other (k k' : string) (v : JSValue) (fs : Fields) :
  (k' =? k) = false -> lookup k (assign k' v fs) = lookup k fs.
Proof.
  intros Hne. induction fs as [| [k0 v0] fs IH]; simpl.
  - now rewrite Hne.
  - destruct (k0 =? k') eqn:E; simpl.
    + apply String.eqb_eq in E. subst k0. now rewrite Hne.
    + destruct (k0 =? k); [reflexivity | exact IH].
Qed.

Lemma field_assign_same (k : string) (v : JSValue) (fs : Fields) :
  field k (assign k v fs) = v.
Proof. unfold field. now rewrite lookup_assign_same. Qed.

Lemma field_assign_other (k k' : string) (v : JSValue) (fs : Fields) :
  (k' =? k) = false -> field k (assign k' v fs) = field k fs.
Proof. intros H. unfold field. now rewrite lookup_assign_other. Qed.

Lemma lookup_remove_same (k : string) (fs : Fields) : lookup k (remove k fs) = None.
Proof.
  induction fs as [| [k' v'] fs IH]; simpl; [reflexivity |].
  destruct (k' =? k) eqn:E; simpl; [exact IH | now rewrite E].
Qed.

Lemma prop_object (fs : Fields) (k : string) : prop (JObj fs) k = Some (field k fs).
Proof. reflexivity. Qed.

Lemma try_value_Ret_inv {A : Type} (o : option A) (a : A) (s s' : Session) :
  try_value o s = (Ret a, s') -> o = Some a /\ s' = s.
Proof.
  destruct o; cbn; intros H; [injection H as -> ->; auto | discriminate].
Qed.

(** ** The address cache *)

Lemma strict_equals_string (x : JSValue) (r : string) :
  strict_equals x (JStr r) = true -> x = JStr r.
Proof.
  destruct x; try discriminate. cbn. intros H. apply String.eqb_eq in H. now subst.
Qed.

Lemma strict_equals_number (x : JSValue) (n : Z) :
  strict_equals x (JNum n) = true -> x = JNum n.
Proof.
  destruct x; try discriminate. cbn. intros H. apply Z.eqb_eq in H. now subst.
Qed.

Lemma lookup_app_found (k : string) (a b : Fields) (v : JSValue) :
  lookup k a = Some v -> lookup k (a ++ b)%list = Some v.
Proof.
  induction a as [| [k' v'] a IH]; cbn; [discriminate |].
  destruct (k' =? k); [auto | exact IH].
Qed.

Lemma lookup_app_absent (k : string) (a b : Fields) :
  lookup k a = None -> lookup k (a ++ b)%list = lookup k b.
Proof.
  induction a as [| [k' v'] a IH]; cbn; [reflexivity |].
  destruct (k' =? k); [discriminate | exact IH].
Qed.

Lemma lookup_map_values (k : string) (F : string -> JSValue -> JSValue) (fs : Fields) :
  lookup k (map (fun kv => (fst kv, F (fst kv) (snd kv))) fs)
  = option_map (F k) (lookup k fs).
Proof.
  induction fs as [| [k' v'] fs IH]; cbn; [reflexivity |].
  destruct (k' =? k) eqn:E; [| exact IH].
  apply String.eqb_eq in E. subst k'. reflexivity.
Qed.

Lemma lookup_filter_key (k : string) (g : string * JSValue -> bool) (fs : Fields) :
  (forall v, g (k, v) = true) -> lookup k (filter g fs) = lookup k fs.
Proof.
  intros Hg. induction fs as [| [k' v'] fs IH]; cbn; [reflexivity |].
  destruct (k' =? k) eqn:E.
  - apply String.eqb_eq in E. subst k'. rewrite Hg. cbn. now rewrite String.eqb_refl.
  - destruct (g (k', v')); cbn; [rewrite E |]; exact IH.
Qed.

(** A key of the left object, after [customize]: the merged value, or the
    left one when that is [undefined]. *)
Lemma customize_left (fa fb : Fields) (k : string) (v : JSValue) :
  lookup k fa = Some v ->
  exists fs, customize (JObj fa) (JObj fb) = JObj fs
             /\ lookup k fs
                = Some (let c := customize v (field k fb) in
                        if is_undefined c then v else c).
Proof.
  intros H. eexists. split; [reflexivity |].
  apply lookup_app_found.
  rewrite (lookup_map_values k
             (fun k v => let c := customize v (field k fb) in
                         if is_undefined c then v else c)).
  rewrite H. reflexivity.
Qed.

(** A key of the right object only. *)
Lemma customize_right (fa fb : Fields) (k : string) :
  lookup k fa = None ->
  exists fs, customize (JObj fa) (JObj fb) = JObj fs /\ lookup k fs = lookup k fb.
Proof.
  intros H. eexists. split; [reflexivity |].
  rewrite lookup_app_absent.
  - apply lookup_filter_key. intros v. cbn [fst]. unfold has_key. now rewrite H.
  - rewrite (lookup_map_values k
               (fun k v => let c := customize v (field k fb) in
                           if is_undefined c then v else c)).
    now rewrite H.
Qed.

(** [merge({ open: true }, cfg.devServer, to)]: the host and port of [to]
    replace the requested ones. *)
Lemma merge_bound (devServer : Fields) (h p rh rp : JSValue) :
  lookup "host" devServer = Some rh -> lookup "port" devServer = Some rp ->
  is_string rh = true -> (exists n, rp = JNum n) ->
  exists fs,
    merge (JObj [("open", JBool true)])
      [JObj devServer; JObj [("host", h); ("port", p)]] = Some (JObj fs)
    /\ field "host" fs = (if is_undefined h then rh else h)
    /\ field "port" fs = (if is_undefined p then rp else p).
Proof.
  intros Hh Hp Hs [n ->].
  unfold merge. cbn [is_undefined existsb orb prop lookup truthy negb mergeWith
                     mergeTo entries].
  cbn -[customize].
  destruct (customize_right [("open", JBool true)] devServer "host" eq_refl)
    as (acc & Eacc & Hacc_h).
  destruct (customize_right [("open", JBool true)] devServer "port" eq_refl)
    as (acc' & Eacc' & Hacc_p).
  rewrite Eacc in Eacc'. injection Eacc' as <-. rewrite Eacc.
  cbn [mergeTo entries].
  rewrite Hh in Hacc_h. rewrite Hp in Hacc_p.
  destruct (customize_left acc [("host", h); ("port", p)] "host" rh Hacc_h)
    as (fs & Efs & Hfs_h).
  destruct (customize_left acc [("host", h); ("port", p)] "port" (JNum n) Hacc_p)
    as (fs' & Efs' & Hfs_p).
  rewrite Efs in Efs'. injection Efs' as <-.
  exists fs. split; [now rewrite Efs |].
  unfold field. rewrite Hfs_h, Hfs_p. cbn [field lookup String.eqb Ascii.eqb Bool.eqb].
  cbv zeta. split.
  - destruct rh; try discriminate Hs. destruct h; reflexivity.
  - destruct p; reflexivity.
Qed.

(** C7.  A request for a pair (a host string and a port number) that is
    answered binds the pair: the dev server gets the bound host and port,
    and the cache of the instance holds the mapping from the requested
    pair to the bound one.  A pair that was not in the cache is bound by
    the negotiation: with [verifyAddress], to the host the probe was made
    for and the open port it found, after a probe that shows in the
    trace; without it, to the requested pair itself.  A request for the
    same pair, in the same cycle or a later one, while the cache still
    holds that binding, is answered from the cache: the dev server gets
    the identical bound host and port, the session is left exactly as it
    was (so nothing is probed and no host is resolved), and the answers
    of the network are not looked at. *)
Theorem C7_cached_binding (host : Host) (ctx : Ctx) (opts : Opts) (w1 w2 : World)
        (failOnError1 failOnError2 : bool) (cfg1 cfg2 cfg1' : Fields)
        (devServer1 devServer2 : Fields) (requested_host : string) (requested_port : Z)
        (s s1 s2 : Session) :
  field "host" devServer1 = JStr requested_host ->
  field "port" devServer1 = JNum requested_port ->
  field "host" devServer2 = JStr requested_host ->
  field "port" devServer2 = JNum requested_port ->
  negotiate_address host ctx opts w1 failOnError1 cfg1 (JObj devServer1) s
    = (Ret cfg1', s1) ->
  address s2 = address s1 ->
  exists bound_host bound_port,
    prop (field "devServer" cfg1') "host" = Some bound_host
    /\ prop (field "devServer" cfg1') "port" = Some bound_port
    /\ address s1
       = Some {| from_host := JStr requested_host; from_port := JNum requested_port;
                 to_host := bound_host; to_port := bound_port |}
    /\ (cached_address s (JStr requested_host) (JNum requested_port) = None ->
        if opt_verifyAddress opts then
          exists probed_host open_port s0,
            external_host host w1 (JStr requested_host) (ctx_modeName ctx) s
            = (Ret probed_host, s0)
            /\ findClosestOpenPort w1 (JNum requested_port) probed_host
               = OpenPort open_port
            /\ In (EProbe (JNum requested_port) probed_host) (trace s1)
            /\ addressRunning s1 = true
            /\ bound_host
               = (if is_undefined probed_host then JStr requested_host
                  else probed_host)
            /\ bound_port
               = (if is_undefined open_port then JNum requested_port else open_port)
        else
          bound_host = JStr requested_host /\ bound_port = JNum requested_port
          /\ trace s1 = trace s)
    /\ negotiate_address host ctx opts w2 failOnError2 cfg2 (JObj devServer2) s2
       = (Ret (assign "devServer"
                 (JObj (assign "port" bound_port (assign "host" bound_host devServer2)))
                 cfg2),
          s2).
Proof.
  intros Hh1 Hp1 Hh2 Hp2 Hfirst Hsame.
  assert (Hcached : forall a : Address,
             address s2 = Some a ->
             strict_equals (from_host a) (JStr requested_host) = true ->
             strict_equals (from_port a) (JNum requested_port) = true ->
             negotiate_address host ctx opts w2 failOnError2 cfg2 (JObj devServer2) s2
             = (Ret (assign "devServer"
                       (JObj (assign "port" (to_port a)
                                (assign "host" (to_host a) devServer2))) cfg2), s2)).
  { intros a Ha Eh Ep. unfold negotiate_address, getp, putp.
    rewrite !prop_object, Hh2, Hp2, !bind_try_Some, bind_gets.
    unfold cached_address. rewrite Ha, Eh, Ep. cbn [andb].
    cbn [put]. rewrite !bind_try_Some. reflexivity. }
  assert (Lh : lookup "host" devServer1 = Some (JStr requested_host)).
  { unfold field in Hh1. destruct (lookup "host" devServer1); [now subst | discriminate]. }
  assert (Lp : lookup "port" devServer1 = Some (JNum requested_port)).
  { unfold field in Hp1. destruct (lookup "port" devServer1); [now subst | discriminate]. }
  unfold negotiate_address, getp, putp in Hfirst.
  rewrite !prop_object, Hh1, Hp1, !bind_try_Some, bind_gets in Hfirst.
  destruct (cached_address s (JStr requested_host) (JNum requested_port)) as [a |] eqn:Hc.
  - cbn [put] in Hfirst. rewrite !bind_try_Some in Hfirst.
    injection Hfirst as <- <-.
    unfold cached_address in Hc.
    destruct (address s) as [a' |] eqn:Ha; [| discriminate].
    destruct (strict_equals (from_host a') (JStr requested_host)) eqn:Eh; [| discriminate].
    destruct (strict_equals (from_port a') (JNum requested_port)) eqn:Ep; [| discriminate].
    injection Hc as ->.
    exists (to_host a), (to_port a).
    rewrite field_assign_same, !prop_object, field_assign_same.
    rewrite field_assign_other, field_assign_same by reflexivity.
    split; [reflexivity |]. split; [reflexivity |].
    split.
    { apply strict_equals_string in Eh. apply strict_equals_number in Ep.
      destruct a as [fh fp th tp]. cbn in *. now subst. }
    split; [discriminate |].
    apply Hcached; [congruence | exact Eh | exact Ep].
  - assert (Hfinish : forall (to_h to_p : JSValue) (s0 : Session),
               (d <- try_value
                       (merge (JObj [("open", JBool true)])
                          [JObj devServer1; JObj [("host", to_h); ("port", to_p)]]) ;;
                h' <- try_value (prop d "host") ;;
                p' <- try_value (prop d "port") ;;
                modify (set_address
                          (Some {| from_host := JStr requested_host;
                                   from_port := JNum requested_port;
                                   to_host := h'; to_port := p' |})) ;;
                ret (assign "devServer" d cfg1)) s0 = (Ret cfg1', s1) ->
               let bh := if is_undefined to_h then JStr requested_host else to_h in
               let bp := if is_undefined to_p then JNum requested_port else to_p in
               prop (field "devServer" cfg1') "host" = Some bh
               /\ prop (field "devServer" cfg1') "port" = Some bp
               /\ s1 = set_address
                         (Some {| from_host := JStr requested_host;
                                  from_port := JNum requested_port;
                                  to_host := bh; to_port := bp |}) s0).
    { intros to_h to_p s0 H.
      destruct (merge_bound devServer1 to_h to_p _ _ Lh Lp eq_refl
                  (ex_intro _ requested_port eq_refl)) as (fs & Em & Fh & Fp).
      rewrite Em in H. rewrite bind_try_Some in H.
      rewrite !prop_object, !bind_try_Some, bind_modify in H.
      rewrite Fh, Fp in H. injection H as <- <-.
      rewrite field_assign_same, !prop_object, Fh, Fp. auto. }
    assert (Hserve : forall bh bp s0,
               s1 = set_address
                      (Some {| from_host := JStr requested_host;
                               from_port := JNum requested_port;
                               to_host := bh; to_port := bp |}) s0 ->
               negotiate_address host ctx opts w2 failOnError2 cfg2 (JObj devServer2) s2
               = (Ret (assign "devServer"
                         (JObj (assign "port" bp (assign "host" bh devServer2))) cfg2),
                  s2)).
    { intros bh bp s0 E.
      apply (Hcached {| from_host := JStr requested_host;
                        from_port := JNum requested_port;
                        to_host := bh; to_port := bp |}).
      - rewrite Hsame, E. reflexivity.
      - cbn. apply String.eqb_refl.
      - cbn. apply Z.eqb_refl. }
    destruct (opt_verifyAddress opts) eqn:Hv.
    + apply bind_Ret_inv in Hfirst. destruct Hfirst as (to & s0 & Eto & Hfirst).
      destruct to as [[to_h to_p] |];
        [| destruct failOnError1; cbn in Hfirst; discriminate].
      apply Hfinish in Hfirst. cbv zeta in Hfirst.
      destruct Hfirst as (Bh & Bp & Es1).
      eexists _, _. split; [exact Bh |]. split; [exact Bp |].
      split; [rewrite Es1; reflexivity |].
      split; [| exact (Hserve _ _ _ Es1)].
      intros _.
      unfold onAddress in Eto.
      apply bind_Ret_inv in Eto. destruct Eto as (h1 & sh & Eh & Eto).
      rewrite bind_emit in Eto.
      destruct (findClosestOpenPort w1 (JNum requested_port) h1) as [q | | |] eqn:Eq.
      * exists h1, q, sh. split; [exact Eh |]. split; [exact Eq |].
        assert (Hin : In (EProbe (JNum requested_port) h1) (trace s0)
                      /\ addressRunning s0 = true /\ to_h = h1 /\ to_p = q).
        { destruct (strict_equals (JNum requested_port) q); cbn in Eto;
            injection Eto as <- <- <-; cbn;
            (split; [| auto]); rewrite ?in_app_iff; cbn; tauto. }
        destruct Hin as (Hin & Hrun & -> & ->).
        rewrite Es1. cbn [trace set_address addressRunning]. auto.
      * exfalso. cbn in Eto.
        destruct (addressRunning _); cbn in Eto; discriminate Eto.
      * exfalso. cbn in Eto.
        destruct (addressRunning _); cbn in Eto; discriminate Eto.
      * exfalso. cbn in Eto.
        destruct (addressRunning _); cbn in Eto; discriminate Eto.
    + rewrite bind_ret_l in Hfirst.
      apply Hfinish in Hfirst. cbv zeta in Hfirst.
      destruct Hfirst as (Bh & Bp & Es1).
      cbn [is_undefined] in Bh, Bp, Es1.
      exists (JStr requested_host), (JNum requested_port).
      split; [exact Bh |]. split; [exact Bp |].
      split; [rewrite Es1; reflexivity |].
      split; [| exact (Hserve _ _ _ Es1)].
      intros _. rewrite Es1. auto.
Qed.

(** A machine on which port 9000 is taken: the closest open port is
    9003. *)
Definition busy_world : World :=
  {| compile_errors := false;
     loaded := Imported (Function (FnReturns (JObj [])));
     extendQuasarConf_hooks := [];
     animations_module := JArr [];
     findClosestOpenPort := fun _ _ => OpenPort (JNum 9003);
     getExternalIP := JStr "192.168.0.2";
     appFilesValidations := fun _ => true;
     resolveExtension := fun _ => JUndefined;
     getCertificate := JHost "certificate";
     readFileSync := fun _ => None;
     existsSync := fun _ => false;
     readFileEnv := fun _ => (JObj [], [], true);
     electron_getDefaultName := JStr "packager" |}.

(** The first negotiation of the sample session, and the session after it. *)
Definition requested_devServer : Fields :=
  [ ("server", JObj []); ("host", JStr "0.0.0.0"); ("port", JNum 9000) ].

Definition first_negotiation : Outcome Fields * Session :=
  Eval vm_compute in
    negotiate_address Sample.host Sample.ctx Sample.opts busy_world
      true [] (JObj requested_devServer) Sample.start.

Definition first_negotiated : Fields :=
  Eval vm_compute in match fst first_negotiation with Ret c => c | _ => [] end.

(** Port 9000 is asked for twice.  The first request probes and is bound
    to 9003; the second, on a machine where 9000 is free again, is still
    answered with 9003, and the session is as it was. *)
Lemma C7_cached_binding_witness :
  address (snd first_negotiation)
  = Some {| from_host := JStr "0.0.0.0"; from_port := JNum 9000;
            to_host := JStr "0.0.0.0"; to_port := JNum 9003 |}
  /\ In (EProbe (JNum 9000) (JStr "0.0.0.0")) (trace (snd first_negotiation))
  /\ negotiate_address Sample.host Sample.ctx Sample.opts
       (Sample.world (JObj [])) false [] (JObj requested_devServer)
       (snd first_negotiation)
     = (Ret [ ("devServer",
               JObj [ ("server", JObj []); ("host", JStr "0.0.0.0");
                      ("port", JNum 9003) ]) ],
        snd first_negotiation).
Proof.
  destruct (C7_cached_binding Sample.host Sample.ctx Sample.opts
              busy_world (Sample.world (JObj []))
              true false [] [] first_negotiated requested_devServer requested_devServer
              "0.0.0.0" 9000 Sample.start (snd first_negotiation) (snd first_negotiation)
              eq_refl eq_refl eq_refl eq_refl eq_refl eq_refl)
    as (bound_host & bound_port & Hh & Hp & Ha & Hprobe & Hsecond).
  injection Hh as <-. injection Hp as <-.
  split; [exact Ha |]. split; [| exact Hsecond].
  destruct (Hprobe eq_refl) as (probed_host & open_port & s0 & Eh & _ & Hin & _).
  injection Eh as <- _. exact Hin.
Defined.

(** ** Delivery *)

Section Delivery.

Variable host : Host.
Variable ctx : Ctx.
Variable opts : Opts.
Variable w : World.

(** Once live, a rebuild that succeeds hands the configuration it has
    just derived to the debounced callback, and to nothing else. *)
Lemma live_rebuild_is_debounced (s s' : Session) :
  isFirst s = false -> isWatching s = true ->
  onEnd host ctx opts w s = (Ret tt, s') ->
  exists fn conf s0,
    loaded w = Imported fn
    /\ computeConfig host ctx opts w fn false s = (Ret conf, s0)
    /\ extends (trace s) (trace s0)
    /\ trace s' = (trace s0
                   ++ [ ELog "Scheduled to apply quasar.config changes in 550ms";
                        EWatchCallback (JObj conf) ])%list.
Proof.
  intros Hf Hw. unfold onEnd. run_binds. rewrite Hf, Hw. cbn [negb andb].
  unfold onEnd_ready.
  destruct (compile_errors w); [discriminate |].
  destruct (loaded w) as [| fn]; [discriminate |].
  rewrite bind_ret_l.
  destruct (computeConfig host ctx opts w fn false s) as [[conf | k | k |] s0] eqn:E;
    rewrite (bind_run _ _ _ _ _ E); try discriminate.
  unfold log. run_binds. intros H. injection H as <-.
  exists fn, conf, s0.
  split; [reflexivity |]. split; [exact E |]. split.
  - pose proof (computeConfig_result host ctx opts w fn false s) as Hr.
    rewrite E in Hr. cbv zeta in Hr. cbn [snd] in Hr.
    destruct Hr as (_ & _ & _ & _ & _ & Hr & _). exact Hr.
  - cbn. now rewrite <- app_assoc.
Qed.

End Delivery.

(** ** The failure policy *)

(** What has been handed to the caller so far. *)
Definition delivered (s : Session) : list Effect := filter delivers (trace s).

Lemma extends_delivered (s s' : Session) :
  extends (trace s) (trace s') -> delivered s' = delivered s.
Proof.
  intros (new & E & Hnew). unfold delivered. rewrite E, filter_app.
  assert (Hn : filter delivers new = []).
  { clear E. induction new as [| e new IH]; [reflexivity |].
    cbn [forallb] in Hnew. apply andb_true_iff in Hnew as [He Hnew].
    cbn [filter]. unfold delivers at 1. rewrite He. cbn [negb]. apply IH, Hnew. }
  rewrite Hn. apply app_nil_r.
Qed.

(** The same cycle, run as the first one and as a later one. *)
Definition as_first (running : bool) (s : Session) : Session :=
  set_addressRunning running (set_isFirst true s).

Definition as_later (s : Session) : Session :=
  set_isWatching true (set_isFirst false s).

(** How the first cycle and a later one end on the same input: both
    deliver, both throw, or the first terminates the process where the
    later one warns and returns, on the same kind of error. *)
Definition ends_match (r1 r2 : Outcome unit * Session) : Prop :=
  match fst r1, fst r2 with
  | Ret _, Ret _ => True
  | Throw, Throw => True
  | Exit k1, Bail k2 =>
      k1 = k2
      /\ exists before e msg,
          trace (snd r1) = (before ++ [e])%list
          /\ trace (snd r2) = (before ++ [EWarn msg])%list
          /\ fatal_effect e
  | _, _ => False
  end.

Section FailurePolicy.

Variable host : Host.
Variable ctx : Ctx.
Variable opts : Opts.
Variable w : World.

Lemma onEnd_ready_ends_match (s1 s2 : Session) :
  agree ctx opts s1 s2 ->
  ends_match (onEnd_ready host ctx opts w true s1) (onEnd_ready host ctx opts w false s2).
Proof.
  intros Hs. pose proof (agree_trace _ _ _ _ Hs) as Ht.
  unfold onEnd_ready, ends_match.
  destruct (compile_errors w).
  - cbn. split; [reflexivity |].
    exists (trace s1 ++ [ERemoveTemp])%list, (EFatal compile_msg),
      (compile_msg ++ " Please fix them.\n").
    rewrite Ht. repeat split. right. now exists compile_msg.
  - destruct (loaded w) as [| fn].
    + cbn. split; [reflexivity |].
      exists (trace s1 ++ [EConsole])%list, (EFatal (import_msg ctx)),
        (import_msg ctx ++ "\n").
      rewrite Ht. repeat split. right. now exists (import_msg ctx).
    + rewrite !bind_ret_l.
      pose proof (Sim_computeConfig host ctx opts w fn s1 s2 Hs) as H.
      unfold outcomes_match in H.
      destruct (computeConfig host ctx opts w fn true s1) as [[c1 | k1 | k1 |] t1] eqn:E1;
        destruct (computeConfig host ctx opts w fn false s2) as [[c2 | k2 | k2 |] t2] eqn:E2;
        cbn [fst snd] in H; try contradiction;
        rewrite (bind_run _ _ _ _ _ E1), (bind_run _ _ _ _ _ E2); cbn [fst snd].
      * exact I.
      * destruct H as (Hk & _ & H). split; [exact Hk | exact H].
      * exact I.
Qed.

(** A later cycle that gives up has only warned: nothing was handed to
    the caller. *)
Lemma onEnd_ready_later_bails (s : Session) (k : ErrorKind) :
  fst (onEnd_ready host ctx opts w false s) = Bail k ->
  extends (trace s) (trace (snd (onEnd_ready host ctx opts w false s))).
Proof.
  unfold onEnd_ready.
  destruct (compile_errors w).
  - intros _. cbn. exists [ERemoveTemp; EWarn (compile_msg ++ " Please fix them.\n")].
    split; [now rewrite <- app_assoc | reflexivity].
  - destruct (loaded w) as [| fn].
    + intros _. cbn. exists [EConsole; EWarn (import_msg ctx ++ "\n")].
      split; [now rewrite <- app_assoc | reflexivity].
    + rewrite bind_ret_l.
      pose proof (computeConfig_result host ctx opts w fn false s) as Hr.
      cbv zeta in Hr. destruct Hr as (_ & _ & _ & _ & _ & Hr & _).
      destruct (computeConfig host ctx opts w fn false s) as [[c | k' | k' |] t] eqn:E;
        rewrite (bind_run _ _ _ _ _ E); cbn [fst snd] in *; try discriminate.
      intros _. exact Hr.
Qed.

Lemma onEnd_as_first (running : bool) (s : Session) :
  onEnd host ctx opts w (as_first running s)
  = onEnd_ready host ctx opts w true (as_first running s).
Proof. reflexivity. Qed.

Lemma onEnd_as_later (s : Session) :
  onEnd host ctx opts w (as_later s) = onEnd_ready host ctx opts w false (as_later s).
Proof. reflexivity. Qed.

Lemma agree_first_later (running : bool) (s : Session) :
  (negotiates ctx opts = true -> addressRunning s = true) ->
  agree ctx opts (as_first running s) (as_later s).
Proof. intros H. split; try reflexivity. exact H. Qed.

End FailurePolicy.

(** *** Sessions that can be reached *)

Section Reachable.

Variable host : Host.
Variable ctx : Ctx.
Variable opts : Opts.

(** After the first build a session that probes the network has bound an
    address, by a probe that succeeded. *)
Definition first_build_bound (s : Session) : Prop :=
  (isFirst s = false -> ctx_dev ctx && negb (ctx_mode_bex ctx) = true ->
   address s <> None)
  /\ bound_runs opts s.

Lemma first_build_bound_running (s : Session) :
  first_build_bound s -> isFirst s = false ->
  negotiates ctx opts = true -> addressRunning s = true.
Proof.
  intros [Ha Hb] Hf Hn. unfold negotiates in Hn.
  apply andb_true_iff in Hn as [Hdev Hv].
  apply Hb; [exact Hv | apply Ha; assumption].
Qed.

Lemma first_build_bound_initial (pwa : bool) (cachedHost : JSValue) (running : bool) :
  first_build_bound (initial_session pwa cachedHost running).
Proof.
  split; [discriminate |]. intros _ H. now contradiction H.
Qed.

Lemma first_build_bound_same (s s' : Session) :
  isFirst s' = isFirst s -> address s' = address s ->
  addressRunning s' = addressRunning s ->
  first_build_bound s -> first_build_bound s'.
Proof.
  intros Hf Ha Hr [H1 H2]. split.
  - rewrite Hf, Ha. exact H1.
  - intros Hv Hn. rewrite Hr. apply H2; [exact Hv | congruence].
Qed.

Lemma first_build_bound_onEnd_ready (w : World) (s : Session) :
  first_build_bound s ->
  first_build_bound (snd (onEnd_ready host ctx opts w (isFirst s) s)).
Proof.
  intros Hs. unfold onEnd_ready.
  destruct (compile_errors w).
  - destruct (isFirst s) eqn:Hf; cbn;
      refine (first_build_bound_same s _ _ _ _ Hs); cbn; congruence.
  - destruct (loaded w) as [| fn].
    + destruct (isFirst s) eqn:Hf; cbn;
        refine (first_build_bound_same s _ _ _ _ Hs); cbn; congruence.
    + rewrite bind_ret_l.
      pose proof (computeConfig_result host ctx opts w fn (isFirst s) s) as Hr.
      cbv zeta in Hr. destruct Hr as (Hf & _ & Ha & _ & Hk & _ & _).
      pose proof (computeConfig_binds_address host ctx opts w fn (isFirst s) s) as Hb.
      destruct Hs as [H1 H2].
      destruct (computeConfig host ctx opts w fn (isFirst s) s) as [[c | k | k |] t] eqn:E;
        rewrite (bind_run _ _ _ _ _ E); cbn [fst snd] in *;
        try (split; [intros Hf' Hdev; apply Ha, H1; [congruence | exact Hdev]
                    | apply Hk, H2]).
      destruct (isFirst s) eqn:Hfs; cbn.
      * split.
        -- intros _ Hdev. apply (Hb t c Hdev eq_refl).
        -- apply Hk, H2.
      * split.
        -- intros _ Hdev. apply Ha, H1; [reflexivity | exact Hdev].
        -- apply Hk, H2.
Qed.

Lemma first_build_bound_step (e : Event) (s : Session) :
  first_build_bound s -> first_build_bound (snd (step host ctx opts e s)).
Proof.
  intros Hs. destruct e as [w |]; cbn [step].
  - unfold rebuild, onStart, esbuild_output, onEnd, log. run_binds.
    assert (Hgo : forall s0, isFirst s0 = isFirst s -> first_build_bound s0 ->
               first_build_bound
                 (snd ((if negb (isFirst s0) && negb (isWatching s0) then ret tt
                        else onEnd_ready host ctx opts w (isFirst s0)) s0))).
    { intros s0 _ H0. destruct (negb (isFirst s0) && negb (isWatching s0)).
      - exact H0.
      - apply first_build_bound_onEnd_ready, H0. }
    destruct (isFirst s) eqn:Hf; cbn [negb when]; run_binds;
      destruct (compile_errors w); cbn [negb when]; run_binds;
      apply Hgo; cbn; try congruence;
      refine (first_build_bound_same s _ _ _ _ Hs); cbn; congruence.
  - refine (first_build_bound_same s _ _ _ _ Hs); reflexivity.
Qed.

Lemma first_build_bound_run (es : list Event) (s : Session) :
  first_build_bound s -> first_build_bound (snd (run host ctx opts es s)).
Proof.
  revert s. induction es as [| e es IH]; intros s Hs; [exact Hs |].
  cbn [run]. pose proof (first_build_bound_step e s Hs) as H.
  destruct (step host ctx opts e s) as [[u | k | k |] s']; cbn [snd] in *;
    try (apply IH, H). exact H.
Qed.

(** In every session that can be reached, a cycle after the first finds
    the address bound by a probe that succeeded. *)
Lemma later_cycles_run (es : list Event) (pwa : bool) (cachedHost : JSValue)
      (running : bool) :
  let s := snd (run host ctx opts es (initial_session pwa cachedHost running)) in
  isFirst s = false -> negotiates ctx opts = true -> addressRunning s = true.
Proof.
  cbv zeta. apply first_build_bound_running, first_build_bound_run,
              first_build_bound_initial.
Qed.

End Reachable.

(** C1.  Take a cycle of a watch session, and let it run once as the
    first one and once as a later, live one, on the same input and from
    the same session data; a later cycle of a session that probes the
    network finds the address bound by an earlier, successful probe.  Then
    the first cycle never ends with a warning only, and the later cycle
    never terminates the process.  The first cycle terminates the process
    on an error of kind [k] exactly when the later one gives up on an
    error of kind [k]; the two have the same effects up to the last one,
    which is fatal in the first cycle and a warning in the later one.  A
    later cycle that gives up has invoked no callback: what was delivered
    before is what is delivered after. *)
Theorem C1_failure_policy (host : Host) (ctx : Ctx) (opts : Opts) (w : World)
        (running : bool) (s : Session) :
  (negotiates ctx opts = true -> addressRunning s = true) ->
  let first := onEnd host ctx opts w (as_first running s) in
  let later := onEnd host ctx opts w (as_later s) in
  (forall k, fst first <> Bail k)
  /\ (forall k, fst later <> Exit k)
  /\ (forall k, fst first = Exit k <-> fst later = Bail k)
  /\ ends_match first later
  /\ (forall k, fst later = Bail k ->
       extends (trace (as_later s)) (trace (snd later))
       /\ delivered (snd later) = delivered s).
Proof.
  intros Hrun. cbv zeta. rewrite onEnd_as_first, onEnd_as_later.
  pose proof (onEnd_ready_ends_match host ctx opts w _ _
                (agree_first_later ctx opts running s Hrun)) as H.
  pose proof (onEnd_ready_later_bails host ctx opts w (as_later s)) as Hb.
  repeat split.
  - intros k Hk. unfold ends_match in H. rewrite Hk in H.
    destruct (fst (onEnd_ready host ctx opts w false (as_later s))); exact H.
  - intros k Hk. unfold ends_match in H. rewrite Hk in H.
    destruct (fst (onEnd_ready host ctx opts w true (as_first running s))); exact H.
  - intros Hk. unfold ends_match in H. rewrite Hk in H.
    destruct (fst (onEnd_ready host ctx opts w false (as_later s)));
      try contradiction. destruct H as [-> _]. reflexivity.
  - intros Hk. unfold ends_match in H. rewrite Hk in H.
    destruct (fst (onEnd_ready host ctx opts w true (as_first running s)));
      try contradiction. destruct H as [-> _]. reflexivity.
  - exact H.
  - apply (Hb k). assumption.
  - rewrite (extends_delivered (as_later s)); [reflexivity |].
    apply (Hb k). assumption.
Qed.

(** The module stops loading: fatal as the first cycle, a warning
    later. *)
Lemma C1_failure_policy_witness :
  fst (onEnd Sample.host Sample.ctx Sample.opts (Sample.world_loading ImportThrows)
         (as_first false first_build_done)) = Exit LoadError
  <-> fst (onEnd Sample.host Sample.ctx Sample.opts (Sample.world_loading ImportThrows)
             (as_later first_build_done)) = Bail LoadError.
Proof.
  refine (proj1 (proj2 (proj2 (C1_failure_policy Sample.host Sample.ctx Sample.opts
                                 (Sample.world_loading ImportThrows) false
                                 first_build_done _))) LoadError).
  intros _. vm_compute. reflexivity.
Defined.

(** ** What a pass ensures when it returns *)

Definition Ensures {A : Type} (Q : A -> Prop) (m : M A) : Prop :=
  forall s a s', m s = (Ret a, s') -> Q a.

Lemma Ensures_any {A : Type} (m : M A) : Ensures (fun _ => True) m.
Proof. intros s a s' _. exact I. Qed.

Lemma Ensures_ret {A : Type} (Q : A -> Prop) (a : A) : Q a -> Ensures Q (ret a).
Proof. intros H s b s' E. injection E as <- _. exact H. Qed.

Lemma Ensures_throw {A : Type} (Q : A -> Prop) : Ensures Q (@throw A).
Proof. intros s a s' E. discriminate E. Qed.

Lemma Ensures_fail {A : Type} (Q : A -> Prop) failOnError k msg more :
  Ensures Q (@fail A failOnError k msg more).
Proof. intros s a s' E. destruct failOnError; discriminate E. Qed.

Lemma Ensures_bind {A B : Type} (P : A -> Prop) (Q : B -> Prop) (m : M A) (f : A -> M B) :
  Ensures P m -> (forall a, P a -> Ensures Q (f a)) -> Ensures Q (bind m f).
Proof.
  intros Hm Hf s b s' E. apply bind_Ret_inv in E as (a & s1 & E1 & E2).
  exact (Hf a (Hm _ _ _ E1) _ _ _ E2).
Qed.

Lemma Ensures_try_value {A : Type} (o : option A) :
  Ensures (fun a => o = Some a) (try_value o).
Proof. intros s a s' E. apply try_value_Ret_inv in E. apply E. Qed.

(** A property other than the one written reads as before. *)
Lemma Ensures_putp (o : JSValue) (k : string) (v : JSValue) :
  Ensures (fun o' => (exists fs, o' = JObj fs)
                     /\ forall k', (k =? k') = false -> prop o' k' = prop o k')
          (putp o k v).
Proof.
  intros s a s' E. apply try_value_Ret_inv in E as [E _].
  destruct o; try discriminate E. injection E as <-. split; [eauto |].
  intros k' Hk. cbn. now rewrite lookup_assign_other.
Qed.

Lemma Ensures_object_assign (o : JSValue) (source : Fields) :
  Ensures (fun o' => forall k', has_key k' source = false -> prop o' k' = prop o k')
          (object_assign o source).
Proof.
  intros s a s' E. destruct o; try discriminate E; injection E as <- _; try reflexivity.
  intros k' Hk. cbn. f_equal. unfold assign_all.
  revert fields. induction source as [| [k v] source IH]; intros fields; [reflexivity |].
  cbn [fold_left fst snd]. unfold has_key in Hk. cbn [lookup] in Hk.
  destruct (k =? k') eqn:Ek; [discriminate Hk |].
  rewrite IH by exact Hk. now rewrite lookup_assign_other.
Qed.

(** The result of a merge is an object. *)
Lemma mergeWith_object (rest : list JSValue) (fs : Fields) (v : JSValue) :
  mergeWith (JObj fs) rest = Some v -> exists fs', v = JObj fs'.
Proof.
  revert fs. induction rest as [| b rest IH]; intros fs; cbn [mergeWith].
  - intros E. injection E as <-. eauto.
  - unfold mergeTo. cbn [entries]. destruct (entries b) as [fb |]; [| discriminate].
    cbn [customize]. apply IH.
Qed.

Lemma merge_object (fs : Fields) (rest : list JSValue) (v : JSValue) :
  merge (JObj fs) rest = Some v -> exists fs', v = JObj fs'.
Proof.
  unfold merge. destruct (is_undefined (JObj fs) || existsb is_undefined rest);
    [discriminate |].
  destruct (prop (JObj fs) "then") as [t |]; [| discriminate].
  destruct (truthy t); [discriminate |].
  cbn [truthy negb]. apply mergeWith_object.
Qed.

(** ** The auto-open value *)

(** [cfg'] has the development server of [cfg], and the same
    [metaConf.openBrowser]. *)
Definition keeps_open (cfg cfg' : Fields) : Prop :=
  field "devServer" cfg' = field "devServer" cfg
  /\ prop (field "metaConf" cfg') "openBrowser"
     = prop (field "metaConf" cfg) "openBrowser".

Lemma keeps_open_trans (a b c : Fields) :
  keeps_open a b -> keeps_open b c -> keeps_open a c.
Proof. intros [H1 H2] [H3 H4]. split; congruence. Qed.

Ltac solve_keeps_open :=
  unfold keeps_open;
  repeat (rewrite field_assign_same || rewrite field_assign_other by reflexivity);
  split; [reflexivity |];
  repeat match goal with
         | H : forall k', _ -> prop ?a k' = _ |- context [prop ?a _] =>
             rewrite (H "openBrowser") by reflexivity
         end;
  repeat (rewrite field_assign_same || rewrite field_assign_other by reflexivity);
  reflexivity.

Ltac post_step :=
  cbv beta zeta;
  lazymatch goal with
  | |- Ensures _ (bind (putp _ _ _) _) =>
      eapply Ensures_bind; [apply Ensures_putp | intros ? [_ ?]]
  | |- Ensures _ (bind (object_assign _ _) _) =>
      eapply Ensures_bind; [apply Ensures_object_assign | intros ? ?]
  | |- Ensures _ (bind _ _) => eapply Ensures_bind; [apply Ensures_any | intros ? _]
  | |- Ensures _ (if ?b then _ else _) => destruct b
  | |- Ensures _ (match ?x with _ => _ end) => destruct x
  | |- Ensures _ (ret _) => apply Ensures_ret; solve_keeps_open
  | |- Ensures _ throw => apply Ensures_throw
  | |- Ensures _ (fail _ _ _ _) => apply Ensures_fail
  end.

Ltac post := repeat post_step.

Section AutoOpen.

Variable host : Host.
Variable ctx : Ctx.
Variable opts : Opts.
Variable w : World.

Lemma keeps_open_pass_gzip cfg : Ensures (keeps_open cfg) (pass_gzip host cfg).
Proof. unfold pass_gzip. post. Qed.

Lemma keeps_open_pass_pwa_bex failOnError cfg :
  Ensures (keeps_open cfg) (pass_pwa_bex host ctx w failOnError cfg).
Proof. unfold pass_pwa_bex. post. Qed.

Lemma keeps_open_pass_app_url cfg : Ensures (keeps_open cfg) (pass_app_url host ctx cfg).
Proof. unfold pass_app_url. post. Qed.

Lemma keeps_open_pass_env cfg : Ensures (keeps_open cfg) (pass_env ctx w cfg).
Proof. unfold pass_env. post. Qed.

Lemma keeps_open_pass_electron userCfg cfg :
  Ensures (keeps_open cfg) (pass_electron host ctx w userCfg cfg).
Proof. unfold pass_electron. post. Qed.

Lemma keeps_open_pass_htmlVariables cfg :
  Ensures (keeps_open cfg) (pass_htmlVariables ctx cfg).
Proof. unfold pass_htmlVariables. post. Qed.

Lemma keeps_open_dev_vueDevtools devServer cfg :
  Ensures (keeps_open cfg) (dev_vueDevtools host ctx w devServer cfg).
Proof. unfold dev_vueDevtools. post. Qed.

(** The passes of a derivation before line 997 and after line 1096. *)
Definition before_dev (userCfg : JSValue) (failOnError : bool) : M Fields :=
  cfg <- pass_merge ctx w failOnError userCfg ;;
  cfg <- pass_ssr_defaults ctx cfg ;;
  cfg <- pass_devServer_address host ctx opts w failOnError cfg ;;
  cfg <- pass_asset_lists cfg ;;
  cfg <- pass_framework host cfg ;;
  cfg <- pass_eslint cfg ;;
  cfg <- pass_build host ctx cfg ;;
  cfg <- pass_vendor host cfg ;;
  cfg <- pass_transpile_targets host cfg ;;
  cfg <- pass_router_mode_distDir host ctx cfg ;;
  cfg <- pass_publicPath ctx cfg ;;
  cfg <- pass_sourceFiles ctx w failOnError cfg ;;
  cfg <- pass_devServer_server ctx w cfg ;;
  pass_ssr ctx cfg.

Definition after_dev (userCfg : JSValue) (failOnError : bool) (cfg : Fields) : M Fields :=
  cfg <- pass_gzip host cfg ;;
  cfg <- pass_pwa_bex host ctx w failOnError cfg ;;
  cfg <- pass_app_url host ctx cfg ;;
  cfg <- pass_env ctx w cfg ;;
  cfg <- pass_electron host ctx w userCfg cfg ;;
  pass_htmlVariables ctx cfg.

Lemma derive_Ret_inv userCfg failOnError (s s' : Session) (cfg : Fields) :
  derive host ctx opts w userCfg failOnError s = (Ret cfg, s') ->
  exists cfg0 s0 cfg1 s1,
    before_dev userCfg failOnError s = (Ret cfg0, s0)
    /\ pass_dev host ctx w cfg0 s0 = (Ret cfg1, s1)
    /\ after_dev userCfg failOnError cfg1 s1 = (Ret cfg, s').
Proof.
  unfold derive. intros H.
  do 14 (apply bind_Ret_inv in H; destruct H as (? & ? & ? & H)).
  apply bind_Ret_inv in H. destruct H as (cfg1 & s1 & Hdev & H).
  eexists _, _, cfg1, s1. split; [| split; [exact Hdev | exact H]].
  unfold before_dev.
  repeat (erewrite bind_Ret by eassumption). eassumption.
Qed.

Lemma keeps_open_after_dev userCfg failOnError cfg :
  Ensures (keeps_open cfg) (after_dev userCfg failOnError cfg).
Proof.
  unfold after_dev.
  eapply Ensures_bind; [apply keeps_open_pass_gzip | intros c1 H1].
  eapply Ensures_bind; [apply keeps_open_pass_pwa_bex | intros c2 H2].
  eapply Ensures_bind; [apply keeps_open_pass_app_url | intros c3 H3].
  eapply Ensures_bind; [apply keeps_open_pass_env | intros c4 H4].
  eapply Ensures_bind; [apply keeps_open_pass_electron | intros c5 H5].
  intros s c6 s' E. apply keeps_open_pass_htmlVariables in E.
  exact (keeps_open_trans _ _ _ H1
           (keeps_open_trans _ _ _ H2
              (keeps_open_trans _ _ _ H3
                 (keeps_open_trans _ _ _ H4 (keeps_open_trans _ _ _ H5 E))))).
Qed.

Lemma dev_devServer_object cfg :
  Ensures (fun d => exists fs, d = JObj fs) (dev_devServer host ctx cfg).
Proof.
  unfold dev_devServer. cbv zeta.
  do 5 (eapply Ensures_bind; [apply Ensures_any | intros ? _]).
  intros s d s' E. apply try_value_Ret_inv in E as [E _].
  apply merge_object in E. exact E.
Qed.

(** Lines 1084-1094. *)
Lemma dev_open_result (fs : Fields) (cfg cfg' : Fields) (d' : JSValue) (s s' : Session)
      (open : JSValue) :
  dev_open host ctx (JObj fs) cfg s = (Ret (d', cfg'), s') ->
  prop (JObj fs) "open" = Some open ->
  (exists fs', d' = JObj fs')
  /\ field "devServer" cfg' = field "devServer" cfg
  /\ prop (field "metaConf" cfg') "openBrowser"
     = if native_mode ctx || negb (truthy open)
       then prop (field "metaConf" cfg) "openBrowser"
       else Some (if isMinimalTerminal host then JBool false else open).
Proof.
  unfold dev_open. intros H Hopen.
  destruct (native_mode ctx); cbn [orb].
  - destruct (ctx_mode_electron ctx).
    + do 3 (apply bind_Ret_inv in H; destruct H as (? & ? & ? & H)).
      injection H as <- <- _.
      match goal with
      | E : putp (JObj fs) _ _ _ = _ |- _ => apply try_value_Ret_inv in E as [E _];
                                             injection E as <-
      end.
      eauto.
    + injection H as <- <- _. eauto.
  - apply bind_Ret_inv in H. destruct H as (open0 & s0 & E & H).
    apply try_value_Ret_inv in E as [E _].
    assert (open0 = open) by congruence. subst open0.
    destruct (truthy open); cbn [negb].
    + apply bind_Ret_inv in H. destruct H as (metaConf & s1 & E1 & H).
      injection H as <- <- _.
      apply try_value_Ret_inv in E1 as [E1 _].
      destruct (field "metaConf" cfg) as [| | | | | | | | mc | | |] eqn:Em;
        try discriminate E1.
      injection E1 as <-.
      split; [eauto |]. split; [apply field_assign_other; reflexivity |].
      rewrite field_assign_same, prop_object, field_assign_same.
      destruct (isMinimalTerminal host); reflexivity.
    + injection H as <- <- _. eauto.
Qed.

(** Lines 997-1096. *)
Lemma pass_dev_result (cfg cfg' : Fields) (s s' : Session) :
  ctx_dev ctx = true ->
  pass_dev host ctx w cfg s = (Ret cfg', s') ->
  exists devServer s1 open,
    dev_devServer host ctx cfg s = (Ret devServer, s1)
    /\ prop devServer "open" = Some open
    /\ (exists ds, field "devServer" cfg' = JObj ds /\ lookup "open" ds = None)
    /\ prop (field "metaConf" cfg') "openBrowser"
       = if native_mode ctx || negb (truthy open)
         then prop (field "metaConf" cfg) "openBrowser"
         else Some (if isMinimalTerminal host then JBool false else open).
Proof.
  intros Hdev H. unfold pass_dev in H. rewrite Hdev in H.
  apply bind_Ret_inv in H. destruct H as (d & s1 & Ed & H).
  apply bind_Ret_inv in H. destruct H as (cfg1 & s2 & Ev & H).
  apply bind_Ret_inv in H. destruct H as ([d' cfg2] & s3 & Eo & H).
  apply bind_Ret_inv in H. destruct H as (d'' & s4 & Edel & H).
  injection H as <- _. cbn [fst snd] in Edel.
  destruct (dev_devServer_object cfg _ _ _ Ed) as [fs ->].
  destruct (keeps_open_dev_vueDevtools _ _ _ _ _ Ev) as [_ Hmeta].
  destruct (dev_open_result fs cfg1 cfg2 d' s2 s3 _ Eo eq_refl) as ([fs' ->] & _ & Hopen).
  apply try_value_Ret_inv in Edel as [Edel _]. injection Edel as <-.
  exists (JObj fs), s1, (field "open" fs).
  split; [exact Ed |]. split; [reflexivity |]. split.
  - exists (remove "open" fs'). split; [apply field_assign_same | apply lookup_remove_same].
  - rewrite field_assign_other by reflexivity. rewrite Hopen, Hmeta. reflexivity.
Qed.

End AutoOpen.

(** C10.  A derivation in dev mode that returns a configuration returns
    one whose development server is an object with no [open] key.  The
    value that was configured (the [open] of the development server's
    options over the defaults, when the dev pass begins) shows in the
    result only as [metaConf.openBrowser], and only when the mode is not
    cordova, capacitor or electron and the value is truthy: it is then
    [false] on a minimal terminal and the configured value otherwise.  In
    every other case [metaConf.openBrowser] is what it was before the dev
    pass. *)
Theorem C10_open_browser (host : Host) (ctx : Ctx) (opts : Opts) (w : World)
        (userCfg : JSValue) (failOnError : bool) (s s' : Session) (cfg : Fields) :
  ctx_dev ctx = true ->
  derive host ctx opts w userCfg failOnError s = (Ret cfg, s') ->
  (exists ds, field "devServer" cfg = JObj ds /\ lookup "open" ds = None)
  /\ exists cfg0 s0 devServer s1 open,
       before_dev host ctx opts w userCfg failOnError s = (Ret cfg0, s0)
       /\ dev_devServer host ctx cfg0 s0 = (Ret devServer, s1)
       /\ prop devServer "open" = Some open
       /\ prop (field "metaConf" cfg) "openBrowser"
          = if native_mode ctx || negb (truthy open)
            then prop (field "metaConf" cfg0) "openBrowser"
            else Some (if isMinimalTerminal host then JBool false else open).
Proof.
  intros Hdev H.
  apply derive_Ret_inv in H. destruct H as (cfg0 & s0 & cfg1 & s1 & Hb & Hd & Ha).
  apply (pass_dev_result host ctx w _ _ _ _ Hdev) in Hd.
  destruct Hd as (devServer & s2 & open & Ed & Eopen & (ds & Eds & Hds) & Hmeta).
  apply keeps_open_after_dev in Ha. destruct Ha as [Hkeep Hkeepm].
  split.
  - exists ds. split; [congruence | exact Hds].
  - exists cfg0, s0, devServer, s2, open.
    repeat (split; [assumption |]). congruence.
Qed.

(** The sample derivation: dev mode, served to a browser. *)
Definition sample_derivation : Outcome Fields * Session :=
  Eval vm_compute in
    derive Sample.host Sample.ctx Sample.opts (Sample.world (JObj [])) (JObj []) true
      Sample.start.

Definition sample_cfg : Fields :=
  Eval vm_compute in match fst sample_derivation with Ret c => c | _ => [] end.

Lemma C10_open_browser_witness :
  exists ds, field "devServer" sample_cfg = JObj ds /\ lookup "open" ds = None.
Proof.
  refine (proj1 (C10_open_browser Sample.host Sample.ctx Sample.opts
                   (Sample.world (JObj [])) (JObj []) true Sample.start
                   (snd sample_derivation) sample_cfg _ _)).
  - reflexivity.
  - vm_compute. reflexivity.
Defined.


(* ===================================================================== *)
(** * Further properties of the code *)
(* ===================================================================== *)

(** ** Public path *)

(** [formatPublicPath] answers in a normal form: its result ends with a
    slash, is a URL or starts with a slash, and is left as it is when it
    is formatted again. *)
Theorem formatPublicPath_normal_form (p : string) :
  endsWith (formatPublicPath p) "/" = true
  /\ (regex_test urlRegex (formatPublicPath p) = true
      \/ startsWith (formatPublicPath p) "/" = true)
  /\ formatPublicPath (formatPublicPath p) = formatPublicPath p.
Proof.
  pose proof (formatPublicPath_trailing_slash p) as Hend.
  pose proof (formatPublicPath_leading_slash p) as Hlead.
  set (r := formatPublicPath p) in *.
  split; [exact Hend |]. split.
  - destruct (regex_test urlRegex r); [now left | right; now apply Hlead].
  - unfold formatPublicPath at 1. fold r.
    destruct (r =? EmptyString) eqn:Hr.
    + apply String.eqb_eq in Hr. rewrite Hr in Hend. discriminate Hend.
    + rewrite Hend. cbn [negb].
      destruct (regex_test urlRegex r); [reflexivity |].
      rewrite (Hlead eq_refl). reflexivity.
Qed.

(** The router base of a public path: a path that does not start with
    [http] is its own router base, whatever it looks like; for one that
    does, the router base, when there is one, ends with a slash. *)
Theorem formatRouterBase_shape (p b : string) :
  formatRouterBase p = Some b ->
  if startsWith p "http" then endsWith b "/" = true else b = p.
Proof.
  unfold formatRouterBase.
  destruct (startsWith p "http") eqn:Hs.
  - assert (Hp : (p =? EmptyString) = false) by (destruct p; [discriminate Hs | reflexivity]).
    rewrite Hp. cbn [negb orb].
    destruct (regex_exec routerBaseRegex p) as [m |]; [| discriminate].
    intros H. injection H as <-. apply formatPublicPath_trailing_slash.
  - rewrite orb_true_r. intros H. injection H as <-. reflexivity.
Qed.

Lemma formatRouterBase_shape_witness :
  formatRouterBase "http://host:1234/app/sub?x=1#h" = Some "/app/sub/"
  /\ endsWith "/app/sub/" "/" = true.
Proof.
  split; [vm_compute; reflexivity |].
  exact (formatRouterBase_shape "http://host:1234/app/sub?x=1#h" "/app/sub/" eq_refl).
Defined.

Lemma prefix_cons_inv (c : ascii) (a s : string) :
  String.prefix (String c a) s = true ->
  exists r, s = String c r /\ String.prefix a r = true.
Proof.
  destruct s as [| d r]; simpl; [discriminate |].
  destruct (ascii_dec c d) as [<- | _]; [eauto | discriminate].
Qed.

Lemma prefix_nil (s : string) : String.prefix EmptyString s = true.
Proof. destruct s; reflexivity. Qed.

Lemma prefix_cons_same (c : ascii) (a r : string) :
  String.prefix (String c a) (String c r) = String.prefix a r.
Proof. simpl. destruct (ascii_dec c c); [reflexivity | contradiction]. Qed.

(** A public path that starts with [http] and goes on with something
    other than [://] or [s://] has no router base: the pattern does not
    match, and indexing the [null] that [match] answers is a TypeError.
    The scheme of [urlRegex] is case-insensitive, this one is not. *)
Theorem formatRouterBase_throws (p : string) :
  startsWith p "http" = true ->
  startsWith p "http://" = false ->
  startsWith p "https://" = false ->
  formatRouterBase p = None.
Proof.
  unfold startsWith. intros Hhttp.
  apply prefix_cons_inv in Hhttp as (p1 & -> & Hhttp).
  apply prefix_cons_inv in Hhttp as (p2 & -> & Hhttp).
  apply prefix_cons_inv in Hhttp as (p3 & -> & Hhttp).
  apply prefix_cons_inv in Hhttp as (rest & -> & _).
  rewrite !prefix_cons_same. intros H1 H2.
  unfold formatRouterBase.
  unfold startsWith. rewrite !prefix_cons_same.
  cbn [String.eqb orb].
  rewrite prefix_nil. cbn [negb].
  assert (Hnone : regex_exec routerBaseRegex (String "h" (String "t" (String "t" (String "p" rest)))) = None);
    [| now rewrite Hnone].
  destruct rest as [| c1 r1]; [reflexivity |].
  destruct (Ascii.eqb_spec c1 "s") as [-> | Hs].
  - rewrite prefix_cons_same in H2.
    destruct r1 as [| c2 r2]; [reflexivity |].
    destruct (Ascii.eqb_spec c2 ":") as [-> | Hc]; [| cbn; apply Ascii.eqb_neq in Hc; now rewrite Hc].
    rewrite prefix_cons_same in H2.
    destruct r2 as [| c3 r3]; [reflexivity |].
    destruct (Ascii.eqb_spec c3 "/") as [-> | Hc]; [| cbn; apply Ascii.eqb_neq in Hc; now rewrite Hc].
    rewrite prefix_cons_same in H2.
    destruct r3 as [| c4 r4]; [reflexivity |].
    destruct (Ascii.eqb_spec c4 "/") as [-> | Hc]; [| cbn; apply Ascii.eqb_neq in Hc; now rewrite Hc].
    rewrite prefix_cons_same, prefix_nil in H2. discriminate H2.
  - apply Ascii.eqb_neq in Hs.
    destruct (Ascii.eqb_spec c1 ":") as [-> | Hc];
      [| cbn; apply Ascii.eqb_neq in Hc; now rewrite Hs, Hc].
    rewrite prefix_cons_same in H1.
    destruct r1 as [| c2 r2]; [reflexivity |].
    destruct (Ascii.eqb_spec c2 "/") as [-> | Hc]; [| cbn; apply Ascii.eqb_neq in Hc; now rewrite Hc].
    rewrite prefix_cons_same in H1.
    destruct r2 as [| c3 r3]; [reflexivity |].
    destruct (Ascii.eqb_spec c3 "/") as [-> | Hc]; [| cbn; apply Ascii.eqb_neq in Hc; now rewrite Hc].
    rewrite prefix_cons_same, prefix_nil in H1. discriminate H1.
Qed.

(** An upper-case letter in the scheme: a URL for [formatPublicPath], a
    TypeError for [formatRouterBase]. *)
Lemma formatRouterBase_throws_witness :
  formatPublicPath "httpS://x.com" = "httpS://x.com/"
  /\ formatRouterBase "httpS://x.com/" = None.
Proof.
  split; [vm_compute; reflexivity |].
  apply formatRouterBase_throws; vm_compute; reflexivity.
Defined.

(** ** Asset entries *)

Lemma assign_keys (k : string) (v x : JSValue) (fs : Fields) :
  lookup k fs = Some x -> map fst (assign k v fs) = map fst fs.
Proof.
  induction fs as [| [k' v'] fs IH]; simpl; [discriminate |].
  destruct (k' =? k) eqn:E; simpl.
  - intros _. apply String.eqb_eq in E. now subst.
  - intros H. now rewrite IH.
Qed.

(** An asset given as an object with a string path comes back as the same
    object, its properties in the same order and with the same values,
    but for the path, which is resolved as a string entry's is. *)
Theorem parseAssetProperty_object (prefix : string) (fs : Fields) (p : string) :
  lookup "path" fs = Some (JStr p) ->
  exists fs',
    parseAssetProperty prefix (JObj fs) = Some (JObj fs')
    /\ map fst fs' = map fst fs
    /\ lookup "path" fs' = Some (JStr (resolve_asset_path prefix p))
    /\ forall k, ("path" =? k) = false -> lookup k fs' = lookup k fs.
Proof.
  intros Hp. exists (assign "path" (JStr (resolve_asset_path prefix p)) fs).
  split; [| split; [| split]].
  - unfold parseAssetProperty. cbn [prop spread]. rewrite Hp. reflexivity.
  - apply (assign_keys _ _ _ _ Hp).
  - apply lookup_assign_same.
  - intros k Hk. apply lookup_assign_other, Hk.
Qed.

Lemma parseAssetProperty_object_witness :
  exists fs',
    parseAssetProperty "boot" (JObj [("server", JBool false); ("path", JStr "~boot/axios")])
    = Some (JObj fs')
    /\ map fst fs' = ["server"; "path"]
    /\ lookup "path" fs' = Some (JStr "boot/axios")
    /\ forall k, ("path" =? k) = false ->
                 lookup k fs' = lookup k [("server", JBool false); ("path", JStr "~boot/axios")].
Proof.
  exact (parseAssetProperty_object "boot"
           [("server", JBool false); ("path", JStr "~boot/axios")] "~boot/axios" eq_refl).
Defined.

(** The paths [keep_first_paths] has met, as strings. *)
Definition string_paths (objs : list JSValue) : list string :=
  flat_map (fun o => match path_of o with JStr p => [p] | _ => [] end) objs.

Lemma existsb_eqb_In (p : string) (seen : list string) :
  existsb (String.eqb p) seen = true <-> In p seen.
Proof.
  rewrite existsb_exists. split.
  - intros (x & Hx & E). apply String.eqb_eq in E. now subst.
  - intros H. exists p. split; [exact H | apply String.eqb_refl].
Qed.

Lemma string_paths_cons (o : JSValue) (objs : list JSValue) (p : string) :
  path_of o = JStr p -> string_paths (o :: objs) = p :: string_paths objs.
Proof. intros H. unfold string_paths. cbn [flat_map]. now rewrite H. Qed.

Lemma keep_first_paths_spec (objs : list JSValue) (seen : list string) :
  Forall has_string_path objs ->
  NoDup (string_paths (keep_first_paths seen objs))
  /\ (forall p, In p (string_paths (keep_first_paths seen objs)) ->
                ~ In p seen /\ In p (string_paths objs))
  /\ (forall p, In p (string_paths objs) ->
                In p seen \/ In p (string_paths (keep_first_paths seen objs)))
  /\ (forall o, In o (keep_first_paths seen objs) -> In o objs).
Proof.
  intros Hall. revert seen.
  induction Hall as [| o objs [p Hp] Hall IH]; intros seen.
  - simpl. split; [constructor |]. split; [intros p [] |]. split; [intros p [] | intros o []].
  - cbn [keep_first_paths]. rewrite Hp.
    rewrite (string_paths_cons o objs p Hp).
    destruct (existsb (String.eqb p) seen) eqn:Hin.
    + apply existsb_eqb_In in Hin.
      destruct (IH seen) as (Hnd & Hsub & Hcov & Hmem).
      split; [exact Hnd |]. split; [| split].
      * intros q Hq. destruct (Hsub q Hq). split; [assumption | now right].
      * intros q [<- | Hq]; [now left | apply Hcov, Hq].
      * intros x Hx. right. apply Hmem, Hx.
    + assert (Hnot : ~ In p seen).
      { intros H. apply existsb_eqb_In in H. congruence. }
      destruct (IH (p :: seen)) as (Hnd & Hsub & Hcov & Hmem).
      rewrite (string_paths_cons o _ p Hp).
      split; [| split; [| split]].
      * constructor; [| exact Hnd]. intros H. apply Hsub in H as [H _].
        apply H. now left.
      * intros q [<- | Hq]; [split; [exact Hnot | now left] |].
        destruct (Hsub q Hq) as [H1 H2].
        split; [intros H; apply H1; now right | now right].
      * intros q [<- | Hq]; [right; now left |].
        destruct (Hcov q Hq) as [[<- | H] | H];
          [right; now left | now left | right; now right].
      * intros x [<- | Hx]; [now left | right; apply Hmem, Hx].
Qed.

(** [uniquePathFilter] as the filter of a list of objects with string
    paths: what is kept is part of the list, no two kept entries have the
    same path, and every path of the list is the path of a kept entry. *)
Theorem uniquePathFilter_no_duplicates (objs : list JSValue) :
  Forall has_string_path objs ->
  let kept := filteri uniquePathFilter objs in
  (forall o, In o kept -> In o objs)
  /\ NoDup (string_paths kept)
  /\ (forall p, In p (string_paths objs) <-> In p (string_paths kept)).
Proof.
  intros Hall kept. unfold kept.
  rewrite (uniquePathFilter_keeps_first objs Hall).
  destruct (keep_first_paths_spec objs [] Hall) as (Hnd & Hsub & Hcov & Hmem).
  split; [exact Hmem |]. split; [exact Hnd |].
  intros p. split.
  - intros H. destruct (Hcov p H) as [[] | H']. exact H'.
  - intros H. apply (Hsub p H).
Qed.

Lemma uniquePathFilter_no_duplicates_witness :
  NoDup (string_paths
           (filteri uniquePathFilter
              [ JObj [("path", JStr "a")]; JObj [("path", JStr "b"); ("server", JBool false)];
                JObj [("path", JStr "a"); ("client", JBool false)] ])).
Proof.
  refine (proj1 (proj2 (uniquePathFilter_no_duplicates _ _))).
  repeat constructor; eexists; reflexivity.
Defined.

(** ** Arrays without repetition *)

Lemma includes_strings (seen : list string) (x : string) :
  includes (map JStr seen) (JStr x) = existsb (String.eqb x) seen.
Proof.
  unfold includes. induction seen as [| y seen IH]; [reflexivity |].
  cbn [map existsb]. rewrite IH, str_strict_equals. reflexivity.
Qed.

Lemma unique_from_strings (seen seen' l : list string) :
  (forall x, existsb (String.eqb x) seen = existsb (String.eqb x) seen') ->
  unique_from (map JStr seen) (map JStr l) = map JStr (first_occurrences seen' l).
Proof.
  revert seen seen'. induction l as [| x l IH]; intros seen seen' Hs; [reflexivity |].
  cbn [map unique_from first_occurrences].
  rewrite includes_strings, Hs.
  destruct (existsb (String.eqb x) seen') eqn:E.
  - apply IH, Hs.
  - cbn [map]. f_equal.
    change [JStr x] with (map JStr [x]). rewrite <- map_app.
    apply IH. intros y. rewrite existsb_app. cbn [existsb].
    rewrite Hs, orb_false_r. apply orb_comm.
Qed.

Lemma first_occurrences_spec (l seen : list string) :
  NoDup (first_occurrences seen l)
  /\ (forall x, In x (first_occurrences seen l) <-> In x l /\ ~ In x seen).
Proof.
  revert seen. induction l as [| y l IH]; intros seen.
  - split; [constructor |]. intros x. simpl. tauto.
  - cbn [first_occurrences].
    destruct (existsb (String.eqb y) seen) eqn:E.
    + apply existsb_eqb_In in E. destruct (IH seen) as [Hnd Hin].
      split; [exact Hnd |]. intros x. rewrite Hin. simpl.
      split; [tauto |]. intros [[<- | H] Hn]; [contradiction | tauto].
    + assert (Hy : ~ In y seen) by (intros H; apply existsb_eqb_In in H; congruence).
      destruct (IH (y :: seen)) as [Hnd Hin].
      split.
      * constructor; [| exact Hnd]. rewrite Hin. simpl. tauto.
      * intros x. simpl. rewrite Hin. simpl.
        destruct (string_dec y x) as [<- | Hne]; tauto.
Qed.

Lemma first_occurrences_stable (l seen : list string) :
  NoDup l -> (forall x, In x l -> ~ In x seen) -> first_occurrences seen l = l.
Proof.
  revert seen. induction l as [| y l IH]; intros seen Hnd Hdis; [reflexivity |].
  cbn [first_occurrences].
  destruct (existsb (String.eqb y) seen) eqn:E.
  - apply existsb_eqb_In in E. exfalso. apply (Hdis y); [now left | exact E].
  - f_equal. inversion Hnd as [| ? ? Hy Hnd']; subst.
    apply IH; [exact Hnd' |].
    intros x Hx [<- | H]; [contradiction | apply (Hdis x); [now right | exact H]].
Qed.

(** [getUniqueArray] on an array of strings, as [cfg.extras],
    [cfg.animations] and the three lists of [cfg.framework] are: the
    result holds every string of the array once, at the place of its
    first occurrence, and making it unique again changes nothing. *)
Theorem getUniqueArray_strings (l : list string) :
  let u := first_occurrences [] l in
  getUniqueArray (map JStr l) = map JStr u
  /\ NoDup u
  /\ (forall x, In x u <-> In x l)
  /\ getUniqueArray (map JStr u) = map JStr u.
Proof.
  cbv zeta.
  destruct (first_occurrences_spec l []) as [Hnd Hin].
  assert (Hu : forall r, getUniqueArray (map JStr r) = map JStr (first_occurrences [] r)).
  { intros r. apply (unique_from_strings [] [] r). reflexivity. }
  split; [apply Hu |]. split; [exact Hnd |]. split.
  - intros x. rewrite Hin. simpl. tauto.
  - rewrite Hu. f_equal. apply first_occurrences_stable; [exact Hnd | intros x _ []].
Qed.

(** ** Escaping *)

Fixpoint chars (s : string) : list ascii :=
  match s with
  | EmptyString => []
  | String c r => c :: chars r
  end.

Lemma remove_chars_spec (p : ascii -> bool) (s : string) :
  chars (remove_chars p s) = filter (fun c => negb (p c)) (chars s).
Proof.
  induction s as [| c s IH]; [reflexivity |].
  cbn [remove_chars chars filter]. destruct (p c); cbn [negb chars]; now rewrite IH.
Qed.

Lemma chars_inj (a b : string) : chars a = chars b -> a = b.
Proof.
  revert b. induction a as [| c a IH]; intros [| d b]; simpl; try discriminate; auto.
  intros H. injection H as -> H. f_equal. apply IH, H.
Qed.

Lemma remove_chars_none (p : ascii -> bool) (s : string) :
  (forall c, In c (chars s) -> p c = false) -> remove_chars p s = s.
Proof.
  intros H. apply chars_inj. rewrite remove_chars_spec.
  induction (chars s) as [| c l IH]; [reflexivity |].
  cbn [filter]. rewrite (H c) by now left. cbn [negb]. f_equal.
  apply IH. intros d Hd. apply H. now right.
Qed.

(** [escapeHTMLTagContent] and [escapeHTMLAttribute] on a string: the
    result is the string without its angle brackets, respectively without
    its double quotes, the other characters in their order; a string that
    has none of them comes back as it is.  On a primitive value that is
    not a string, which has no method [replace], both throw when the
    value is truthy (a number other than zero, [true]) and answer the
    empty string when it is falsy (zero, [NaN], [null], [undefined],
    [false]). *)
Theorem escapeHTML_strings (x : string) :
  (exists y, escapeHTMLTagContent (JStr x) = Some (JStr y)
             /\ chars y = filter (fun c => negb (Ascii.eqb c "<" || Ascii.eqb c ">"))
                            (chars x)
             /\ ~ In "<"%char (chars y) /\ ~ In ">"%char (chars y)
             /\ escapeHTMLTagContent (JStr y) = Some (JStr y))
  /\ (exists y, escapeHTMLAttribute (JStr x) = Some (JStr y)
                /\ chars y = filter (fun c => negb (Ascii.eqb c (ascii_of_nat 34)))
                               (chars x)
                /\ ~ In (ascii_of_nat 34) (chars y)
                /\ escapeHTMLAttribute (JStr y) = Some (JStr y))
  /\ (forall v : JSValue,
        is_string v = false -> is_object v = false ->
        escapeHTMLTagContent v
        = (if truthy v then None else Some (JStr EmptyString))
        /\ escapeHTMLAttribute v
           = (if truthy v then None else Some (JStr EmptyString)))
  /\ escapeHTMLTagContent JNaN = Some (JStr EmptyString)
  /\ escapeHTMLAttribute JNaN = Some (JStr EmptyString)
  /\ escapeHTMLTagContent (JNum 0) = Some (JStr EmptyString)
  /\ escapeHTMLTagContent (JNum 7) = None
  /\ escapeHTMLAttribute (JBool true) = None.
Proof.
  split; [| split].
  - exists (remove_chars (fun c => Ascii.eqb c "<" || Ascii.eqb c ">") x).
    assert (Hc := remove_chars_spec (fun c => Ascii.eqb c "<" || Ascii.eqb c ">") x).
    split; [destruct x; reflexivity |]. split; [exact Hc |].
    assert (Hno : forall c, In c (chars (remove_chars
                     (fun c => Ascii.eqb c "<" || Ascii.eqb c ">") x)) ->
                   (Ascii.eqb c "<" || Ascii.eqb c ">") = false).
    { intros c. rewrite Hc, filter_In. intros [_ H]. now apply negb_true_iff in H. }
    split; [intros H; apply Hno in H; discriminate H |].
    split; [intros H; apply Hno in H; discriminate H |].
    set (y := remove_chars _ x) in *.
    transitivity (Some (JStr (remove_chars (fun c => Ascii.eqb c "<" || Ascii.eqb c ">") y)));
      [destruct y; reflexivity |].
    now rewrite (remove_chars_none _ y Hno).
  - exists (remove_chars (fun c => Ascii.eqb c (ascii_of_nat 34)) x).
    assert (Hc := remove_chars_spec (fun c => Ascii.eqb c (ascii_of_nat 34)) x).
    split; [destruct x; reflexivity |]. split; [exact Hc |].
    assert (Hno : forall c, In c (chars (remove_chars
                     (fun c => Ascii.eqb c (ascii_of_nat 34)) x)) ->
                   Ascii.eqb c (ascii_of_nat 34) = false).
    { intros c. rewrite Hc, filter_In. intros [_ H]. now apply negb_true_iff in H. }
    split; [intros H; apply Hno in H; discriminate H |].
    set (y := remove_chars _ x) in *.
    transitivity (Some (JStr (remove_chars (fun c => Ascii.eqb c (ascii_of_nat 34)) y)));
      [destruct y; reflexivity |].
    now rewrite (remove_chars_none _ y Hno).
  - split; [| repeat split; reflexivity].
    intros v Hv Ho. unfold escapeHTMLTagContent, escapeHTMLAttribute.
    destruct v; try discriminate Hv; try discriminate Ho;
      destruct (truthy _); split; reflexivity.
Qed.

(** ** JSON round trip *)

Lemma json_value_idempotent : forall v, json_value (json_value v) = json_value v.
Proof.
  fix IH 1. intros [| | b | n | | n d | s | l | fs | src | f | h]; try reflexivity.
  - cbn [json_value]. f_equal. rewrite map_map.
    revert l. fix IHl 1. intros [| x l]; [reflexivity |].
    cbn [map]. f_equal; [| apply IHl].
    destruct (is_undefined (json_value x)) eqn:E; [reflexivity |].
    rewrite IH, E. reflexivity.
  - cbn [json_value]. f_equal.
    revert fs. fix IHfs 1. intros [| [k x] fs]; [reflexivity |].
    cbn [map filter fst snd].
    destruct (is_undefined (json_value x)) eqn:E; cbn [negb].
    + apply IHfs.
    + cbn [map filter fst snd]. rewrite IH, E. cbn [negb]. f_equal. apply IHfs.
Qed.

(** [clone] is a JSON round trip: what it answers is a value that a
    second round trip leaves as it is. *)
Theorem clone_stable (v v' : JSValue) :
  clone v = Some v' -> clone v' = Some v'.
Proof.
  unfold clone. cbv zeta.
  destruct (is_undefined (json_value v)) eqn:E; [discriminate |].
  intros H. injection H as <-. rewrite json_value_idempotent, E. reflexivity.
Qed.

Lemma clone_stable_witness :
  clone (JObj [("base", JNull); ("img", JStr "src")])
  = Some (JObj [("base", JNull); ("img", JStr "src")]).
Proof.
  exact (clone_stable (JObj [("base", JNull); ("skipped", JUndefined); ("img", JStr "src")])
           _ eq_refl).
Defined.

(** ** Single steps of the derivation *)

Lemma put_inv (v : JSValue) (k : string) (x v' : JSValue) :
  put v k x = Some v' -> exists fs, v = JObj fs /\ v' = JObj (assign k x fs).
Proof.
  destruct v; try discriminate. intros H. injection H as <-. eauto.
Qed.

Lemma putp_Ret_inv (v : JSValue) (k : string) (x v' : JSValue) (s s' : Session) :
  putp v k x s = (Ret v', s') ->
  s' = s /\ exists fs, v = JObj fs /\ v' = JObj (assign k x fs).
Proof.
  intros H. apply try_value_Ret_inv in H as [H ->]. split; [reflexivity |].
  now apply put_inv.
Qed.

Lemma getp_Ret_inv (v : JSValue) (k : string) (x : JSValue) (s s' : Session) :
  getp v k s = (Ret x, s') -> s' = s /\ prop v k = Some x.
Proof. intros H. apply try_value_Ret_inv in H as [H ->]. auto. Qed.

Lemma ret_Ret_inv {A : Type} (a b : A) (s s' : Session) :
  ret a s = (Ret b, s') -> b = a /\ s' = s.
Proof. intros H. injection H as -> ->. auto. Qed.


(** The requested host and port.  When the step returns, the development
    server is an object with a host that is not empty and a port; a host
    or port of the command line wins over the one of the configuration
    file, which wins over the default: host [0.0.0.0], and the port of
    the mode, 50 higher in SSR mode with [ssr.pwa] set.  Nothing else of
    the development server changes. *)
Theorem devServer_host_port_result (ctx : Ctx) (opts : Opts) (cfg : Fields)
        (d : JSValue) (s s' : Session) :
  devServer_host_port ctx opts cfg s = (Ret d, s') ->
  exists old fs,
    field "devServer" cfg = JObj old /\ d = JObj fs
    /\ truthy (field "host" fs) = true
    /\ field "host" fs
       = (if truthy (opt_host opts) then opt_host opts
          else if truthy (field "host" old) then field "host" old
               else JStr "0.0.0.0")
    /\ (if truthy (opt_port opts) then field "port" fs = opt_port opts
        else if truthy (field "port" old) then field "port" fs = field "port" old
             else field "port" fs
                  = match table_lookup (ctx_modeName ctx) defaultPortMapping with
                    | Some n =>
                        JNum (n + (if ctx_mode_ssr ctx
                                      && match prop (field "ssr" cfg) "pwa" with
                                         | Some x => strict_equals x (JBool true)
                                         | None => false
                                         end
                                   then 50 else 0))
                    | None => JNaN
                    end)
    /\ (forall k, ("host" =? k) = false -> ("port" =? k) = false ->
                  lookup k fs = lookup k old).
Proof.
  intros H. unfold devServer_host_port in H. cbv zeta in H.
  apply bind_Ret_inv in H as (d1 & s1 & E1 & H).
  assert (H1 : exists old,
             field "devServer" cfg = JObj old
             /\ exists fs1, d1 = JObj fs1
                /\ truthy (field "host" fs1) = true
                /\ field "host" fs1
                   = (if truthy (opt_host opts) then opt_host opts
                      else if truthy (field "host" old) then field "host" old
                           else JStr "0.0.0.0")
                /\ (forall k, ("host" =? k) = false -> lookup k fs1 = lookup k old)).
  { destruct (truthy (opt_host opts)) eqn:Hh.
    - apply putp_Ret_inv in E1 as (_ & old & Eo & ->). exists old.
      split; [exact Eo |]. eexists. split; [reflexivity |].
      rewrite field_assign_same. split; [exact Hh |]. split; [reflexivity |].
      intros k Hk. now rewrite lookup_assign_other.
    - apply bind_Ret_inv in E1 as (h & s0 & E0 & E1).
      apply getp_Ret_inv in E0 as [-> Eh].
      destruct (truthy h) eqn:Hth; cbn [negb] in E1.
      + apply ret_Ret_inv in E1 as [-> _].
        destruct (field "devServer" cfg) as [| | | | | | x | l | old | | |];
          try discriminate Eh;
          try (injection Eh as <-; discriminate Hth).
        rewrite prop_object in Eh. injection Eh as <-.
        exists old. split; [reflexivity |]. exists old.
        rewrite Hth. auto.
      + apply putp_Ret_inv in E1 as (_ & old & Eo & ->). exists old.
        split; [exact Eo |]. eexists. split; [reflexivity |].
        rewrite field_assign_same. rewrite Eo, prop_object in Eh.
        injection Eh as <-. rewrite Hth. split; [reflexivity |].
        split; [reflexivity |].
        intros k Hk. now rewrite lookup_assign_other. }
  destruct H1 as (old & Eo & fs1 & -> & Hh1 & Hh2 & Hk1).
  exists old.
  assert (Hp1 : field "port" fs1 = field "port" old).
  { unfold field. now rewrite Hk1. }
  destruct (truthy (opt_port opts)) eqn:Hp.
  - apply bind_Ret_inv in H as (d2 & s2 & E2 & H).
    apply putp_Ret_inv in E2 as (_ & fs & Efs & ->). injection Efs as <-.
    unfold tip in H. rewrite bind_emit in H. apply ret_Ret_inv in H as [-> _].
    eexists. split; [exact Eo |]. split; [reflexivity |].
    rewrite !field_assign_other by reflexivity. rewrite field_assign_same.
    repeat split; try assumption.
    intros k Hk Hk'. rewrite lookup_assign_other by assumption. now apply Hk1.
  - apply bind_Ret_inv in H as (p & s2 & E2 & H).
    apply getp_Ret_inv in E2 as [-> Ep]. rewrite prop_object in Ep.
    injection Ep as <-. rewrite Hp1 in H.
    destruct (truthy (field "port" old)) eqn:Htp; cbn [negb] in H.
    + unfold tip in H. rewrite bind_emit in H. apply ret_Ret_inv in H as [-> _].
      exists fs1. split; [exact Eo |]. split; [reflexivity |].
      repeat split; try assumption.
      intros k Hk _. now apply Hk1.
    + apply bind_Ret_inv in H as (flag & s3 & E3 & H).
      apply putp_Ret_inv in H as (_ & fs & Efs & ->). injection Efs as <-.
      eexists. split; [exact Eo |]. split; [reflexivity |].
      rewrite !field_assign_other by reflexivity. rewrite field_assign_same.
      split; [exact Hh1 |]. split; [exact Hh2 |]. split.
      * assert (Hflag : flag = ctx_mode_ssr ctx
                               && match prop (field "ssr" cfg) "pwa" with
                                  | Some x => strict_equals x (JBool true)
                                  | None => false
                                  end).
        { destruct (ctx_mode_ssr ctx); cbn [andb].
          - apply bind_Ret_inv in E3 as (x & s4 & E4 & E3).
            apply getp_Ret_inv in E4 as [_ ->].
            apply ret_Ret_inv in E3 as [-> _]. reflexivity.
          - apply ret_Ret_inv in E3 as [-> _]. reflexivity. }
        rewrite Hflag. reflexivity.
      * intros k Hk Hk'. rewrite lookup_assign_other by assumption. now apply Hk1.
Qed.

Definition sample_devServer_cfg : Fields :=
  [ ("devServer", JObj [ ("server", JObj []) ]) ].

Definition sample_host_port : JSValue :=
  Eval vm_compute in
    match fst (devServer_host_port Sample.ctx Sample.opts sample_devServer_cfg
                 Sample.start) with
    | Ret d => d
    | _ => JUndefined
    end.

Definition sample_host_port_session : Session :=
  Eval vm_compute in
    snd (devServer_host_port Sample.ctx Sample.opts sample_devServer_cfg Sample.start).

Lemma devServer_host_port_result_witness :
  exists fs,
    sample_host_port = JObj fs
    /\ field "host" fs = JStr "0.0.0.0"
    /\ field "port" fs = JNum 9000.
Proof.
  destruct (devServer_host_port_result Sample.ctx Sample.opts sample_devServer_cfg
              sample_host_port Sample.start sample_host_port_session eq_refl)
    as (old & fs & Eo & Ed & _ & Hh & Hp & _).
  injection Eo as <-. exists fs. split; [exact Ed |]. split; [exact Hh |]. exact Hp.
Defined.

Definition web_mode (ctx : Ctx) : bool :=
  existsb (String.eqb (ctx_modeName ctx)) ["spa"; "pwa"; "ssr"].

Definition packaged_mode (ctx : Ctx) : bool :=
  existsb (String.eqb (ctx_modeName ctx)) ["capacitor"; "cordova"; "electron"; "bex"].

(** The public path step.  When it returns, the session is as it was and
    only [build] has changed, in [publicPath] and [vueRouterBase] only.
    [build.publicPath] is a string: empty in a packaged mode with no
    public path for the web, and ending with a slash otherwise.  A
    [vueRouterBase] that was set is kept; one that was not is the router
    base of that public path. *)
Theorem pass_publicPath_result (ctx : Ctx) (cfg cfg' : Fields) (s s' : Session) :
  pass_publicPath ctx cfg s = (Ret cfg', s') ->
  s' = s
  /\ (forall k, ("build" =? k) = false -> lookup k cfg' = lookup k cfg)
  /\ exists build build' q,
      field "build" cfg = JObj build
      /\ field "build" cfg' = JObj build'
      /\ field "publicPath" build' = JStr q
      /\ ((q = EmptyString /\ packaged_mode ctx = true) \/ endsWith q "/" = true)
      /\ (if is_undefined (field "vueRouterBase" build)
          then exists b, formatRouterBase q = Some b
                         /\ field "vueRouterBase" build' = JStr b
          else field "vueRouterBase" build' = field "vueRouterBase" build)
      /\ (forall k, ("publicPath" =? k) = false -> ("vueRouterBase" =? k) = false ->
                    lookup k build' = lookup k build).
Proof.
  intros H. unfold pass_publicPath in H. cbv zeta in H.
  apply bind_Ret_inv in H as (pp & s0 & E0 & H).
  apply getp_Ret_inv in E0 as [-> Epp].
  apply bind_Ret_inv in H as (q & s1 & E1 & H).
  apply bind_Ret_inv in H as (b1 & s2 & E2 & H).
  apply putp_Ret_inv in E2 as (-> & build & Eb & ->).
  apply bind_Ret_inv in H as (v & s3 & E3 & H).
  apply getp_Ret_inv in E3 as [-> Ev].
  apply bind_Ret_inv in H as (v' & s4 & E4 & H).
  apply bind_Ret_inv in H as (b2 & s5 & E5 & H).
  apply putp_Ret_inv in E5 as (-> & fs & Efs & ->).
  injection Efs as <-.
  apply ret_Ret_inv in H as [-> ->].
  rewrite Eb in Epp. rewrite prop_object in Epp, Ev. injection Epp as <-.
  injection Ev as <-.
  rewrite field_assign_other in E4 by reflexivity.
  assert (Hq : s1 = s
               /\ ((q = EmptyString /\ packaged_mode ctx = true)
                   \/ endsWith q "/" = true)).
  { fold (web_mode ctx) (packaged_mode ctx) in E1.
    destruct (truthy (field "publicPath" build) && web_mode ctx).
    - destruct (field "publicPath" build); try discriminate E1.
      apply ret_Ret_inv in E1 as [-> ->]. split; [reflexivity |]. right.
      apply formatPublicPath_trailing_slash.
    - destruct (packaged_mode ctx); apply ret_Ret_inv in E1 as [-> ->];
        (split; [reflexivity |]); [left; auto | right; reflexivity]. }
  destruct Hq as [-> Hq].
  assert (Hv : s4 = s
               /\ if is_undefined (field "vueRouterBase" build)
                  then exists b, formatRouterBase q = Some b /\ v' = JStr b
                  else v' = field "vueRouterBase" build).
  { destruct (is_undefined (field "vueRouterBase" build)); cbn [negb] in E4.
    - apply bind_Ret_inv in E4 as (b & s6 & E6 & E4).
      apply try_value_Ret_inv in E6 as [E6 ->].
      apply ret_Ret_inv in E4 as [-> ->]. split; [reflexivity |]. eauto.
    - apply ret_Ret_inv in E4 as [-> ->]. auto. }
  destruct Hv as [-> Hv].
  split; [reflexivity |]. split.
  - intros k Hk. now rewrite lookup_assign_other.
  - exists build, (assign "vueRouterBase" v' (assign "publicPath" (JStr q) build)), q.
    split; [exact Eb |]. split; [apply field_assign_same |].
    split; [rewrite field_assign_other by reflexivity; apply field_assign_same |].
    split; [exact Hq |]. split.
    + rewrite field_assign_same. exact Hv.
    + intros k H1 H2. rewrite !lookup_assign_other by assumption. reflexivity.
Qed.

Definition sample_build_cfg : Fields :=
  [ ("build", JObj [ ("publicPath", JStr "http://host:1234/app/sub") ]) ].

Definition sample_publicPath_cfg : Fields :=
  Eval vm_compute in
    match fst (pass_publicPath Sample.ctx sample_build_cfg Sample.start) with
    | Ret c => c
    | _ => []
    end.

Lemma pass_publicPath_result_witness :
  exists build' q,
    field "build" sample_publicPath_cfg = JObj build'
    /\ field "publicPath" build' = JStr q
    /\ ((q = EmptyString /\ packaged_mode Sample.ctx = true)
        \/ endsWith q "/" = true).
Proof.
  destruct (pass_publicPath_result Sample.ctx sample_build_cfg
              sample_publicPath_cfg Sample.start Sample.start eq_refl)
    as (_ & _ & build & build' & q & _ & Hb & Hq & Hs & _).
  exists build', q. auto.
Defined.
(** The transpile step.  With [build.webpackTranspileDependencies] set to
    [true] the step throws, leaving the session as it was; whenever it
    returns, the banner says that nothing is transpiled, the dependencies
    are as they were, and the esbuild targets for the browser and for
    node are set. *)
Theorem pass_transpile_targets_result (host : Host) (cfg : Fields) (s : Session) :
  let r := pass_transpile_targets host cfg s in
  snd r = s
  /\ (prop (field "build" cfg) "webpackTranspileDependencies" = Some (JBool true) ->
      fst r = Throw)
  /\ forall cfg', fst r = Ret cfg' ->
       prop (field "metaConf" cfg') "webpackTranspileBanner"
       = Some (JStr (dim host "no"))
       /\ prop (field "build" cfg') "webpackTranspileDependencies"
          = prop (field "build" cfg) "webpackTranspileDependencies"
       /\ exists target browser node,
           prop (field "build" cfg') "esbuildTarget" = Some target
           /\ prop target "browser" = Some browser /\ truthy browser = true
           /\ prop target "node" = Some node /\ truthy node = true.
Proof.
  cbv zeta. split; [| split].
  - assert (Hq : Preserves (fun a b => b = a) (pass_transpile_targets host cfg)).
    { unfold pass_transpile_targets.
      repeat (cbv beta zeta;
              lazymatch goal with
              | |- Preserves _ (bind _ _) =>
                  apply Preserves_bind; [congruence | | intros ?]
              | |- Preserves _ (if ?b then _ else _) => destruct b
              | |- Preserves _ (getp _ _) => apply Preserves_try_value; reflexivity
              | |- Preserves _ (putp _ _ _) => apply Preserves_try_value; reflexivity
              | |- Preserves _ (ret _) => apply Preserves_ret; reflexivity
              | |- Preserves _ throw => apply Preserves_throw; reflexivity
              end). }
    apply Hq.
  - intros Ht. unfold pass_transpile_targets, getp. cbv zeta.
    rewrite Ht, bind_try_Some. reflexivity.
  - intros cfg' H.
    destruct (pass_transpile_targets host cfg s) as [o s'] eqn:E. cbn [fst] in H.
    subst o. unfold pass_transpile_targets in E. cbv zeta in E.
    apply bind_Ret_inv in E as (deps & s0 & E0 & E).
    apply getp_Ret_inv in E0 as [-> Edeps].
    apply bind_Ret_inv in E as (metaConf & s1 & E1 & E).
    destruct (strict_equals deps (JBool true)); [discriminate E1 |].
    apply putp_Ret_inv in E1 as (-> & mfs & Em & ->).
    apply bind_Ret_inv in E as (t0 & s2 & E2 & E).
    apply getp_Ret_inv in E2 as [-> Et0].
    apply bind_Ret_inv in E as (br & s3 & E3 & E).
    apply getp_Ret_inv in E3 as [-> Ebr].
    apply bind_Ret_inv in E as (t1 & s4 & E4 & E).
    apply bind_Ret_inv in E as (nd & s5 & E5 & E).
    apply getp_Ret_inv in E5 as [-> End].
    apply bind_Ret_inv in E as (t2 & s6 & E6 & E).
    apply bind_Ret_inv in E as (b' & s7 & E7 & E).
    apply putp_Ret_inv in E7 as (-> & bfs & Ebfs & ->).
    apply ret_Ret_inv in E as [-> _].
    rewrite field_assign_same.
    rewrite field_assign_other by reflexivity. rewrite field_assign_same.
    split; [cbn; now rewrite lookup_assign_same |].
    split.
    { rewrite Ebfs. cbn. now rewrite lookup_assign_other. }
    exists t2. cbn [prop]. rewrite lookup_assign_same.
    assert (H1 : exists b1, prop t1 "browser" = Some b1 /\ truthy b1 = true).
    { destruct (truthy br) eqn:Hbr; cbn [negb] in E4.
      - apply ret_Ret_inv in E4 as [-> _]. eauto.
      - apply putp_Ret_inv in E4 as (_ & tfs & -> & ->).
        eexists. split; [cbn; rewrite lookup_assign_same; reflexivity | reflexivity]. }
    destruct H1 as (b1 & Hb1 & Hb1').
    destruct (truthy nd) eqn:Hnd; cbn [negb] in E6.
    + apply ret_Ret_inv in E6 as [-> _]. exists b1, nd. auto.
    + apply putp_Ret_inv in E6 as (_ & tfs & -> & ->).
      exists b1, (JStr "node16"). split; [reflexivity |].
      split; [| split; [exact Hb1' | split; [| reflexivity]]].
      * cbn. rewrite lookup_assign_other by reflexivity. exact Hb1.
      * cbn. now rewrite lookup_assign_same.
Qed.

Definition sample_transpile_cfg : Fields :=
  [ ("build", JObj [ ("webpackTranspileDependencies", JBool true) ]);
    ("metaConf", JObj []) ].

(** [webpackTranspileDependencies: true] in the configuration file. *)
Lemma pass_transpile_targets_result_witness :
  fst (pass_transpile_targets Sample.host sample_transpile_cfg Sample.start) = Throw.
Proof.
  exact (proj1 (proj2 (pass_transpile_targets_result Sample.host sample_transpile_cfg
                         Sample.start)) eq_refl).
Defined.

(** ** Certificates *)


Section Certificates.

Variable w : World.











End Certificates.




(** ** The network *)

(** An effect that reaches the network or ends the process. *)
Definition network (e : Effect) : bool :=
  match e with
  | EProbe _ _ | EExternalIP | EProcessExit => true
  | _ => false
  end.

(** [offline s s']: from [s] to [s'] nothing was probed or looked up, and
    the two module-level variables of the negotiation are as they were. *)
Record offline (s s' : Session) : Prop := {
  offline_running : addressRunning s' = addressRunning s;
  offline_cached : cachedExternalHost s' = cachedExternalHost s;
  offline_trace : exists new, trace s' = (trace s ++ new)%list
                              /\ existsb network new = false
}.

Lemma offline_refl s : offline s s.
Proof.
  split; try reflexivity. exists []. split; [now rewrite app_nil_r | reflexivity].
Qed.

Lemma offline_trans a b c : offline a b -> offline b c -> offline a c.
Proof.
  intros [R1 C1 (n1 & T1 & N1)] [R2 C2 (n2 & T2 & N2)]. split; try congruence.
  exists (n1 ++ n2)%list. split.
  - rewrite T2, T1, app_assoc. reflexivity.
  - rewrite existsb_app, N1, N2. reflexivity.
Qed.

Lemma offline_add_effect e s : network e = false -> offline s (add_effect e s).
Proof.
  intros H. split; try reflexivity. exists [e]. split; [reflexivity |].
  cbn. now rewrite H.
Qed.

Lemma offline_set_address a s : offline s (set_address a s).
Proof.
  split; try reflexivity. exists []. split; [now rewrite app_nil_r | reflexivity].
Qed.

#[export] Hint Resolve offline_refl offline_trans offline_add_effect
  offline_set_address : keep.

(** A computation that ends with a value or an exception: it neither
    terminates the process nor gives up after a warning. *)
Definition Settles {A : Type} (m : M A) : Prop :=
  forall s, match fst (m s) with
            | Ret _ | Throw => True
            | _ => False
            end.

Lemma Settles_ret {A : Type} (a : A) : Settles (ret a).
Proof. intros s. exact I. Qed.

Lemma Settles_throw {A : Type} : Settles (@throw A).
Proof. intros s. exact I. Qed.

Lemma Settles_try_value {A : Type} (o : option A) : Settles (try_value o).
Proof. destruct o; intros s; exact I. Qed.

Lemma Settles_gets {A : Type} (f : Session -> A) : Settles (gets f).
Proof. intros s. exact I. Qed.

Lemma Settles_modify (f : Session -> Session) : Settles (modify f).
Proof. intros s. exact I. Qed.

Lemma Settles_emit (e : Effect) : Settles (emit e).
Proof. intros s. exact I. Qed.

Lemma Settles_bind {A B : Type} (m : M A) (f : A -> M B) :
  Settles m -> (forall a, Settles (f a)) -> Settles (bind m f).
Proof.
  intros Hm Hf s. specialize (Hm s). unfold bind.
  destruct (m s) as [[a | k | k |] s1]; cbn [fst] in *; try exact Hm.
  apply Hf.
Qed.

Ltac settle_step :=
  cbv beta iota zeta;
  lazymatch goal with
  | |- Settles (bind (ret ?a) ?f) => change (Settles (f a))
  | |- Settles (bind _ _) => apply Settles_bind; [| intros ?]
  | |- Settles (if ?b then _ else _) => destruct b
  | |- Settles (match ?x with _ => _ end) => destruct x
  | |- Settles (ret _) => apply Settles_ret
  | |- Settles throw => apply Settles_throw
  | |- Settles (try_value _) => apply Settles_try_value
  | |- Settles (getp _ _) => apply Settles_try_value
  | |- Settles (putp _ _ _) => apply Settles_try_value
  | |- Settles (gets _) => apply Settles_gets
  | |- Settles (modify _) => apply Settles_modify
  | |- Settles (emit _) => apply Settles_emit
  | |- Settles (tip _) => apply Settles_emit
  | |- Settles (as_path _) => unfold as_path
  end.

Ltac settle := repeat settle_step.

Section Network.

Variable host : Host.
Variable ctx : Ctx.
Variable opts : Opts.
Variable w : World.

Lemma Offline_pass_devServer_address (failOnError : bool) (cfg : Fields) :
  opt_verifyAddress opts = false ->
  Preserves offline (pass_devServer_address host ctx opts w failOnError cfg).
Proof.
  intros Hv. unfold pass_devServer_address, devServer_host_port, negotiate_address.
  rewrite Hv. cbv iota. keep.
Qed.

Lemma Settles_pass_devServer_address (failOnError : bool) (cfg : Fields) :
  opt_verifyAddress opts = false ->
  Settles (pass_devServer_address host ctx opts w failOnError cfg).
Proof.
  intros Hv. unfold pass_devServer_address, devServer_host_port, negotiate_address.
  rewrite Hv. cbv iota. settle.
Qed.

(** Without [verifyAddress] the address step stays off the network: it
    probes no port and looks up no external address, leaves the two
    module-level variables of the negotiation alone, and ends with a
    configuration or an exception, never by terminating the process or
    with a warning. *)
Theorem address_unverified (failOnError : bool) (cfg : Fields) (s : Session) :
  opt_verifyAddress opts = false ->
  let r := pass_devServer_address host ctx opts w failOnError cfg s in
  addressRunning (snd r) = addressRunning s
  /\ cachedExternalHost (snd r) = cachedExternalHost s
  /\ (exists new, trace (snd r) = (trace s ++ new)%list
                  /\ existsb network new = false)
  /\ (forall k, fst r <> Exit k /\ fst r <> Bail k).
Proof.
  intros Hv. cbv zeta.
  destruct (Offline_pass_devServer_address failOnError cfg Hv s) as [Hr Hc Ht].
  pose proof (Settles_pass_devServer_address failOnError cfg Hv s) as Hs.
  repeat split; try assumption;
    intros E; rewrite E in Hs; exact Hs.
Qed.

(** [onAddress], given the host the probe is made for.  An open port is
    answered with that host and the port found, and marks the process as
    running on an address.  Any network error is answered with [null]
    when the process already runs on an address, and terminates the
    process otherwise.  The address cache is not touched. *)
Theorem onAddress_outcome (h p : JSValue) (mode : string) (s s1 : Session)
        (h1 : JSValue) :
  external_host host w h mode s = (Ret h1, s1) ->
  let r := onAddress host w h p mode s in
  address (snd r) = address s
  /\ match findClosestOpenPort w p h1 with
     | OpenPort q =>
         fst r = Ret (Some (h1, q)) /\ addressRunning (snd r) = true
     | _ =>
         fst r = (if addressRunning s then Ret None else Exit NetworkError)
         /\ addressRunning (snd r) = addressRunning s
     end.
Proof.
  intros E. cbv zeta.
  pose proof (Quiet_external_host host w h mode s) as Hq. rewrite E in Hq.
  cbn [snd] in Hq. destruct Hq as [_ _ _ Ha Hr _].
  unfold onAddress. rewrite (bind_run _ _ _ _ _ E). rewrite bind_emit.
  destruct (findClosestOpenPort w p h1) as [q | | |].
  - destruct (strict_equals p q); cbn; repeat split; assumption.
  - cbn. rewrite Hr. destruct (addressRunning s); cbn; repeat split; assumption.
  - cbn. rewrite Hr. destruct (addressRunning s); cbn; repeat split; assumption.
  - cbn. rewrite Hr. destruct (addressRunning s); cbn; repeat split; assumption.
Qed.

End Network.

(** The address step of the sample project, without [verifyAddress]. *)
Definition unverified_opts : Opts :=
  {| opt_host := JUndefined; opt_port := JUndefined;
     opt_verifyAddress := false; opt_watch := false |}.

Lemma address_unverified_witness :
  addressRunning
    (snd (pass_devServer_address Sample.host Sample.ctx unverified_opts
            (Sample.world (JObj [])) true sample_devServer_cfg Sample.start))
  = false
  /\ cachedExternalHost
       (snd (pass_devServer_address Sample.host Sample.ctx unverified_opts
               (Sample.world (JObj [])) true sample_devServer_cfg Sample.start))
     = JUndefined.
Proof.
  destruct (address_unverified Sample.host Sample.ctx unverified_opts
              (Sample.world (JObj [])) true sample_devServer_cfg Sample.start eq_refl)
    as (H1 & H2 & _).
  exact (conj H1 H2).
Defined.

(** A build for a device asks for the machine's external address. *)
Definition device_session : Session :=
  Eval vm_compute in
    snd (external_host Sample.host (Sample.world (JObj [])) (JStr "localhost")
           "capacitor" Sample.start).

Lemma onAddress_outcome_witness :
  fst (onAddress Sample.host (Sample.world (JObj [])) (JStr "localhost") (JNum 9500)
         "capacitor" Sample.start)
  = Ret (Some (JStr "192.168.0.2", JNum 9500))
  /\ addressRunning
       (snd (onAddress Sample.host (Sample.world (JObj [])) (JStr "localhost")
               (JNum 9500) "capacitor" Sample.start))
     = true.
Proof.
  exact (proj2 (onAddress_outcome Sample.host (Sample.world (JObj []))
                  (JStr "localhost") (JNum 9500) "capacitor" Sample.start
                  device_session (JStr "192.168.0.2") eq_refl)).
Defined.

(** ** The PWA step *)

Section Workbox.

Variable host : Host.
Variable ctx : Ctx.
Variable w : World.

Lemma includes_workbox (mode : JSValue) :
  includes [JStr "GenerateSW"; JStr "InjectManifest"] mode = true ->
  mode = JStr "GenerateSW" \/ mode = JStr "InjectManifest".
Proof.
  destruct mode as [| | b | n | | n d | x | l | fs | src | f | h]; try discriminate.
  unfold includes. cbn [existsb strict_equals]. rewrite orb_false_r.
  intros H. apply orb_true_iff in H as [H | H]; apply String.eqb_eq in H; subst x; auto.
Qed.

(** The PWA step of a session in PWA mode.  It returns only with a valid
    Workbox mode, [GenerateSW] or [InjectManifest]; an invalid one is the
    only thing that makes it terminate the process, when errors are
    fatal, or give up after a warning, when they are not. *)
Theorem pass_pwa_bex_workbox (failOnError : bool) (cfg : Fields) (s : Session) :
  ctx_mode_pwa s = true ->
  match fst (pass_pwa_bex host ctx w failOnError cfg s) with
  | Ret cfg' =>
      prop (field "pwa" cfg') "workboxMode" = Some (JStr "GenerateSW")
      \/ prop (field "pwa" cfg') "workboxMode" = Some (JStr "InjectManifest")
  | Exit k => failOnError = true /\ k = ValidationError
  | Bail k => failOnError = false /\ k = ValidationError
  | Throw => True
  end.
Proof.
  intros Hpwa. unfold pass_pwa_bex. rewrite bind_gets, Hpwa.
  destruct (merge _ [field "pwa" cfg]) as [pwa |]; [| exact I].
  rewrite bind_try_Some. cbv zeta. unfold getp at 1.
  destruct (prop pwa "workboxMode") as [mode |] eqn:Emode; [| exact I].
  rewrite bind_try_Some.
  destruct (includes [JStr "GenerateSW"; JStr "InjectManifest"] mode) eqn:Ein;
    cbn [negb]; [| destruct failOnError; cbn; auto].
  match goal with
  | |- match fst (?m s) with _ => _ end =>
      assert (Hs : Settles m) by settle;
      specialize (Hs s); destruct (m s) as [[c | k | k |] s'] eqn:E;
      cbn [fst] in *; try contradiction; try exact I
  end.
  apply bind_Ret_inv in E as (publicPath & s1 & _ & E).
  apply bind_Ret_inv in E as (swFilename & s2 & _ & E).
  apply bind_Ret_inv in E as (env & s3 & _ & E).
  apply bind_Ret_inv in E as (env' & s4 & _ & E).
  apply bind_Ret_inv in E as (build & s5 & _ & E).
  apply bind_Ret_inv in E as (manifest & s6 & _ & E).
  apply bind_Ret_inv in E as (manifest' & s7 & _ & E).
  apply bind_Ret_inv in E as (metaConf & s8 & _ & E).
  apply bind_Ret_inv in E as (sw & s9 & _ & E).
  apply bind_Ret_inv in E as (swPath & s10 & _ & E).
  apply bind_Ret_inv in E as (sourceFiles & s11 & _ & E).
  apply ret_Ret_inv in E as [-> _].
  rewrite !field_assign_other by reflexivity. rewrite field_assign_same, Emode.
  destruct (includes_workbox mode Ein) as [-> | ->]; auto.
Qed.

End Workbox.

Definition sample_pwa_cfg : Fields :=
  [ ("pwa", JObj [ ("workboxMode", JStr "generateSW") ]) ].

(** A Workbox mode in the wrong case, in the first build. *)
Lemma pass_pwa_bex_workbox_witness :
  match fst (pass_pwa_bex Sample.host Sample.ctx (Sample.world (JObj [])) true
               sample_pwa_cfg (initial_session true JUndefined false)) with
  | Exit k => true = true /\ k = ValidationError
  | _ => False
  end.
Proof.
  exact (pass_pwa_bex_workbox Sample.host Sample.ctx (Sample.world (JObj [])) true
           sample_pwa_cfg (initial_session true JUndefined false) eq_refl).
Defined.
(** ** One-shot builds and watch sessions *)

Lemma delivered_add_internal (e : Effect) (s : Session) :
  internal e = true -> delivered (add_effect e s) = delivered s.
Proof.
  intros H. apply extends_delivered. cbn. now apply extends_one.
Qed.

Lemma delivered_add_delivery (e : Effect) (s : Session) :
  internal e = false -> delivered (add_effect e s) = (delivered s ++ [e])%list.
Proof.
  intros H. unfold delivered. cbn [trace add_effect]. rewrite filter_app. cbn [filter].
  unfold delivers. rewrite H. reflexivity.
Qed.

(** What a build of the watcher does before [onEnd] runs. *)
Definition before_onEnd (w : World) : M unit := onStart ;; esbuild_output w.

Lemma before_onEnd_state (w : World) (s : Session) :
  let s0 := snd (before_onEnd w s) in
  isFirst s0 = isFirst s /\ isWatching s0 = isWatching s
  /\ address s0 = address s /\ addressRunning s0 = addressRunning s
  /\ extends (trace s) (trace s0).
Proof.
  cbv zeta. unfold before_onEnd, onStart, esbuild_output, log. run_binds.
  destruct (isFirst s) eqn:Hf; cbn [negb when]; run_binds;
    destruct (compile_errors w); cbn [negb when]; run_binds; cbn;
    repeat split; try assumption; try apply extends_refl;
    (eexists; split; [rewrite <- !app_assoc; reflexivity | reflexivity]).
Qed.

Section Sessions.

Variable host : Host.
Variable ctx : Ctx.
Variable opts : Opts.

Lemma rebuild_split (w : World) (s : Session) :
  rebuild host ctx opts w s = onEnd host ctx opts w (snd (before_onEnd w s)).
Proof.
  unfold rebuild, before_onEnd, onStart, esbuild_output, log. run_binds.
  destruct (isFirst s); cbn [negb when]; run_binds;
    destruct (compile_errors w); cbn [negb when]; run_binds; reflexivity.
Qed.

(** With [failOnError] set, a failure is never just a warning. *)
Lemma computeConfig_strict_no_bail (w : World) (fn : ConfigFn) (s : Session)
      (k : ErrorKind) :
  fst (computeConfig host ctx opts w fn true s) <> Bail k.
Proof.
  intros H.
  assert (Ha : agree ctx opts s (set_addressRunning true s))
    by (split; reflexivity).
  pose proof (Sim_computeConfig host ctx opts w fn s _ Ha) as Hs.
  unfold outcomes_match in Hs. rewrite H in Hs.
  destruct (fst (computeConfig host ctx opts w fn false (set_addressRunning true s)));
    exact Hs.
Qed.

(** How a cycle past the guard of [onEnd] hands over its result. *)
Lemma onEnd_ready_delivery (w : World) (s : Session) :
  let r := onEnd_ready host ctx opts w (isFirst s) s in
  isWatching (snd r) = isWatching s
  /\ match fst r with
     | Ret _ =>
         isFirst (snd r) = false
         /\ exists conf,
             delivered (snd r)
             = (delivered s
                ++ [if isFirst s then EFirstBuildIsDone (JObj conf)
                    else EWatchCallback (JObj conf)])%list
     | _ => isFirst (snd r) = isFirst s /\ delivered (snd r) = delivered s
     end.
Proof.
  cbv zeta. unfold onEnd_ready.
  destruct (compile_errors w).
  - destruct (isFirst s) eqn:Hf; unfold delivered; cbn;
      rewrite ?filter_app; cbn; rewrite ?app_nil_r; repeat split; assumption.
  - destruct (loaded w) as [| fn].
    + destruct (isFirst s) eqn:Hf; unfold delivered; cbn;
        rewrite ?filter_app; cbn; rewrite ?app_nil_r; repeat split; assumption.
    + rewrite bind_ret_l.
      pose proof (computeConfig_result host ctx opts w fn (isFirst s) s) as Hr.
      cbv zeta in Hr. destruct Hr as (Hf & Hw & _ & _ & _ & Hext & _).
      apply extends_delivered in Hext.
      destruct (computeConfig host ctx opts w fn (isFirst s) s)
        as [[c | k | k |] t] eqn:E;
        rewrite (bind_run _ _ _ _ _ E); cbn [fst snd] in *;
        try (repeat split; assumption).
      destruct (isFirst s) eqn:Hfs; cbn [fst snd].
      * unfold bind, modify, emit. cbn [fst snd].
        split; [exact Hw |]. split; [reflexivity |]. exists c.
        rewrite delivered_add_delivery by reflexivity.
        f_equal. exact Hext.
      * unfold bind, log, emit. cbn [fst snd].
        split; [exact Hw |]. split; [exact Hf |]. exists c.
        rewrite delivered_add_delivery by reflexivity.
        rewrite delivered_add_internal by reflexivity.
        f_equal. exact Hext.
Qed.

(** A build of the watcher hands over a configuration when it succeeds
    while the session is in its first build or live. *)
Definition due (s : Session) (o : Outcome unit) : bool :=
  match o with
  | Ret _ => isFirst s || isWatching s
  | _ => false
  end.

Lemma rebuild_delivery (w : World) (s : Session) :
  let r := rebuild host ctx opts w s in
  isWatching (snd r) = isWatching s
  /\ if due s (fst r)
     then isFirst (snd r) = false
          /\ exists conf,
              delivered (snd r)
              = (delivered s
                 ++ [if isFirst s then EFirstBuildIsDone (JObj conf)
                     else EWatchCallback (JObj conf)])%list
     else isFirst (snd r) = isFirst s /\ delivered (snd r) = delivered s.
Proof.
  cbv zeta. rewrite rebuild_split.
  pose proof (before_onEnd_state w s) as H0. cbv zeta in H0.
  destruct H0 as (Hf & Hw & _ & _ & Hext). apply extends_delivered in Hext.
  set (s0 := snd (before_onEnd w s)) in *.
  unfold onEnd. rewrite !bind_gets.
  destruct (negb (isFirst s0) && negb (isWatching s0)) eqn:Hskip.
  - cbn [ret fst snd due]. rewrite <- Hf, <- Hw.
    apply andb_true_iff in Hskip as [H1 H2].
    apply negb_true_iff in H1. apply negb_true_iff in H2.
    rewrite H1, H2. cbn [orb]. repeat split; assumption.
  - pose proof (onEnd_ready_delivery w s0) as Hd. cbv zeta in Hd.
    destruct Hd as (Hw' & Hd).
    assert (Hgo : isFirst s || isWatching s = true).
    { rewrite <- Hf, <- Hw. destruct (isFirst s0), (isWatching s0);
        try reflexivity. discriminate Hskip. }
    split; [congruence |].
    destruct (fst (onEnd_ready host ctx opts w (isFirst s0) s0)); cbn [due].
    + rewrite Hgo. destruct Hd as (Hd1 & conf & Hd2). split; [exact Hd1 |].
      exists conf. rewrite Hd2, Hext, Hf. reflexivity.
    + destruct Hd; split; congruence.
    + destruct Hd; split; congruence.
    + destruct Hd; split; congruence.
Qed.



(** One-shot mode.  [build] ends with a configuration, by terminating
    the process or with an exception, never with a warning only; it
    invokes no callback and leaves the phase of the session alone. *)
Theorem build_outcome (w : World) (s : Session) :
  let r := build host ctx opts w s in
  (forall k, fst r <> Bail k)
  /\ delivered (snd r) = delivered s
  /\ isFirst (snd r) = isFirst s
  /\ isWatching (snd r) = isWatching s.
Proof.
  cbv zeta. unfold build, esbuild_output.
  destruct (compile_errors w); cbn [negb when].
  - unfold delivered. cbn. rewrite ?filter_app. cbn. rewrite ?app_nil_r.
    repeat split. discriminate.
  - rewrite bind_modify, bind_ret_l.
    destruct (loaded w) as [| fn].
    + unfold delivered. cbn. rewrite ?filter_app. cbn. rewrite ?app_nil_r.
      repeat split. discriminate.
    + rewrite bind_ret_l.
      pose proof (computeConfig_result host ctx opts w fn true
                    (set_tempFile_exists true s)) as Hr.
      cbv zeta in Hr. destruct Hr as (Hf & Hw & _ & _ & _ & Hext & _).
      apply extends_delivered in Hext.
      split; [intros k; apply computeConfig_strict_no_bail |].
      repeat split; assumption.
Qed.

(** Watch mode.  One build hands over at most one configuration: the
    first successful build hands it to [firstBuildIsDone] and ends the
    first phase; a successful build of a live session hands it to the
    watch callback; a build that fails, or one that completes between the
    first build and [watch ()], hands over nothing and leaves the phase
    as it was.  No build makes the session live. *)
Theorem rebuild_delivers_once (w : World) (s : Session) :
  let r := rebuild host ctx opts w s in
  isWatching (snd r) = isWatching s
  /\ match fst r with
     | Ret _ =>
         if isFirst s then
           isFirst (snd r) = false
           /\ exists conf,
               delivered (snd r)
               = (delivered s ++ [EFirstBuildIsDone (JObj conf)])%list
         else if isWatching s then
           isFirst (snd r) = false
           /\ exists conf,
               delivered (snd r)
               = (delivered s ++ [EWatchCallback (JObj conf)])%list
         else isFirst (snd r) = false /\ delivered (snd r) = delivered s
     | _ => isFirst (snd r) = isFirst s /\ delivered (snd r) = delivered s
     end.
Proof.
  cbv zeta. destruct (rebuild_delivery w s) as [Hw H].
  split; [exact Hw |].
  destruct (fst (rebuild host ctx opts w s)); cbn [due] in H; try exact H.
  destruct (isFirst s) eqn:Hf; cbn [orb] in H; [exact H |].
  destruct (isWatching s); [exact H |].
  destruct H as [H1 H2]. split; [congruence | exact H2].
Qed.

Definition is_first_delivery (e : Effect) : bool :=
  match e with EFirstBuildIsDone _ => true | _ => false end.

Definition is_watch_callback (e : Effect) : bool :=
  match e with EWatchCallback _ => true | _ => false end.

(** What has been handed over so far is in order: nothing while the first
    build is pending; then the first configuration, followed by watch
    callbacks only, which need a live session. *)
Definition orderly (s : Session) : Prop :=
  match delivered s with
  | [] => isFirst s = true
  | e :: rest =>
      isFirst s = false
      /\ is_first_delivery e = true
      /\ forallb is_watch_callback rest = true
      /\ (rest <> [] -> isWatching s = true)
  end.

Lemma orderly_initial (pwa : bool) (cachedHost : JSValue) (running : bool) :
  orderly (initial_session pwa cachedHost running).
Proof. reflexivity. Qed.

Lemma orderly_step (e : Event) (s : Session) :
  orderly s -> orderly (snd (step host ctx opts e s)).
Proof.
  intros Hs. destruct e as [w |]; cbn [step].
  - pose proof (rebuild_delivery w s) as H. cbv zeta in H.
    destruct H as (Hw & H). unfold orderly in *.
    destruct (due s (fst (rebuild host ctx opts w s))) eqn:Hdue.
    + destruct H as (Hf & conf & Hd). rewrite Hd.
      destruct (delivered s) as [| e rest].
      * rewrite Hs. cbn. repeat split; try assumption. intros H; now contradiction H.
      * destruct Hs as (Hfs & He & Hrest & Hlive). rewrite Hfs.
        cbn [app]. split; [exact Hf |]. split; [exact He |].
        split; [rewrite forallb_app, Hrest; reflexivity |].
        intros _. rewrite Hw.
        unfold due in Hdue. rewrite Hfs in Hdue.
        destruct (fst (rebuild host ctx opts w s)); try discriminate Hdue.
        exact Hdue.
    + destruct H as (Hf & Hd). rewrite Hd, Hf, Hw. exact Hs.
  - unfold orderly in *. change (delivered (snd (watch s))) with (delivered s).
    destruct (delivered s) as [| e rest]; [exact Hs |].
    destruct Hs as (Hfs & He & Hrest & _). repeat split; assumption.
Qed.

Lemma orderly_run (es : list Event) (s : Session) :
  orderly s -> orderly (snd (run host ctx opts es s)).
Proof.
  revert s. induction es as [| e es IH]; intros s Hs; [exact Hs |].
  cbn [run]. pose proof (orderly_step e s Hs) as H.
  destruct (step host ctx opts e s) as [[u | k | k |] s']; cbn [snd] in *;
    try (apply IH, H). exact H.
Qed.

(** A watch session hands configurations over in order, whatever builds
    and calls of [watch ()] it goes through: nothing as long as the first
    build is pending; after it, the first configuration, once, through
    [firstBuildIsDone], followed by watch callbacks only; and the watch
    callback is never invoked unless [watch ()] has been called. *)
Theorem session_deliveries (es : list Event) (pwa : bool) (cachedHost : JSValue)
        (running : bool) :
  let s := snd (run host ctx opts es (initial_session pwa cachedHost running)) in
  match delivered s with
  | [] => isFirst s = true
  | e :: rest =>
      isFirst s = false
      /\ is_first_delivery e = true
      /\ forallb is_watch_callback rest = true
      /\ (rest <> [] -> isWatching s = true)
  end.
Proof.
  cbv zeta. apply (orderly_run es), orderly_initial.
Qed.

(** After the first build, no build terminates the process. *)
Lemma later_rebuild_no_exit (w : World) (s : Session) (k : ErrorKind) :
  first_build_bound ctx opts s -> isFirst s = false ->
  fst (rebuild host ctx opts w s) <> Exit k.
Proof.
  intros Hb Hfs. rewrite rebuild_split.
  pose proof (before_onEnd_state w s) as H0. cbv zeta in H0.
  destruct H0 as (Hf & _ & _ & Hr & _).
  set (s0 := snd (before_onEnd w s)) in *.
  unfold onEnd. rewrite !bind_gets. rewrite Hf, Hfs. cbn [negb andb].
  destruct (negb (isWatching s0)); [discriminate |].
  assert (Ha : agree ctx opts s0 s0).
  { split; try reflexivity. intros Hn. rewrite Hr.
    now apply (first_build_bound_running ctx opts s). }
  pose proof (onEnd_ready_ends_match host ctx opts w s0 s0 Ha) as He.
  unfold ends_match in He. intros Hk. rewrite Hk in He.
  destruct (fst (onEnd_ready host ctx opts w true s0)); exact He.
Qed.

Lemma run_ends_in_first_build (es : list Event) (s : Session) :
  first_build_bound ctx opts s -> orderly s ->
  fst (run host ctx opts es s) = false ->
  isFirst (snd (run host ctx opts es s)) = true
  /\ delivered (snd (run host ctx opts es s)) = [].
Proof.
  revert s. induction es as [| e es IH]; intros s Hb Ho; [discriminate |].
  cbn [run].
  pose proof (first_build_bound_step host ctx opts e s Hb) as Hb'.
  pose proof (orderly_step e s Ho) as Ho'.
  destruct (step host ctx opts e s) as [[u | k | k |] s'] eqn:E; cbn [snd] in *;
    try (apply IH; assumption).
  intros _. cbn [snd].
  destruct e as [w |]; [| discriminate E]. cbn [step] in E.
  destruct (isFirst s) eqn:Hfs.
  - pose proof (rebuild_delivery w s) as H. cbv zeta in H.
    rewrite E in H. cbn [fst snd due] in H. destruct H as (_ & Hf & Hd).
    unfold orderly in Ho. rewrite Hd. split; [congruence |].
    destruct (delivered s) as [| e rest]; [reflexivity |].
    destruct Ho as (Hc & _). congruence.
  - exfalso. apply (later_rebuild_no_exit w s k Hb Hfs). now rewrite E.
Qed.

(** A watch session can terminate the process only in its first build:
    when a run of builds and calls of [watch ()] ends the process, the
    first build was still pending and nothing had been handed over. *)
Theorem process_ends_in_first_build (es : list Event) (pwa : bool)
        (cachedHost : JSValue) (running : bool) :
  let r := run host ctx opts es (initial_session pwa cachedHost running) in
  fst r = false -> isFirst (snd r) = true /\ delivered (snd r) = [].
Proof.
  cbv zeta. apply run_ends_in_first_build.
  - apply first_build_bound_initial.
  - apply orderly_initial.
Qed.

End Sessions.

(** A first build whose module fails to load ends the process; the later
    build is not reached. *)
Lemma process_ends_in_first_build_witness :
  isFirst (snd (run Sample.host Sample.ctx Sample.opts
                  [Build (Sample.world_loading ImportThrows);
                   Build (Sample.world (JObj []))] Sample.start)) = true
  /\ delivered (snd (run Sample.host Sample.ctx Sample.opts
                       [Build (Sample.world_loading ImportThrows);
                        Build (Sample.world (JObj []))] Sample.start)) = [].
Proof.
  exact (process_ends_in_first_build Sample.host Sample.ctx Sample.opts
           [Build (Sample.world_loading ImportThrows);
            Build (Sample.world (JObj []))] false JUndefined false eq_refl).
Defined.

(** ** Rebuilds through the debounce *)

(** The calls of the debounced callback among the effects of a build that
    happens at [time]: [this.#opts.watch(quasarConf)] is a call of the
    function the constructor got from [debounce(watch, 550)]. *)
Definition watch_calls (time : Z) (effects : list Effect) : list (Z * JSValue) :=
  flat_map (fun e => match e with
                     | EWatchCallback conf => [(time, conf)]
                     | _ => []
                     end) effects.

(** What a computation added to the trace. *)
Definition new_effects (s s' : Session) : list Effect :=
  skipn (List.length (trace s)) (trace s').

(** Times in one window: in order, each less than the wait after the one
    before. *)
Fixpoint in_window (previous : Z) (times : list Z) : Prop :=
  match times with
  | [] => True
  | t :: r => (previous <= t < previous + Debounce.wait)%Z /\ in_window t r
  end.

Lemma new_effects_app (s s' : Session) (new : list Effect) :
  trace s' = (trace s ++ new)%list -> new_effects s s' = new.
Proof.
  intros H. unfold new_effects. rewrite H. clear H.
  induction (trace s) as [| e l IH]; [reflexivity | exact IH].
Qed.

Lemma watch_calls_app (time : Z) (a b : list Effect) :
  watch_calls time (a ++ b) = (watch_calls time a ++ watch_calls time b)%list.
Proof. unfold watch_calls. apply flat_map_app. Qed.

Lemma watch_calls_internal (time : Z) (l : list Effect) :
  forallb internal l = true -> watch_calls time l = [].
Proof.
  induction l as [| e l IH]; [reflexivity |].
  cbn [forallb]. intros H. apply andb_true_iff in H as [He Hl].
  cbn [watch_calls flat_map]. fold (watch_calls time l). rewrite (IH Hl).
  destruct e; try reflexivity; discriminate He.
Qed.

Lemma burst_collapses (st : Debounce.State) (time : Z) (arg : JSValue)
      (rest : list (Z * JSValue)) :
  Debounce.idle st -> Debounce.burst time rest ->
  let final := Debounce.quiesce (Debounce.run_calls ((time, arg) :: rest) st) in
  Debounce.invocations final
  = (Debounce.invocations st
     ++ [ ((fst (last rest (time, arg)) + Debounce.wait)%Z,
           snd (last rest (time, arg))) ])%list
  /\ Debounce.idle final.
Proof.
  intros Hidle Hburst final. unfold final. cbn [Debounce.run_calls].
  apply DebounceFacts.quiesce_pending.
  apply DebounceFacts.burst_pending; [| exact Hburst].
  apply DebounceFacts.first_call_pending, Hidle.
Qed.

Lemma in_window_burst (previous : Z) (calls : list (Z * JSValue)) :
  in_window previous (map fst calls) -> Debounce.burst previous calls.
Proof.
  revert previous. induction calls as [| [t a] calls IH]; intros previous; cbn;
    [auto | intros [H1 H2]; split; [exact H1 | apply IH, H2]].
Qed.

Section Clock.

Variable host : Host.
Variable ctx : Ctx.
Variable opts : Opts.

(** The builds of a watch session, each with its time, and the calls of
    the debounced callback they make, in order. *)
Fixpoint session_calls (events : list (Z * World)) (s : Session)
  : list (Z * JSValue) :=
  match events with
  | [] => []
  | (time, w) :: r =>
      let res := rebuild host ctx opts w s in
      (watch_calls time (new_effects s (snd res))
       ++ match fst res with
          | Exit _ => []
          | _ => session_calls r (snd res)
          end)%list
  end.

(** The same builds, as the events of a session. *)
Definition builds (events : list (Z * World)) : list Event :=
  map (fun e => Build (snd e)) events.

(** The configuration a build derives: the module compiles and loads, and
    [#computeConfig], which a later build runs with [failOnError] off,
    returns it. *)
Definition derived (w : World) (s : Session) : option Fields :=
  if compile_errors w then None
  else match loaded w with
       | Imported fn =>
           match fst (computeConfig host ctx opts w fn false
                        (snd (before_onEnd w s))) with
           | Ret conf => Some conf
           | _ => None
           end
       | ImportThrows => None
       end.

(** Every build of the list derives a configuration. *)
Fixpoint all_derive (events : list (Z * World)) (s : Session) : Prop :=
  match events with
  | [] => True
  | (_, w) :: r =>
      derived w s <> None /\ all_derive r (snd (rebuild host ctx opts w s))
  end.

(** One build of a live session: it stays live; when the build derives a
    configuration it returns after one call of the callback, the last
    effect, with that configuration; when it does not, it does not
    return normally and calls nothing. *)
Lemma live_cycle (w : World) (s : Session) :
  isFirst s = false -> isWatching s = true ->
  let r := rebuild host ctx opts w s in
  isFirst (snd r) = false /\ isWatching (snd r) = true
  /\ match derived w s with
     | Some conf =>
         fst r = Ret tt
         /\ exists before,
             trace (snd r) = (trace s ++ before ++ [EWatchCallback (JObj conf)])%list
             /\ forallb internal before = true
     | None =>
         fst r <> Ret tt
         /\ exists new, trace (snd r) = (trace s ++ new)%list
                        /\ forallb internal new = true
     end.
Proof.
  intros Hf Hw. cbv zeta. rewrite rebuild_split. unfold derived.
  pose proof (before_onEnd_state w s) as H0. cbv zeta in H0.
  destruct H0 as (Hf0 & Hw0 & _ & _ & (n0 & Hn0 & Hi0)).
  set (s0 := snd (before_onEnd w s)) in *.
  rewrite Hf in Hf0. rewrite Hw in Hw0.
  unfold onEnd. rewrite !bind_gets, Hf0, Hw0. cbn [negb andb].
  unfold onEnd_ready.
  destruct (compile_errors w).
  - cbn. repeat split; try assumption; try discriminate.
    eexists. split; [rewrite Hn0, <- !app_assoc; reflexivity |].
    rewrite forallb_app, Hi0. reflexivity.
  - destruct (loaded w) as [| fn].
    + cbn. repeat split; try assumption; try discriminate.
      eexists. split; [rewrite Hn0, <- !app_assoc; reflexivity |].
      rewrite forallb_app, Hi0. reflexivity.
    + rewrite bind_ret_l.
      pose proof (computeConfig_result host ctx opts w fn false s0) as Hr.
      cbv zeta in Hr. destruct Hr as (Hf1 & Hw1 & _ & _ & _ & (n1 & Hn1 & Hi1) & _).
      destruct (computeConfig host ctx opts w fn false s0) as [[c | k | k |] s1] eqn:E;
        rewrite (bind_run _ _ _ _ _ E); cbn [fst snd] in *.
      * unfold log. rewrite bind_emit. cbn.
        split; [congruence |]. split; [congruence |]. split; [reflexivity |].
        exists (n0 ++ n1 ++ [ELog "Scheduled to apply quasar.config changes in 550ms"])%list.
        split; [rewrite Hn1, Hn0, <- !app_assoc; reflexivity |].
        rewrite !forallb_app, Hi0, Hi1. reflexivity.
      * split; [congruence |]. split; [congruence |]. split; [discriminate |].
        exists (n0 ++ n1)%list. split; [rewrite Hn1, Hn0, <- !app_assoc; reflexivity |].
        rewrite !forallb_app, Hi0, Hi1. reflexivity.
      * split; [congruence |]. split; [congruence |]. split; [discriminate |].
        exists (n0 ++ n1)%list. split; [rewrite Hn1, Hn0, <- !app_assoc; reflexivity |].
        rewrite !forallb_app, Hi0, Hi1. reflexivity.
      * split; [congruence |]. split; [congruence |]. split; [discriminate |].
        exists (n0 ++ n1)%list. split; [rewrite Hn1, Hn0, <- !app_assoc; reflexivity |].
        rewrite !forallb_app, Hi0, Hi1. reflexivity.
Qed.

(** The calls one build of a live session makes. *)
Lemma live_cycle_calls (time : Z) (w : World) (s : Session) :
  isFirst s = false -> isWatching s = true ->
  watch_calls time (new_effects s (snd (rebuild host ctx opts w s)))
  = match derived w s with
    | Some conf => [(time, JObj conf)]
    | None => []
    end.
Proof.
  intros Hf Hw. pose proof (live_cycle w s Hf Hw) as H. cbv zeta in H.
  destruct H as (_ & _ & H).
  destruct (derived w s) as [conf |].
  - destruct H as (_ & before & Ht & Hi).
    rewrite (new_effects_app _ _ _ Ht), watch_calls_app.
    rewrite (watch_calls_internal _ _ Hi). reflexivity.
  - destruct H as (_ & new & Ht & Hi).
    rewrite (new_effects_app _ _ _ Ht). apply watch_calls_internal, Hi.
Qed.

(** A run of builds that all derive a configuration: the session goes
    through all of them, and each makes its call at its time. *)
Lemma live_run_calls (events : list (Z * World)) (s : Session) :
  isFirst s = false -> isWatching s = true -> all_derive events s ->
  let s' := snd (run host ctx opts (builds events) s) in
  isFirst s' = false /\ isWatching s' = true
  /\ map fst (session_calls events s) = map fst events
  /\ forall (time : Z) (w : World),
       all_derive [(time, w)] s' ->
       exists conf,
         derived w s' = Some conf
         /\ session_calls (events ++ [(time, w)]) s
            = (session_calls events s ++ [(time, JObj conf)])%list.
Proof.
  revert s. induction events as [| [t0 w0] events IH]; intros s Hf Hw Hall; cbv zeta.
  - cbn [builds map run snd session_calls app].
    split; [exact Hf |]. split; [exact Hw |]. split; [reflexivity |].
    intros time w [Hd _].
    destruct (derived w s) as [conf |] eqn:E; [| contradiction].
    exists conf. split; [reflexivity |].
    rewrite (live_cycle_calls time w s Hf Hw), E.
    pose proof (live_cycle w s Hf Hw) as H. cbv zeta in H. rewrite E in H.
    destruct H as (_ & _ & Hr & _). rewrite Hr. reflexivity.
  - destruct Hall as [Hd Hall].
    pose proof (live_cycle w0 s Hf Hw) as H. cbv zeta in H.
    destruct H as (Hf1 & Hw1 & H).
    destruct (derived w0 s) as [conf0 |] eqn:E; [| contradiction].
    destruct H as (Hr & _).
    specialize (IH _ Hf1 Hw1 Hall). cbv zeta in IH.
    destruct IH as (IHf & IHw & IHt & IHlast).
    cbn [builds map run step snd].
    destruct (rebuild host ctx opts w0 s) as [o s1] eqn:Er. cbn [fst snd] in *.
    subst o. fold (builds events).
    split; [exact IHf |]. split; [exact IHw |]. split.
    + cbn [session_calls]. rewrite Er. cbn [fst snd].
      rewrite map_app, IHt.
      pose proof (live_cycle_calls t0 w0 s Hf Hw) as Hc. rewrite Er, E in Hc.
      cbn [snd] in Hc. rewrite Hc. reflexivity.
    + intros time w Hone. destruct (IHlast time w Hone) as (conf & Hconf & Hcalls).
      exists conf. split; [exact Hconf |].
      cbn [session_calls app]. rewrite Er. cbn [fst snd].
      rewrite Hcalls, app_assoc. reflexivity.
Qed.

End Clock.

Section ClockFacts.

Variable host : Host.
Variable ctx : Ctx.
Variable opts : Opts.

Lemma all_derive_last (front : list (Z * World)) (time : Z) (w : World) (s : Session) :
  isFirst s = false -> isWatching s = true ->
  all_derive host ctx opts (front ++ [(time, w)]) s ->
  all_derive host ctx opts front s
  /\ all_derive host ctx opts [(time, w)] (snd (run host ctx opts (builds front) s)).
Proof.
  revert s. induction front as [| [t0 w0] front IH]; intros s Hf Hw Hall.
  - split; [exact I | exact Hall].
  - destruct Hall as [Hd Hall].
    pose proof (live_cycle host ctx opts w0 s Hf Hw) as H. cbv zeta in H.
    destruct H as (Hf1 & Hw1 & H).
    destruct (derived host ctx opts w0 s) as [conf0 |] eqn:E; [| contradiction].
    destruct H as (Hr & _).
    destruct (IH _ Hf1 Hw1 Hall) as [IH1 IH2].
    split; [split; [rewrite E; discriminate | exact IH1] |].
    cbn [builds map run step snd].
    destruct (rebuild host ctx opts w0 s) as [o s1]. cbn [fst snd] in *. subst o.
    exact IH2.
Qed.

End ClockFacts.

(** C6.  The wait is 550 ms.  In a live session a build returns normally
    exactly when it derives a configuration, and it then calls the
    debounced callback once, with that configuration; a build that derives
    none calls nothing.  For a burst of builds of a live session that all
    derive a configuration, each less than 550 ms after the one before,
    the callback proper is invoked exactly once, 550 ms after the last
    build, with the configuration the last build derived. *)
Theorem C6_debounced_delivery (host : Host) (ctx : Ctx) (opts : Opts) :
  Debounce.wait = 550%Z
  /\ (forall (time : Z) (w : World) (s : Session),
         isFirst s = false -> isWatching s = true ->
         (fst (rebuild host ctx opts w s) = Ret tt
          <-> derived host ctx opts w s <> None)
         /\ watch_calls time (new_effects s (snd (rebuild host ctx opts w s)))
            = match derived host ctx opts w s with
              | Some conf => [(time, JObj conf)]
              | None => []
              end)
  /\ (forall (st : Debounce.State) (s : Session) (front : list (Z * World))
             (time : Z) (w : World),
         isFirst s = false -> isWatching s = true -> Debounce.idle st ->
         all_derive host ctx opts (front ++ [(time, w)]) s ->
         match map fst (front ++ [(time, w)]) with
         | [] => True
         | t0 :: ts => in_window t0 ts
         end ->
         exists conf,
           derived host ctx opts w (snd (run host ctx opts (builds front) s)) = Some conf
           /\ let final :=
                Debounce.quiesce
                  (Debounce.run_calls
                     (session_calls host ctx opts (front ++ [(time, w)]) s) st) in
              Debounce.invocations final
              = (Debounce.invocations st ++ [((time + 550)%Z, JObj conf)])%list
              /\ Debounce.idle final).
Proof.
  split; [reflexivity |]. split.
  - intros time w s Hf Hw. split; [| apply live_cycle_calls; assumption].
    pose proof (live_cycle host ctx opts w s Hf Hw) as H. cbv zeta in H.
    destruct H as (_ & _ & H).
    destruct (derived host ctx opts w s) as [conf |].
    + destruct H as (Hr & _). split; [discriminate | intros _; exact Hr].
    + destruct H as (Hr & _). split; [intros E; contradiction | intros E; now contradiction E].
  - intros st s front time w Hf Hw Hidle Hall Hwin.
    destruct (all_derive_last host ctx opts front time w s Hf Hw Hall) as [Hfront Hlast].
    pose proof (live_run_calls host ctx opts front s Hf Hw Hfront) as H. cbv zeta in H.
    destruct H as (_ & _ & Htimes & H).
    destruct (H time w Hlast) as (conf & Hconf & Hcalls).
    exists conf. split; [exact Hconf |].
    rewrite Hcalls. rewrite map_app, <- Htimes in Hwin. cbn [map fst] in Hwin.
    change ((time + 550)%Z) with ((time + Debounce.wait)%Z).
    destruct (session_calls host ctx opts front s) as [| [t0 a0] cs].
    + cbn [app]. apply (burst_collapses st time (JObj conf) [] Hidle I).
    + cbn [app map fst] in Hwin |- *.
      pose proof (burst_collapses st t0 a0 (cs ++ [(time, JObj conf)]) Hidle) as Hb.
      rewrite last_last in Hb. cbn [fst snd] in Hb.
      apply Hb. apply in_window_burst. rewrite map_app. exact Hwin.
Qed.

(** A live session of the sample project. *)
Definition live_session : Session :=
  Eval vm_compute in set_isWatching true first_build_done.

Definition earlier_builds : list (Z * World) :=
  [ (0%Z, Sample.world (JObj [ ("css", JArr [JStr "first.css"]) ]));
    (100%Z, Sample.world (JObj [ ("css", JArr [JStr "second.css"]) ])) ].

Definition last_build : World :=
  Sample.world (JObj [ ("css", JArr [JStr "third.css"]) ]).

(** Three rebuilds within the window: one delivery, 550 ms after the
    third, of the configuration derived from the third. *)
Lemma C6_debounced_delivery_witness :
  exists conf,
    field "css" conf = JArr [path_entry "src/css/third.css"]
    /\ Debounce.invocations
         (Debounce.quiesce
            (Debounce.run_calls
               (session_calls Sample.host Sample.ctx Sample.opts
                  (earlier_builds ++ [(300%Z, last_build)]) live_session)
               Debounce.initial))
       = [ (850%Z, JObj conf) ].
Proof.
  assert (Hall : all_derive Sample.host Sample.ctx Sample.opts
                   (earlier_builds ++ [(300%Z, last_build)]) live_session).
  { vm_compute. repeat split; discriminate. }
  assert (Hwin : match map fst (earlier_builds ++ [(300%Z, last_build)]) with
                 | [] => True
                 | t0 :: ts => in_window t0 ts
                 end).
  { cbn. unfold Debounce.wait. lia. }
  destruct (proj2 (proj2 (C6_debounced_delivery Sample.host Sample.ctx Sample.opts))
              Debounce.initial live_session earlier_builds 300%Z last_build
              eq_refl eq_refl (conj eq_refl eq_refl) Hall Hwin)
    as (conf & Hconf & Hinv & _).
  exists conf. split; [| exact Hinv].
  vm_compute in Hconf. injection Hconf as <-. reflexivity.
Defined.

(** ** Ports that are looked for once *)

(** [sticky s s']: a Vue devtools endpoint or an Electron inspect port
    that was known in [s] is the same in [s']. *)
Record sticky (s s' : Session) : Prop := {
  sticky_vueDevtools : forall c, vueDevtools s = Some c -> vueDevtools s' = Some c;
  sticky_electronInspectPort :
    forall p, electronInspectPort s = Some p -> electronInspectPort s' = Some p
}.

Lemma sticky_refl s : sticky s s.
Proof. split; auto. Qed.

Lemma sticky_trans a b c : sticky a b -> sticky b c -> sticky a c.
Proof. intros [] []. split; auto. Qed.

Lemma sticky_same (s s' : Session) :
  vueDevtools s' = vueDevtools s -> electronInspectPort s' = electronInspectPort s ->
  sticky s s'.
Proof. intros H1 H2. split; congruence. Qed.

Lemma sticky_add_effect e s : sticky s (add_effect e s).
Proof. now apply sticky_same. Qed.

Lemma sticky_set_isWatching b s : sticky s (set_isWatching b s).
Proof. now apply sticky_same. Qed.

Lemma sticky_set_isFirst b s : sticky s (set_isFirst b s).
Proof. now apply sticky_same. Qed.

Lemma sticky_set_address a s : sticky s (set_address a s).
Proof. now apply sticky_same. Qed.

Lemma sticky_set_ctx_mode_pwa b s : sticky s (set_ctx_mode_pwa b s).
Proof. now apply sticky_same. Qed.

Lemma sticky_set_cachedExternalHost v s : sticky s (set_cachedExternalHost v s).
Proof. now apply sticky_same. Qed.

Lemma sticky_set_addressRunning b s : sticky s (set_addressRunning b s).
Proof. now apply sticky_same. Qed.

Lemma sticky_set_tempFile_exists b s : sticky s (set_tempFile_exists b s).
Proof. now apply sticky_same. Qed.

Create HintDb stick discriminated.

#[export] Hint Resolve sticky_set_isWatching sticky_set_isFirst sticky_set_address
  sticky_set_ctx_mode_pwa sticky_set_cachedExternalHost sticky_set_addressRunning
  sticky_set_tempFile_exists : stick.

Ltac head_of t :=
  lazymatch t with
  | ?f _ => head_of f
  | _ => t
  end.

(** One step of a proof that a computation keeps a relation, given that
    the relation is reflexive and transitive and that effects keep it; the
    proof follows the text of the computation, and a function of the
    derivation is unfolded where it is met. *)
Ltac frame_step R T E :=
  cbv beta iota zeta;
  lazymatch goal with
  | |- Preserves _ (bind _ _) => apply Preserves_bind; [exact T | | intros ?]
  | |- Preserves _ (if ?b then _ else _) => destruct b
  | |- Preserves _ (match ?x with _ => _ end) => destruct x
  | |- Preserves _ (ret _) => apply Preserves_ret; exact R
  | |- Preserves _ throw => apply Preserves_throw; exact R
  | |- Preserves _ (bail _) => apply Preserves_bail; exact R
  | |- Preserves _ (exit _) => apply Preserves_exit; exact R
  | |- Preserves _ (try_value _) => apply Preserves_try_value; exact R
  | |- Preserves _ (gets _) => apply Preserves_gets; exact R
  | |- Preserves _ (when _ _) => apply Preserves_when; [exact R |]
  | |- Preserves _ (modify _) => apply Preserves_modify; intros; solve [auto with stick]
  | |- Preserves _ (emit _) => apply Preserves_emit; intros; apply E
  | |- Preserves _ ?m => solve [auto with stick] || (let h := head_of m in unfold h)
  end.

Ltac stick := repeat (frame_step sticky_refl sticky_trans sticky_add_effect).

Section Ports.

Variable host : Host.
Variable ctx : Ctx.
Variable opts : Opts.

Lemma Sticky_run_hooks hooks raw : Preserves sticky (run_hooks hooks raw).
Proof.
  revert raw. induction hooks as [| h hooks IH]; intros raw; cbn [run_hooks].
  - stick.
  - apply Preserves_bind; [exact sticky_trans | stick | intros _].
    destruct (hook_fn h raw); [apply IH | stick].
Qed.

Lemma Sticky_read_certificates w props options :
  Preserves sticky (read_certificates w props options).
Proof.
  revert options. induction props as [| k props IH]; intros options;
    cbn [read_certificates].
  - stick.
  - apply Preserves_bind; [exact sticky_trans | stick | intros v].
    apply Preserves_bind; [exact sticky_trans | stick | intros o]. apply IH.
Qed.

#[local] Hint Resolve Sticky_run_hooks Sticky_read_certificates : stick.

(** The endpoint of the Vue devtools is looked for when none is known,
    and only then. *)
Lemma Sticky_dev_vueDevtools w devServer cfg :
  Preserves sticky (dev_vueDevtools host ctx w devServer cfg).
Proof.
  intros s. unfold dev_vueDevtools, getp.
  destruct (prop devServer "vueDevtools") as [devtools |];
    [rewrite bind_try_Some | apply sticky_refl].
  destruct (ctx_vueDevtools ctx || strict_equals devtools (JBool true));
    [| apply sticky_refl].
  rewrite bind_gets.
  assert (Hrest : forall cached,
             Preserves sticky
               (metaConf <- putp (field "metaConf" cfg) "vueDevtools"
                              (JObj [("host", fst cached); ("port", snd cached)]) ;;
                ret (assign "metaConf" metaConf cfg))) by (intros; stick).
  destruct (vueDevtools s) as [c |] eqn:E.
  - rewrite bind_ret_l. apply Hrest.
  - rewrite bind_assoc.
    destruct (prop devServer "host") as [h |];
      [rewrite bind_try_Some | apply sticky_refl].
    rewrite bind_assoc.
    destruct h as [| | b | n | | n d | x | l | o | src | f | k]; try apply sticky_refl.
    rewrite bind_ret_l, bind_assoc, bind_emit.
    destruct (findClosestOpenPort w (JNum 11111) (JStr "0.0.0.0")) as [port | | |];
      try apply sticky_add_effect.
    rewrite bind_assoc, bind_modify, bind_ret_l.
    eapply sticky_trans; [| apply Hrest].
    split; cbn; [intros c H; congruence | auto].
Qed.

(** The inspect port of Electron is looked for when none is known, and
    only then. *)
Lemma Sticky_pass_electron w userCfg cfg :
  Preserves sticky (pass_electron host ctx w userCfg cfg).
Proof.
  unfold pass_electron.
  destruct (ctx_mode_electron ctx); [| stick].
  apply Preserves_bind; [exact sticky_trans | stick | intros preloadScripts].
  apply Preserves_bind; [exact sticky_trans | stick | intros electron].
  destruct (ctx_dev ctx); [| stick].
  intros s. rewrite bind_gets.
  assert (Hrest : forall port,
             Preserves sticky
               (emit EConsole ;;
                electron0 <- putp electron "inspectPort" port ;;
                ret (assign "electron" electron0 cfg))) by (intros; stick).
  destruct (electronInspectPort s) as [p |] eqn:E.
  - rewrite bind_ret_l. apply Hrest.
  - rewrite bind_assoc.
    assert (Hu : Preserves sticky (userCfg_electron userCfg "inspectPort")) by stick.
    specialize (Hu s).
    unfold bind at 1.
    destruct (userCfg_electron userCfg "inspectPort" s) as [[v | k | k |] s0] eqn:Eu;
      cbn [snd] in Hu; try exact Hu.
    assert (E0 : electronInspectPort s0 = None).
    { assert (Hq : Preserves (fun a b => electronInspectPort b = electronInspectPort a)
                     (userCfg_electron userCfg "inspectPort")).
      { unfold userCfg_electron, getp.
        repeat (cbv beta zeta;
                lazymatch goal with
                | |- Preserves _ (bind _ _) =>
                    apply Preserves_bind; [congruence | | intros ?]
                | |- Preserves _ (if ?b then _ else _) => destruct b
                | |- Preserves _ (try_value _) => apply Preserves_try_value; reflexivity
                | |- Preserves _ (ret _) => apply Preserves_ret; reflexivity
                end). }
      specialize (Hq s). rewrite Eu in Hq. cbn [snd] in Hq. congruence. }
    eapply sticky_trans; [exact Hu |].
    cbv zeta. rewrite bind_assoc, bind_emit.
    destruct (findClosestOpenPort w (js_or v (JNum 5858)) (JStr "127.0.0.1"))
      as [port | | |]; try (apply sticky_add_effect).
    rewrite !bind_assoc, bind_modify, bind_assoc, bind_emit, bind_ret_l.
    eapply sticky_trans; [| apply Hrest].
    split; cbn; [auto | intros p H; congruence].
Qed.

#[local] Hint Resolve Sticky_dev_vueDevtools Sticky_pass_electron : stick.

Lemma Sticky_derive w userCfg failOnError :
  Preserves sticky (derive host ctx opts w userCfg failOnError).
Proof. unfold derive. stick. Qed.

#[local] Hint Resolve Sticky_derive : stick.



End Ports.



(** ** The PWA flag *)

(** [pwa_kept s s']: [ctx.mode.pwa] is in [s'] what it was in [s]. *)
Definition pwa_kept (s s' : Session) : Prop := ctx_mode_pwa s' = ctx_mode_pwa s.

Lemma pwa_kept_refl s : pwa_kept s s.
Proof. reflexivity. Qed.

Lemma pwa_kept_trans a b c : pwa_kept a b -> pwa_kept b c -> pwa_kept a c.
Proof. unfold pwa_kept. congruence. Qed.

Lemma pwa_kept_add_effect e s : pwa_kept s (add_effect e s).
Proof. reflexivity. Qed.

#[export] Hint Extern 1 (pwa_kept _ _) => reflexivity : stick.

Ltac keep_pwa := repeat (frame_step pwa_kept_refl pwa_kept_trans pwa_kept_add_effect).

Section PwaFlag.

Variable host : Host.
Variable ctx : Ctx.
Variable opts : Opts.

Hypothesis not_ssr : ctx_mode_ssr ctx = false.

Lemma Pwa_run_hooks hooks raw : Preserves pwa_kept (run_hooks hooks raw).
Proof.
  revert raw. induction hooks as [| h hooks IH]; intros raw; cbn [run_hooks].
  - keep_pwa.
  - apply Preserves_bind; [exact pwa_kept_trans | keep_pwa | intros _].
    destruct (hook_fn h raw); [apply IH | keep_pwa].
Qed.

Lemma Pwa_read_certificates w props options :
  Preserves pwa_kept (read_certificates w props options).
Proof.
  revert options. induction props as [| k props IH]; intros options;
    cbn [read_certificates].
  - keep_pwa.
  - apply Preserves_bind; [exact pwa_kept_trans | keep_pwa | intros v].
    apply Preserves_bind; [exact pwa_kept_trans | keep_pwa | intros o]. apply IH.
Qed.

#[local] Hint Resolve Pwa_run_hooks Pwa_read_certificates : stick.

Lemma Pwa_pass_ssr cfg : Preserves pwa_kept (pass_ssr ctx cfg).
Proof. unfold pass_ssr. rewrite not_ssr. keep_pwa. Qed.

#[local] Hint Resolve Pwa_pass_ssr : stick.

Lemma Pwa_derive w userCfg failOnError :
  Preserves pwa_kept (derive host ctx opts w userCfg failOnError).
Proof. unfold derive. keep_pwa. Qed.

#[local] Hint Resolve Pwa_derive : stick.

Lemma Pwa_step (e : Event) : Preserves pwa_kept (step host ctx opts e).
Proof. destruct e as [w |]; cbn [step]; keep_pwa. Qed.

(** Outside SSR mode nothing switches the PWA mode of the context: it is
    after any builds and calls of [watch ()] what it was before. *)
Theorem pwa_flag_outside_ssr (es : list Event) (s : Session) :
  ctx_mode_pwa (snd (run host ctx opts es s)) = ctx_mode_pwa s.
Proof.
  revert s. induction es as [| e es IH]; intros s; [reflexivity |].
  cbn [run]. pose proof (Pwa_step e s) as He. unfold pwa_kept in He.
  destruct (step host ctx opts e s) as [[u | k | k |] s1]; cbn [snd] in *;
    try (rewrite IH; exact He).
  exact He.
Qed.

End PwaFlag.

Lemma pwa_flag_outside_ssr_witness :
  ctx_mode_pwa
    (snd (run Sample.host Sample.ctx Sample.opts
            [Build (Sample.world (JObj [ ("ssr", JObj [ ("pwa", JBool false) ]) ]))]
            (initial_session true JUndefined false)))
  = true.
Proof.
  exact (pwa_flag_outside_ssr Sample.host Sample.ctx Sample.opts eq_refl
           [Build (Sample.world (JObj [ ("ssr", JObj [ ("pwa", JBool false) ]) ]))]
           (initial_session true JUndefined false)).
Defined.
